(** * kopia object manager: reader, hash-encrypt-write pipeline, initializer

    A shallow embedding of [repo/object_reader.go], [repo/object_manager.go]
    and [repo/initialize.go].  Go values are modelled as follows:

    - [int64], [int32] and [int] values are integers in [Z]; arithmetic on
      them is followed by the two's-complement wrap of the type's width;
    - [[]byte] is [list byte]; a slice that may be [nil] is an [option];
    - a Go [error] value is an element of [error], [nil] is [None];
    - a call either returns or panics ([outcome]);
    - the receiver of a pointer method is passed in and handed back. *)

From Stdlib Require Import ZArith Lia.
From Stdlib.Strings Require Import Byte.
From stdpp Require Import base numbers option list strings gmap.

Set Warnings "-register-all".
Local Open Scope Z_scope.

(** ** Machine integers *)

Definition wrap (bits : Z) (x : Z) : Z :=
  (x + 2 ^ (bits - 1)) mod 2 ^ bits - 2 ^ (bits - 1).

Definition int64 : Z -> Z := wrap 64.
Definition int32 : Z -> Z := wrap 32.

Definition int64_range (x : Z) : Prop := - 2 ^ 63 <= x < 2 ^ 63.
Definition int32_range (x : Z) : Prop := - 2 ^ 31 <= x < 2 ^ 31.

(** [len(s)] as a Go [int]. *)
Definition len {A : Type} (s : list A) : Z := Z.of_nat (length s).

(** [s[i]]; [None] stands for the run-time panic on an index out of range. *)
Definition at_index {A : Type} (s : list A) (i : Z) : option A :=
  if i <? 0 then None else s !! Z.to_nat i.

(** [s[lo:hi]] on a slice whose capacity equals its length; [None] stands for
    the run-time panic on slice bounds out of range. *)
Definition slice {A : Type} (s : list A) (lo hi : Z) : option (list A) :=
  if (0 <=? lo) && (lo <=? hi) && (hi <=? len s)
  then Some (take (Z.to_nat (hi - lo)) (drop (Z.to_nat lo) s))
  else None.

(** [copy(dst[at:], src)] for [at <= len(dst)]: overwrites as many elements
    as fit. *)
Definition copy_at {A : Type} (dst : list A) (at_ : Z) (src : list A) : list A :=
  let n := Z.to_nat at_ in
  let k := Nat.min (length src) (length dst - n)%nat in
  take n dst ++ take k src ++ drop (n + k)%nat dst.

(** ** Errors and panics *)

Inductive error : Type :=
| io_EOF
| io_ErrUnexpectedEOF
| blob_ErrBlockNotFound
| Errorf (msg : string)           (* fmt.Errorf(msg) *)
| ForeignError (msg : string).    (* an error value made by a collaborator *)

#[global] Instance error_eq_dec : EqDecision error.
Proof. solve_decision. Defined.

Inductive outcome (A : Type) : Type :=
| Return (a : A)
| Panic (msg : string).
Arguments Return {A} a.
Arguments Panic {A} msg.

Definition index_out_of_range : string := "index out of range".
Definition slice_bounds_out_of_range : string := "slice bounds out of range".
Definition makeslice_len_out_of_range : string := "makeslice: len out of range".

(** ** Object identifiers

    The fields are the ones the object manager reads and writes
    ([StorageBlock], [Indirect], [TextContent], [BinaryContent], [Section]
    with [Start], [Length], [Base]); pointers are options. *)

Inductive ObjectID : Type :=
| mkObjectID (StorageBlock : string) (Indirect : option ObjectID)
             (TextContent : string) (BinaryContent : option (list byte))
             (Section_ : option ObjectIDSection)
with ObjectIDSection : Type :=
| mkObjectIDSection (Start Length : Z) (Base : ObjectID).

Definition StorageBlock (o : ObjectID) : string :=
  match o with mkObjectID s _ _ _ _ => s end.
Definition Indirect (o : ObjectID) : option ObjectID :=
  match o with mkObjectID _ i _ _ _ => i end.
Definition TextContent (o : ObjectID) : string :=
  match o with mkObjectID _ _ t _ _ => t end.
Definition BinaryContent (o : ObjectID) : option (list byte) :=
  match o with mkObjectID _ _ _ b _ => b end.
Definition Section_ (o : ObjectID) : option ObjectIDSection :=
  match o with mkObjectID _ _ _ _ s => s end.

(** [objectID.StorageBlock = s] *)
Definition set_StorageBlock (s : string) (o : ObjectID) : ObjectID :=
  match o with mkObjectID _ i t b c => mkObjectID s i t b c end.

Module indirectObjectEntry.
Record t : Type := mk { Start : Z; Length : Z; Object : ObjectID }.

Definition endOffset (i : t) : Z := int64 (Start i + Length i).
End indirectObjectEntry.
Import indirectObjectEntry (endOffset).
Abbreviation entry := indirectObjectEntry.t.
Abbreviation Start := indirectObjectEntry.Start.
Abbreviation Length := indirectObjectEntry.Length.
Abbreviation Object := indirectObjectEntry.Object.

(** ** The chunk-stitching reader: state *)

Record objectReader : Type := mkObjectReader {
  seekTable : list entry;
  currentPosition : Z;                     (* int64 *)
  totalLength : Z;                         (* int64 *)
  currentChunkIndex : Z;                   (* int *)
  currentChunkData : option (list byte);   (* nil or the current chunk *)
  currentChunkPosition : Z                 (* int *)
}.

Definition set_currentPosition (v : Z) (r : objectReader) : objectReader :=
  mkObjectReader (seekTable r) v (totalLength r) (currentChunkIndex r)
                 (currentChunkData r) (currentChunkPosition r).
Definition set_currentChunkIndex (v : Z) (r : objectReader) : objectReader :=
  mkObjectReader (seekTable r) (currentPosition r) (totalLength r) v
                 (currentChunkData r) (currentChunkPosition r).
Definition set_currentChunkData (v : option (list byte)) (r : objectReader) : objectReader :=
  mkObjectReader (seekTable r) (currentPosition r) (totalLength r)
                 (currentChunkIndex r) v (currentChunkPosition r).
Definition set_currentChunkPosition (v : Z) (r : objectReader) : objectReader :=
  mkObjectReader (seekTable r) (currentPosition r) (totalLength r)
                 (currentChunkIndex r) (currentChunkData r) v.

Definition closeCurrentChunk (r : objectReader) : objectReader :=
  set_currentChunkData None r.

(** ** Binary search over the seek table

    [left] and [right] stay between [-1] and [len(seekTable)], far from the
    limits of [int], so [left + right] is the exact sum.  Each turn of the
    loop that does not return shrinks [right - left]; the loop is unrolled
    at most [fuel] times and [None] means the fuel ran out. *)

Fixpoint findChunkIndex_loop (fuel : nat) (tbl : list entry) (offset left right : Z)
  : option (outcome Z) :=
  if left <=? right then
    match fuel with
    | O => None
    | S fuel' =>
        let middle := (left + right) `quot` 2 in
        match at_index tbl middle with
        | None => Some (Panic index_out_of_range)
        | Some e =>
            if offset <? Start e then
              findChunkIndex_loop fuel' tbl offset left (middle - 1)
            else if offset >=? endOffset e then
              findChunkIndex_loop fuel' tbl offset (middle + 1) right
            else Some (Return middle)
        end
    end
  else Some (Panic "Unreachable code").

Definition findChunkIndexForOffset (r : objectReader) (offset : Z) : option (outcome Z) :=
  findChunkIndex_loop (length (seekTable r)) (seekTable r) offset 0 (len (seekTable r) - 1).

(** ** Strings *)

(** [strings.HasSuffix(s, suffix)] *)
Definition HasSuffix (s suffix : string) : bool :=
  (String.length suffix <=? String.length s)%nat
  && String.eqb (String.substring (String.length s - String.length suffix)
                                  (String.length suffix) s) suffix.

(** [err.Error()] *)
Definition Error (e : error) : string :=
  match e with
  | io_EOF => "EOF"
  | io_ErrUnexpectedEOF => "unexpected EOF"
  | blob_ErrBlockNotFound => "block not found"
  | Errorf msg => msg
  | ForeignError msg => msg
  end.

(** ** Statistics, format and collaborators of the object manager *)

(** The counters the object manager updates: block counts are [int32],
    byte counts are [int64]. *)
Record Stats : Type := mkStats {
  HashedBlocks : Z; HashedBytes : Z;
  CheckedBlocks : Z; PresentBlocks : Z;
  EncryptedBytes : Z;
  WrittenBlocks : Z; WrittenBytes : Z;
  ReadBlocks : Z; ReadBytes : Z;
  DecryptedBytes : Z;
  ValidBlocks : Z; InvalidBlocks : Z
}.

(** [config.RepositoryObjectFormat], as filled in by
    [repositoryObjectFormatFromOptions]. *)
Record RepositoryObjectFormat : Type := mkRepositoryObjectFormat {
  Version : Z;
  Splitter : string;
  ObjectFormat : string;
  HMACSecret : option (list byte);
  MasterKey : option (list byte);
  MaxBlockSize : Z;
  MinBlockSize : Z;
  AvgBlockSize : Z;
  MaxPackedContentLength : Z;
  MaxPackFileLength : Z
}.

(** The [objectFormatter] interface. *)
Record objectFormatter : Type := mkObjectFormatter {
  ComputeObjectID : list byte -> ObjectID;
  Encrypt : list byte -> ObjectID -> Z -> list byte * option error;
  Decrypt : list byte -> ObjectID -> Z -> list byte * option error
}.

(** The collaborators whose code lies outside the object manager: the blob
    storage, the block-size cache and the pack manager.  They share one
    state [E] (the cache and the pack manager sit on top of the storage);
    each operation takes that state and hands it back. *)
Record Collaborators (E : Type) : Type := mkCollaborators {
  storage_PutBlock : string -> list byte -> E -> option error * E;
  storage_GetBlock : string -> Z -> Z -> E -> (list byte * option error) * E;
  blockSizeCache_getSize : string -> E -> (Z * option error) * E;
  packMgr_enabled : E -> bool;
  packMgr_AddToPack : string -> string -> list byte -> E -> (ObjectID * option error) * E;
  packMgr_blockIDToPackSection : string -> E -> (ObjectIDSection * bool * option error) * E
}.
Arguments storage_PutBlock {E} _ _ _ _.
Arguments storage_GetBlock {E} _ _ _ _ _.
Arguments blockSizeCache_getSize {E} _ _ _.
Arguments packMgr_enabled {E} _ _.
Arguments packMgr_AddToPack {E} _ _ _ _ _.
Arguments packMgr_blockIDToPackSection {E} _ _ _.

(** The calls made to the collaborators and to the formatter's cipher, in
    the order they are made: a ghost log kept next to the manager's state. *)
Inductive call : Type :=
| Call_getSize (blockID : string)
| Call_AddToPack (packGroup blockID : string) (data : list byte)
| Call_blockIDToPackSection (blockID : string)
| Call_Encrypt (data : list byte) (oid : ObjectID) (skip : Z)
| Call_Decrypt (data : list byte) (oid : ObjectID) (skip : Z)
| Call_PutBlock (id : string) (data : list byte)
| Call_GetBlock (id : string) (offset length : Z).

Record ObjectManager (E : Type) : Type := mkObjectManager {
  stats : Stats;
  format : RepositoryObjectFormat;
  formatter : objectFormatter;
  world : E;
  calls : list call
}.
Arguments mkObjectManager {E} _ _ _ _ _.
Arguments stats {E} _.
Arguments format {E} _.
Arguments formatter {E} _.
Arguments world {E} _.
Arguments calls {E} _.

(** ** Readers handed out by [Open] *)

Inductive ObjectReader : Type :=
| readerWithData (data : list byte) (length : Z)
    (* bytes.NewReader(data) with its length *)
| indirectReader (r : objectReader)
| sectionReader (start length : Z) (base : ObjectReader).

Definition newObjectReaderWithData (data : list byte) : ObjectReader :=
  readerWithData data (len data).

(** Modelled from the spec: [jsonstream.Reader], whose code is not among
    the sources.  An indirect list blob is a finite sequence of records
    behind a stream type tag (section 6); a reader over it is given by the
    records its successive [Read] calls deliver and the error that ends
    them ([io.EOF] at a well-formed end of stream). *)
Record jsonstreamReader : Type := mkJsonstreamReader {
  records : list entry;
  ending : error
}.

Module OIDSection.
Definition Start (s : ObjectIDSection) : Z :=
  match s with mkObjectIDSection a _ _ => a end.
Definition Length (s : ObjectIDSection) : Z :=
  match s with mkObjectIDSection _ l _ => l end.
Definition Base (s : ObjectIDSection) : ObjectID :=
  match s with mkObjectIDSection _ _ b => b end.
End OIDSection.

(** ** Counter updates ([atomic.AddInt32], [atomic.AddInt64]) *)

Definition add_HashedBlocks (d : Z) (s : Stats) : Stats :=
  mkStats (int32 (HashedBlocks s + d)) (HashedBytes s) (CheckedBlocks s) (PresentBlocks s)
          (EncryptedBytes s) (WrittenBlocks s) (WrittenBytes s) (ReadBlocks s) (ReadBytes s)
          (DecryptedBytes s) (ValidBlocks s) (InvalidBlocks s).
Definition add_HashedBytes (d : Z) (s : Stats) : Stats :=
  mkStats (HashedBlocks s) (int64 (HashedBytes s + d)) (CheckedBlocks s) (PresentBlocks s)
          (EncryptedBytes s) (WrittenBlocks s) (WrittenBytes s) (ReadBlocks s) (ReadBytes s)
          (DecryptedBytes s) (ValidBlocks s) (InvalidBlocks s).
Definition add_CheckedBlocks (d : Z) (s : Stats) : Stats :=
  mkStats (HashedBlocks s) (HashedBytes s) (int32 (CheckedBlocks s + d)) (PresentBlocks s)
          (EncryptedBytes s) (WrittenBlocks s) (WrittenBytes s) (ReadBlocks s) (ReadBytes s)
          (DecryptedBytes s) (ValidBlocks s) (InvalidBlocks s).
Definition add_PresentBlocks (d : Z) (s : Stats) : Stats :=
  mkStats (HashedBlocks s) (HashedBytes s) (CheckedBlocks s) (int32 (PresentBlocks s + d))
          (EncryptedBytes s) (WrittenBlocks s) (WrittenBytes s) (ReadBlocks s) (ReadBytes s)
          (DecryptedBytes s) (ValidBlocks s) (InvalidBlocks s).
Definition add_EncryptedBytes (d : Z) (s : Stats) : Stats :=
  mkStats (HashedBlocks s) (HashedBytes s) (CheckedBlocks s) (PresentBlocks s)
          (int64 (EncryptedBytes s + d)) (WrittenBlocks s) (WrittenBytes s) (ReadBlocks s)
          (ReadBytes s) (DecryptedBytes s) (ValidBlocks s) (InvalidBlocks s).
Definition add_WrittenBlocks (d : Z) (s : Stats) : Stats :=
  mkStats (HashedBlocks s) (HashedBytes s) (CheckedBlocks s) (PresentBlocks s)
          (EncryptedBytes s) (int32 (WrittenBlocks s + d)) (WrittenBytes s) (ReadBlocks s)
          (ReadBytes s) (DecryptedBytes s) (ValidBlocks s) (InvalidBlocks s).
Definition add_WrittenBytes (d : Z) (s : Stats) : Stats :=
  mkStats (HashedBlocks s) (HashedBytes s) (CheckedBlocks s) (PresentBlocks s)
          (EncryptedBytes s) (WrittenBlocks s) (int64 (WrittenBytes s + d)) (ReadBlocks s)
          (ReadBytes s) (DecryptedBytes s) (ValidBlocks s) (InvalidBlocks s).
Definition add_ReadBlocks (d : Z) (s : Stats) : Stats :=
  mkStats (HashedBlocks s) (HashedBytes s) (CheckedBlocks s) (PresentBlocks s)
          (EncryptedBytes s) (WrittenBlocks s) (WrittenBytes s) (int32 (ReadBlocks s + d))
          (ReadBytes s) (DecryptedBytes s) (ValidBlocks s) (InvalidBlocks s).
Definition add_ReadBytes (d : Z) (s : Stats) : Stats :=
  mkStats (HashedBlocks s) (HashedBytes s) (CheckedBlocks s) (PresentBlocks s)
          (EncryptedBytes s) (WrittenBlocks s) (WrittenBytes s) (ReadBlocks s)
          (int64 (ReadBytes s + d)) (DecryptedBytes s) (ValidBlocks s) (InvalidBlocks s).
Definition add_DecryptedBytes (d : Z) (s : Stats) : Stats :=
  mkStats (HashedBlocks s) (HashedBytes s) (CheckedBlocks s) (PresentBlocks s)
          (EncryptedBytes s) (WrittenBlocks s) (WrittenBytes s) (ReadBlocks s)
          (ReadBytes s) (int64 (DecryptedBytes s + d)) (ValidBlocks s) (InvalidBlocks s).
Definition add_ValidBlocks (d : Z) (s : Stats) : Stats :=
  mkStats (HashedBlocks s) (HashedBytes s) (CheckedBlocks s) (PresentBlocks s)
          (EncryptedBytes s) (WrittenBlocks s) (WrittenBytes s) (ReadBlocks s)
          (ReadBytes s) (DecryptedBytes s) (int32 (ValidBlocks s + d)) (InvalidBlocks s).
Definition add_InvalidBlocks (d : Z) (s : Stats) : Stats :=
  mkStats (HashedBlocks s) (HashedBytes s) (CheckedBlocks s) (PresentBlocks s)
          (EncryptedBytes s) (WrittenBlocks s) (WrittenBytes s) (ReadBlocks s)
          (ReadBytes s) (DecryptedBytes s) (ValidBlocks s) (int32 (InvalidBlocks s + d)).

(** ** The monad of object-manager methods

    A method runs on the manager it is called on and either panics or
    returns a value together with the manager it leaves behind. *)

Definition M (E A : Type) : Type := ObjectManager E -> outcome (A * ObjectManager E).

#[global] Instance M_ret {E} : MRet (M E) := fun A a r => Return (a, r).
#[global] Instance M_bind {E} : MBind (M E) := fun A B f m r =>
  match m r with
  | Return (a, r') => f a r'
  | Panic msg => Panic msg
  end.

Definition panic {E A} (msg : string) : M E A := fun _ => Panic msg.
Definition asks {E A} (f : ObjectManager E -> A) : M E A := fun r => Return (f r, r).
Definition modify_stats {E} (f : Stats -> Stats) : M E unit := fun r =>
  Return (tt, mkObjectManager (f (stats r)) (format r) (formatter r) (world r) (calls r)).

(** Runs a collaborator on the shared outside state and logs the call. *)
Definition outside {E A} (c : call) (op : E -> A * E) : M E A := fun r =>
  let '(a, e') := op (world r) in
  Return (a, mkObjectManager (stats r) (format r) (formatter r) e' (calls r ++ [c])).

(** Runs the formatter's cipher and logs the call. *)
Definition cipher {E A} (c : call) (op : objectFormatter -> A) : M E A := fun r =>
  Return (op (formatter r),
          mkObjectManager (stats r) (format r) (formatter r) (world r) (calls r ++ [c])).

(** [buffer.Bytes()] of a [*bytes.Buffer] that may be [nil]. *)
Definition bufferBytes (buffer : option (list byte)) : list byte :=
  match buffer with
  | Some b => b
  | None => []
  end.

(** ** The object manager and its reader *)

Section Manager.
Context {E : Type}.
Variable X : Collaborators E.

(** Pieces of the repository package that the methods below use. *)
Variable NullObjectID : ObjectID.
Variable indirectStreamType : string.
Variable sprint_ObjectID : ObjectID -> string.          (* fmt's %+v *)
Variable jsonstream_NewReader : ObjectReader -> string -> M E (error + jsonstreamReader).
Variable newObjectSectionReader : Z -> Z -> ObjectReader -> error + ObjectReader.
(** [io.ReadFull(rd, b)]: the buffer after the call, and the error. *)
Variable io_ReadFull : ObjectReader -> list byte -> M E (list byte * option error).

Definition verifyChecksum (data : list byte) (blockID : string) : M E (option error) :=
  f ← asks formatter;
  let expected := ComputeObjectID f data in
  if negb (HasSuffix blockID (StorageBlock expected)) then
    _ ← modify_stats (add_InvalidBlocks 1);
    mret (Some (Errorf ("invalid checksum for blob: '" +:+ blockID +:+ "', expected "
                        +:+ StorageBlock expected)))
  else
    _ ← modify_stats (add_ValidBlocks 1);
    mret None.

Definition newRawReader (objectID : ObjectID) : M E (error + ObjectReader) :=
  '(p, ok, err) ← outside (Call_blockIDToPackSection (StorageBlock objectID))
                          (packMgr_blockIDToPackSection X (StorageBlock objectID));
  match err with
  | Some e => mret (inl e)
  | None =>
      '(payload, err, underlyingObjectID, decryptSkip) ←
        (if ok : bool then
           '(payload, err) ←
             outside (Call_GetBlock (StorageBlock (OIDSection.Base p))
                                    (OIDSection.Start p) (OIDSection.Length p))
                     (storage_GetBlock X (StorageBlock (OIDSection.Base p))
                                       (OIDSection.Start p) (OIDSection.Length p));
           mret (payload, err, OIDSection.Base p, OIDSection.Start p)
         else
           '(payload, err) ←
             outside (Call_GetBlock (StorageBlock objectID) 0 (-1))
                     (storage_GetBlock X (StorageBlock objectID) 0 (-1));
           mret (payload, err, objectID, 0));
      match err with
      | Some e => mret (inl e)
      | None =>
          _ ← modify_stats (add_ReadBlocks 1);
          _ ← modify_stats (add_ReadBytes (len payload));
          '(payload, err) ←
            cipher (Call_Decrypt payload underlyingObjectID decryptSkip)
                   (fun f => Decrypt f payload underlyingObjectID decryptSkip);
          _ ← modify_stats (add_DecryptedBytes (len payload));
          match err with
          | Some e => mret (inl e)
          | None =>
              err ← verifyChecksum payload (StorageBlock objectID);
              match err with
              | Some e => mret (inl e)
              | None => mret (inr (newObjectReaderWithData payload))
              end
          end
      end
  end.

(** The reading loop of [flattenListChunk]: every record is appended to
    the seek table until [pr.Read] returns an error; [io.EOF] ends the
    loop normally. *)
Definition flattenListChunk (rawReader : ObjectReader) : M E (error + list entry) :=
  pr ← jsonstream_NewReader rawReader indirectStreamType;
  match pr with
  | inl err => mret (inl err)
  | inr pr =>
      let seekTable := foldl (fun tbl oe => tbl ++ [oe]) [] (records pr) in
      if decide (ending pr = io_EOF) then mret (inr seekTable)
      else mret (inl (ending pr))
  end.

Fixpoint Open (objectID : ObjectID) : M E (error + ObjectReader) :=
  match objectID with
  | mkObjectID _ indirect textContent binaryContent section =>
      match section with
      | Some (mkObjectIDSection start length base) =>
          baseReader ← Open base;
          match baseReader with
          | inl err =>
              mret (inl (Errorf ("cannot create base reader: " +:+ sprint_ObjectID base
                                 +:+ " " +:+ Error err)))
          | inr baseReader => mret (newObjectSectionReader start length baseReader)
          end
      | None =>
          match indirect with
          | Some target =>
              rd ← Open target;
              match rd with
              | inl err => mret (inl err)
              | inr rd =>
                  seekTable ← flattenListChunk rd;
                  match seekTable with
                  | inl err => mret (inl err)
                  | inr seekTable =>
                      match at_index seekTable (len seekTable - 1) with
                      | None => panic index_out_of_range
                      | Some last =>
                          mret (inr (indirectReader
                                       (mkObjectReader seekTable 0 (endOffset last) 0 None 0)))
                      end
                  end
              end
          | None =>
              match binaryContent with
              | Some data => mret (inr (newObjectReaderWithData data))
              | None =>
                  if (0 <? Z.of_nat (String.length textContent)) then
                    mret (inr (newObjectReaderWithData (String.list_byte_of_string textContent)))
                  else newRawReader objectID
              end
          end
      end
  end.

Definition hashEncryptAndWrite (packGroup : string) (buffer : option (list byte))
           (prefix : string) (disablePacking : bool) : M E (ObjectID * option error) :=
  let data := bufferBytes buffer in
  f ← asks formatter;
  let objectID := ComputeObjectID f data in
  let objectID := set_StorageBlock (prefix +:+ StorageBlock objectID) objectID in
  _ ← modify_stats (add_HashedBlocks 1);
  _ ← modify_stats (add_HashedBytes (len data));
  enabled ← asks (fun r => packMgr_enabled X (world r));
  maxPacked ← asks (fun r => MaxPackedContentLength (format r));
  if negb disablePacking && enabled && (0 <? maxPacked) && (len data <=? maxPacked) then
    outside (Call_AddToPack packGroup (prefix +:+ StorageBlock objectID) data)
            (packMgr_AddToPack X packGroup (prefix +:+ StorageBlock objectID) data)
  else
    '(blockSize, err) ← outside (Call_getSize (StorageBlock objectID))
                                (blockSizeCache_getSize X (StorageBlock objectID));
    _ ← modify_stats (add_CheckedBlocks 1);
    if bool_decide (err = None) && (blockSize =? len data) then
      _ ← modify_stats (add_PresentBlocks 1);
      mret (objectID, None)
    else
      if bool_decide (err ≠ None) && bool_decide (err ≠ Some blob_ErrBlockNotFound) then
        mret (NullObjectID, err)
      else
        _ ← modify_stats (add_EncryptedBytes (len data));
        '(data, err) ← cipher (Call_Encrypt data objectID 0)
                              (fun f => Encrypt f data objectID 0);
        match err with
        | Some e => mret (NullObjectID, Some e)
        | None =>
            _ ← modify_stats (add_WrittenBlocks 1);
            _ ← modify_stats (add_WrittenBytes (len data));
            err ← outside (Call_PutBlock (StorageBlock objectID) data)
                          (storage_PutBlock X (StorageBlock objectID) data);
            match err with
            | Some e => mret (NullObjectID, Some e)
            | None => mret (objectID, None)
            end
        end.

(** *** Methods of [objectReader] *)

Definition openCurrentChunk (r : objectReader) : M E (option error * objectReader) :=
  match at_index (seekTable r) (currentChunkIndex r) with
  | None => panic index_out_of_range
  | Some st =>
      blockData ← Open (Object st);
      match blockData with
      | inl err => mret (Some err, r)
      | inr blockData =>
          if Length st <? 0 then panic makeslice_len_out_of_range
          else
            '(b, err) ← io_ReadFull blockData (replicate (Z.to_nat (Length st)) x00);
            match err with
            | Some e => mret (Some e, r)
            | None =>
                mret (None, set_currentChunkPosition 0 (set_currentChunkData (Some b) r))
            end
      end
  end.

(** What a [Read] hands back: the buffer as the call leaves it, the
    count, the error, and the reader after the call. *)
Definition ReadResult : Type := (list byte * Z * option error * objectReader)%type.

(** The two [return] statements after the loop. *)
Definition Read_return (buffer : list byte) (readBytes : Z) (r : objectReader)
           (m : ObjectManager E) : option (outcome (ReadResult * ObjectManager E)) :=
  if readBytes =? 0 then Some (Return ((buffer, readBytes, Some io_EOF, r), m))
  else Some (Return ((buffer, readBytes, None, r), m)).

(** The [for remaining > 0] loop, unrolled at most [fuel] times. *)
Fixpoint Read_loop (fuel : nat) (buffer : list byte) (readBytes remaining : Z)
         (r : objectReader) (m : ObjectManager E)
  : option (outcome (ReadResult * ObjectManager E)) :=
  if remaining >? 0 then
    match fuel with
    | O => None
    | S fuel' =>
        match currentChunkData r with
        | Some data =>
            let toCopy := int64 (len data - currentChunkPosition r) in
            if toCopy =? 0 then
              Read_loop fuel' buffer readBytes remaining
                        (set_currentChunkIndex (int64 (currentChunkIndex r + 1))
                                               (closeCurrentChunk r)) m
            else
              let toCopy := if toCopy >? remaining then remaining else toCopy in
              match slice data (currentChunkPosition r)
                          (int64 (currentChunkPosition r + toCopy)) with
              | None => Some (Panic slice_bounds_out_of_range)
              | Some src =>
                  let buffer := copy_at buffer readBytes src in
                  let r := set_currentChunkPosition
                             (int64 (currentChunkPosition r + toCopy)) r in
                  let r := set_currentPosition (int64 (currentPosition r + toCopy)) r in
                  Read_loop fuel' buffer (readBytes + toCopy) (remaining - toCopy) r m
              end
        | None =>
            if currentChunkIndex r <? len (seekTable r) then
              match openCurrentChunk r m with
              | Panic msg => Some (Panic msg)
              | Return ((Some err, r), m) => Some (Return ((buffer, 0, Some err, r), m))
              | Return ((None, r), m) => Read_loop fuel' buffer readBytes remaining r m
              end
            else Read_return buffer readBytes r m
        end
    end
  else Read_return buffer readBytes r m.

Definition Read (r : objectReader) (buffer : list byte) (m : ObjectManager E)
  : option (outcome (ReadResult * ObjectManager E)) :=
  Read_loop (S (length buffer + 2 * length (seekTable r) + 1)) buffer 0 (len buffer) r m.

(** What a [Seek] hands back: the position, the error, and the reader
    after the call. *)
Definition SeekResult : Type := (Z * option error * objectReader)%type.

(** [Seek] from the test [offset < 0] on, where [whence] no longer
    matters. *)
Definition Seek_absolute (r : objectReader) (offset : Z) (m : ObjectManager E)
  : option (outcome (SeekResult * ObjectManager E)) :=
  if offset <? 0 then Some (Return ((-1, Some (Errorf "Invalid seek."), r), m))
  else
    let offset := if offset >? totalLength r then totalLength r else offset in
    match findChunkIndexForOffset r offset with
    | None => None
    | Some (Panic msg) => Some (Panic msg)
    | Some (Return index) =>
        match at_index (seekTable r) index with
        | None => Some (Panic index_out_of_range)
        | Some e =>
            let chunkStartOffset := Start e in
            let r := if bool_decide (index ≠ currentChunkIndex r)
                     then set_currentChunkIndex index (closeCurrentChunk r)
                     else r in
            let opened :=
              match currentChunkData r with
              | None =>
                  (* r.openCurrentChunk(): the returned error is dropped *)
                  match openCurrentChunk r m with
                  | Return ((_, r), m) => Return (r, m)
                  | Panic msg => Panic msg
                  end
              | Some _ => Return (r, m)
              end in
            match opened with
            | Panic msg => Some (Panic msg)
            | Return (r, m) =>
                let r := set_currentChunkPosition (int64 (offset - chunkStartOffset)) r in
                let r := set_currentPosition offset r in
                Some (Return ((currentPosition r, None, r), m))
            end
        end
    end.

Definition Seek (r : objectReader) (offset whence : Z) (m : ObjectManager E)
  : option (outcome (SeekResult * ObjectManager E)) :=
  if whence =? 1 then Seek_absolute r (int64 (currentPosition r + offset)) m
  else if whence =? 2 then Seek_absolute r (int64 (totalLength r + offset)) m
  else Seek_absolute r offset m.
End Manager.

(** ** Repository initialization ([initialize.go]) *)

Record NewRepositoryOptions : Type := mkNewRepositoryOptions {
  opt_UniqueID : option (list byte);
  opt_MetadataEncryptionAlgorithm : string;
  opt_KeyDerivationAlgorithm : string;
  opt_ObjectFormat : string;
  opt_ObjectHMACSecret : option (list byte);
  opt_ObjectEncryptionKey : option (list byte);
  opt_Splitter : string;
  opt_MinBlockSize : Z;
  opt_AvgBlockSize : Z;
  opt_MaxBlockSize : Z;
  opt_MaxPackedContentLength : Z;
  opt_MaxPackFileLength : Z;
  opt_noHMAC : bool
}.

(** [&NewRepositoryOptions{}] *)
Definition zeroNewRepositoryOptions : NewRepositoryOptions :=
  mkNewRepositoryOptions None "" "" "" None None "" 0 0 0 0 0 false.

Record SecurityOptions : Type := mkSecurityOptions {
  KeyDerivationAlgorithm : string;
  UniqueID : list byte
}.

Record MetadataFormat : Type := mkMetadataFormat {
  mf_SecurityOptions : SecurityOptions;
  mf_Version : string;
  mf_EncryptionAlgorithm : string
}.

Record EncryptedRepositoryConfig : Type := mkEncryptedRepositoryConfig {
  Format : RepositoryObjectFormat
}.

(** The [auth.Credentials] interface. *)
Record Credentials : Type := mkCredentials {
  GetMasterKey : SecurityOptions -> list byte * option error
}.

(** The fields of [MetadataManager] other than [storage], which is passed
    along; [mm_crypto] is whatever [initCrypto] sets up. *)
Record MetadataManager (K : Type) : Type := mkMetadataManager {
  mm_format : MetadataFormat;
  mm_masterKey : list byte;
  mm_crypto : option K
}.
Arguments mkMetadataManager {K} _ _ _.
Arguments mm_format {K} _.
Arguments mm_masterKey {K} _.
Arguments mm_crypto {K} _.

Definition applyDefaultInt (v def : Z) : Z :=
  if v =? 0 then def else v.

Definition applyDefaultString (v def : string) : string :=
  if String.eqb v "" then def else v.

Section Initialize.
Context {S R K : Type}.
(** [st.PutBlock] of the [blob.Storage] handed to [Initialize]. *)
Variable PutBlock : string -> list byte -> S -> option error * S.
(** [io.ReadFull(rand.Reader, b)] for a fresh [b] of [n] bytes. *)
Variable rand_Read : Z -> R -> list byte * R.
Variables MetadataBlockPrefix formatBlockID repositoryConfigBlockID : string.
Variables DefaultKeyDerivationAlgorithm DefaultMetadataEncryptionAlgorithm : string.
Variables DefaultObjectSplitter DefaultObjectFormat : string.
Variable json_Marshal : MetadataFormat -> list byte * option error.
Variable initCrypto : MetadataManager K -> option error * MetadataManager K.
Variable putJSON :
  MetadataManager K -> string -> EncryptedRepositoryConfig -> S -> option error * S.

Definition randomBytes (n : Z) (rng : R) : list byte * R := rand_Read n rng.

Definition applyDefaultRandomBytes (b : option (list byte)) (n : Z) (rng : R)
  : list byte * R :=
  match b with
  | None => randomBytes n rng
  | Some b => (b, rng)
  end.

Definition metadataFormatFromOptions (opt : NewRepositoryOptions) (rng : R)
  : MetadataFormat * R :=
  let kda := applyDefaultString (opt_KeyDerivationAlgorithm opt)
                                DefaultKeyDerivationAlgorithm in
  let '(uid, rng) := applyDefaultRandomBytes (opt_UniqueID opt) 32 rng in
  (mkMetadataFormat (mkSecurityOptions kda uid) "1"
     (applyDefaultString (opt_MetadataEncryptionAlgorithm opt)
                         DefaultMetadataEncryptionAlgorithm),
   rng).

Definition repositoryObjectFormatFromOptions (opt : NewRepositoryOptions) (rng : R)
  : RepositoryObjectFormat * R :=
  let '(hmac, rng) := applyDefaultRandomBytes (opt_ObjectHMACSecret opt) 32 rng in
  let '(key, rng) := applyDefaultRandomBytes (opt_ObjectEncryptionKey opt) 32 rng in
  let f :=
    mkRepositoryObjectFormat
      1
      (applyDefaultString (opt_Splitter opt) DefaultObjectSplitter)
      (applyDefaultString (opt_ObjectFormat opt) DefaultObjectFormat)
      (Some hmac)
      (Some key)
      (applyDefaultInt (opt_MaxBlockSize opt) (Z.shiftl 20 20))
      (applyDefaultInt (opt_MinBlockSize opt) (Z.shiftl 10 20))
      (applyDefaultInt (opt_AvgBlockSize opt) (Z.shiftl 16 20))
      (applyDefaultInt (opt_MaxPackedContentLength opt) (Z.shiftl 4 20))
      (applyDefaultInt (opt_MaxPackFileLength opt) (Z.shiftl 20 20)) in
  let f :=
    if opt_noHMAC opt then
      mkRepositoryObjectFormat (Version f) (Splitter f) (ObjectFormat f) None (MasterKey f)
        (MaxBlockSize f) (MinBlockSize f) (AvgBlockSize f) (MaxPackedContentLength f)
        (MaxPackFileLength f)
    else f in
  (f, rng).

(** [Initialize]: the returned error, the storage and the random source
    as the call leaves them. *)
Definition Initialize (st : S) (opt : option NewRepositoryOptions) (creds : Credentials)
           (rng : R) : option error * S * R :=
  let opt := match opt with None => zeroNewRepositoryOptions | Some o => o end in
  let '(mformat, rng) := metadataFormatFromOptions opt rng in
  let '(masterKey, err) := GetMasterKey creds (mf_SecurityOptions mformat) in
  let mm := mkMetadataManager mformat masterKey None in
  match err with
  | Some e => (Some e, st, rng)
  | None =>
      let '(formatBytes, err) := json_Marshal (mm_format mm) in
      match err with
      | Some e => (Some e, st, rng)
      | None =>
          let '(err, st) := PutBlock (MetadataBlockPrefix +:+ formatBlockID) formatBytes st in
          match err with
          | Some e => (Some e, st, rng)
          | None =>
              let '(err, mm) := initCrypto mm in
              match err with
              | Some e =>
                  (Some (Errorf ("unable to initialize crypto: " +:+ Error e)), st, rng)
              | None =>
                  let '(rof, rng) := repositoryObjectFormatFromOptions opt rng in
                  let rc := mkEncryptedRepositoryConfig rof in
                  let '(err, st) := putJSON mm repositoryConfigBlockID rc st in
                  match err with
                  | Some e => (Some e, st, rng)
                  | None => (None, st, rng)
                  end
              end
          end
      end
  end.
End Initialize.

(** ** Well-formed seek tables

    The invariants of an indirect list: the first chunk starts at 0, every
    chunk starts where the previous one ends, starts are strictly
    ascending, and the fields are [int64] values. *)

Definition entry_in_range (e : entry) : Prop :=
  int64_range (Start e) /\ int64_range (Length e).

Record seekTable_ok (tbl : list entry) : Prop := mkSeekTableOk {
  st_in_range : Forall entry_in_range tbl;
  st_first : forall e, tbl !! 0%nat = Some e -> Start e = 0;
  st_contiguous : forall i e e',
      tbl !! i = Some e -> tbl !! S i = Some e' -> Start e' = Start e + Length e;
  st_ascending : forall i e e',
      tbl !! i = Some e -> tbl !! S i = Some e' -> Start e < Start e'
}.

(** [offset] falls into the chunk described by [e]. *)
Definition covers (e : entry) (offset : Z) : Prop :=
  Start e <= offset < Start e + Length e.

(** ** Termination measure of the reading loop

    Every turn of the loop of [Read] either copies at least one byte, or
    moves from an exhausted chunk to the next index, or opens the chunk at
    the current index; [remaining] plus this rank goes down each time. *)
Definition Read_rank (r : objectReader) : Z :=
  let n := len (seekTable r) in
  let i := currentChunkIndex r in
  match currentChunkData r with
  | None => if i <? 0 then 0 else 2 * Z.max 0 (n - i)
  | Some _ => if i <? 0 then 2 * n + 1 else Z.max 1 (2 * (n - i) - 1)
  end.

(** ** Vocabulary of the properties *)

(** The checksum test of [verifyChecksum]: the requested block name ends
    with the block name computed from the plaintext (the requested name may
    carry a prefix in front of the hash). *)
Definition checksum_matches (f : objectFormatter) (plaintext : list byte)
           (blockID : string) : Prop :=
  HasSuffix blockID (StorageBlock (ComputeObjectID f plaintext)) = true.

(** The error [verifyChecksum] makes on a mismatch. *)
Definition invalidChecksum (f : objectFormatter) (plaintext : list byte)
           (blockID : string) : error :=
  Errorf ("invalid checksum for blob: '" +:+ blockID +:+ "', expected "
          +:+ StorageBlock (ComputeObjectID f plaintext)).

(** Modelled from the spec: the formatter's cipher, whose code is not among
    the sources.  Section 4.1 allows the identity and stream or counter-mode
    ciphers; both hand back as many bytes as they are given. *)
Definition length_preserving (f : objectFormatter) : Prop :=
  forall data oid skip c, Encrypt f data oid skip = (c, None) -> length c = length data.

(** The name and the ObjectID [hashEncryptAndWrite] computes for a chunk:
    the formatter's ObjectID with [prefix] put in front of its block name. *)
Definition prefixedObjectID (f : objectFormatter) (prefix : string) (data : list byte)
  : ObjectID :=
  set_StorageBlock (prefix +:+ StorageBlock (ComputeObjectID f data)) (ComputeObjectID f data).

(** The pack decision of [hashEncryptAndWrite]. *)
Definition packs {E} (X : Collaborators E) (r : ObjectManager E) (data : list byte)
           (disablePacking : bool) : bool :=
  negb disablePacking && packMgr_enabled X (world r)
  && (0 <? MaxPackedContentLength (format r))
  && (len data <=? MaxPackedContentLength (format r)).

(** The manager once the chunk is hashed and counted. *)
Definition hashed {E} (r : ObjectManager E) (data : list byte) : ObjectManager E :=
  mkObjectManager (add_HashedBytes (len data) (add_HashedBlocks 1 (stats r)))
                  (format r) (formatter r) (world r) (calls r).

(** The manager a call leaves when it stops right after the existence
    check on [blockID]: the chunk counted as hashed and checked, the outside
    state as the size lookup left it, and that lookup as the only call
    made. *)
Definition checked {E} (r : ObjectManager E) (data : list byte) (blockID : string) (e' : E)
  : ObjectManager E :=
  mkObjectManager (add_CheckedBlocks 1 (stats (hashed r data)))
                  (format r) (formatter r) e' (calls r ++ [Call_getSize blockID]).

(** ** A small repository for the examples *)

Module Sample.
(** Modelled from the spec: the blob storage of section 6 (put, get with
    length -1 meaning to the end, size, the distinguished not-found
    error) as a map from names to bytes, next to a pack manager that
    only collects what it is given and a block-size cache that looks the
    size up in the map unless a fault is injected. *)
Record state : Type := mkState {
  blobs : gmap string (list byte);
  packing : bool;
  packed : list (string * string * list byte);
  sizeFault : option error
}.

Definition raw (name : string) : ObjectID := mkObjectID name None "" None None.
Definition NullObjectID : ObjectID := raw "".

Definition PutBlock (id : string) (data : list byte) (e : state) : option error * state :=
  (None, mkState (<[id := data]> (blobs e)) (packing e) (packed e) (sizeFault e)).

Definition GetBlock (id : string) (offset length : Z) (e : state)
  : (list byte * option error) * state :=
  match blobs e !! id with
  | None => (([], Some blob_ErrBlockNotFound), e)
  | Some d =>
      let tail := drop (Z.to_nat offset) d in
      ((if length <? 0 then tail else take (Z.to_nat length) tail, None), e)
  end.

Definition getSize (id : string) (e : state) : (Z * option error) * state :=
  match sizeFault e with
  | Some err => ((0, Some err), e)
  | None =>
      match blobs e !! id with
      | Some d => ((len d, None), e)
      | None => ((0, Some blob_ErrBlockNotFound), e)
      end
  end.

Definition AddToPack (group id : string) (data : list byte) (e : state)
  : (ObjectID * option error) * state :=
  ((raw id, None),
   mkState (blobs e) (packing e) (packed e ++ [(group, id, data)]) (sizeFault e)).

Definition blockIDToPackSection (id : string) (e : state)
  : (ObjectIDSection * bool * option error) * state :=
  ((mkObjectIDSection 0 0 NullObjectID, false, None), e).

Definition X : Collaborators state :=
  mkCollaborators state PutBlock GetBlock getSize packing AddToPack blockIDToPackSection.

(** A formatter of the non-encrypted family: the block name is the
    content itself, the cipher is the identity. *)
Definition plain : objectFormatter :=
  mkObjectFormatter (fun data => raw (String.string_of_list_byte data))
                    (fun data _ _ => (data, None))
                    (fun data _ _ => (data, None)).

Definition format : RepositoryObjectFormat :=
  mkRepositoryObjectFormat 1 "FIXED" "TESTONLY" None None 100 10 50 4 100.

Definition noStats : Stats := mkStats 0 0 0 0 0 0 0 0 0 0 0 0.

Definition manager (e : state) : ObjectManager state :=
  mkObjectManager noStats format plain e [].

Definition empty : state := mkState ∅ false [] None.

Definition indirectStreamType : string := "kopia:indirect".

Definition quote : string := String (Ascii.ascii_of_nat 34) EmptyString.

(** An indirect list with the right stream tag and no entry. *)
Definition emptyIndirectList : string :=
  "{" +:+ quote +:+ "stream" +:+ quote +:+ ":" +:+ quote +:+ indirectStreamType +:+ quote
  +:+ "," +:+ quote +:+ "entries" +:+ quote +:+ ":[]}".

(** Modelled from the spec: the framed record stream of section 6, cut
    down to the one document these examples read, the list without
    entries; anything else is rejected. *)
Definition jsonstream_NewReader (rd : ObjectReader) (tag : string)
  : M state (error + jsonstreamReader) :=
  match rd with
  | readerWithData data _ =>
      if String.eqb (String.string_of_list_byte data) emptyIndirectList
       && String.eqb tag indirectStreamType
      then mret (inr (mkJsonstreamReader [] io_EOF))
      else mret (inl (ForeignError "invalid stream"))
  | _ => mret (inl (ForeignError "invalid stream"))
  end.

Definition newObjectSectionReader (start length : Z) (base : ObjectReader)
  : error + ObjectReader :=
  inr (sectionReader start length base).

(** [io.ReadFull] over an in-memory reader. *)
Definition io_ReadFull (rd : ObjectReader) (b : list byte)
  : M state (list byte * option error) :=
  match rd with
  | readerWithData data _ =>
      if (length b <=? length data)%nat then mret (take (length b) data, None)
      else if (length data =? 0)%nat then mret (b, Some io_EOF)
      else mret (copy_at b 0 data, Some io_ErrUnexpectedEOF)
  | _ => mret (b, Some (ForeignError "unsupported reader"))
  end.

Definition Open := Open X indirectStreamType StorageBlock jsonstream_NewReader
                        newObjectSectionReader.
Definition Seek := Seek X indirectStreamType StorageBlock jsonstream_NewReader
                        newObjectSectionReader io_ReadFull.
Definition Read := Read X indirectStreamType StorageBlock jsonstream_NewReader
                        newObjectSectionReader io_ReadFull.
Definition hashEncryptAndWrite := hashEncryptAndWrite X NullObjectID.
Definition newRawReader := newRawReader X.

(** A reader over one chunk of ten bytes stored under the name [c0]. *)
Definition oneChunk : objectReader :=
  mkObjectReader [indirectObjectEntry.mk 0 10 (raw "c0")] 0 10 0 None 0.

(** A reader over two chunks of four and six bytes. *)
Definition twoChunks : objectReader :=
  mkObjectReader [indirectObjectEntry.mk 0 4 (raw "c0"); indirectObjectEntry.mk 4 6 (raw "c1")]
                 0 10 0 None 0.

(** Initialization over a map of blobs. *)
Definition MetadataBlockPrefix : string := "VLT".
Definition formatBlockID : string := "format".
Definition repositoryConfigBlockID : string := "repo".

Definition st_PutBlock (id : string) (data : list byte) (st : gmap string (list byte))
  : option error * gmap string (list byte) :=
  (None, <[id := data]> st).

Definition rand_Read (n : Z) (rng : unit) : list byte * unit :=
  (replicate (Z.to_nat n) x00, rng).

Definition json_Marshal (f : MetadataFormat) : list byte * option error :=
  (String.list_byte_of_string (KeyDerivationAlgorithm (mf_SecurityOptions f))
     ++ UniqueID (mf_SecurityOptions f), None).

Definition initCrypto (mm : MetadataManager unit) : option error * MetadataManager unit :=
  (None, mkMetadataManager (mm_format mm) (mm_masterKey mm) (Some tt)).

Definition putJSON (mm : MetadataManager unit) (id : string)
           (rc : EncryptedRepositoryConfig) (st : gmap string (list byte))
  : option error * gmap string (list byte) :=
  st_PutBlock (MetadataBlockPrefix +:+ id) (default [] (MasterKey (Format rc))) st.

Definition creds : Credentials :=
  mkCredentials (fun _ => (replicate 32 x01, None)).

Definition Initialize :=
  Initialize st_PutBlock rand_Read MetadataBlockPrefix formatBlockID repositoryConfigBlockID
             "scrypt" "AES256-GCM" "DYNAMIC" "ENCRYPTED_HMAC_SHA512_384_AES256"
             json_Marshal initCrypto putJSON.

(** A store that already holds a format blob. *)
Definition populated : gmap string (list byte) :=
  {[ (MetadataBlockPrefix +:+ formatBlockID) := [x6f; x6c; x64] ]}.

Definition abc : list byte := [x61; x62; x63].

(** A store that already holds the chunk [abc] under its block name. *)
Definition holding_abc : state :=
  mkState {[ "abc" := abc ]} false [] None.

(** A store whose size lookups fail. *)
Definition unreachable_store : state :=
  mkState ∅ false [] (Some (ForeignError "storage unavailable")).

(** A store with packing switched on. *)
Definition packing_store : state := mkState ∅ true [] None.

(** An indirect ObjectID whose list chunk is carried inline and has no
    entry. *)
Definition emptyIndirect : ObjectID :=
  mkObjectID "" (Some (mkObjectID "" None emptyIndirectList None None)) "" None None.

(** A store holding two chunks, and a reader over the ten-byte object
    they make up. *)
Definition holding_digits : state :=
  mkState {[ "0123" := String.list_byte_of_string "0123";
             "456789" := String.list_byte_of_string "456789" ]} false [] None.

Definition digits : objectReader :=
  mkObjectReader [indirectObjectEntry.mk 0 4 (raw "0123");
                  indirectObjectEntry.mk 4 6 (raw "456789")]
                 0 10 0 None 0.

(** The outcome of a call without the manager it leaves. *)
Definition result {A B} (o : option (outcome (A * B))) : option (outcome A) :=
  match o with
  | Some (Return (a, _)) => Some (Return a)
  | Some (Panic msg) => Some (Panic msg)
  | None => None
  end.

(** [Seek(offset, 0)] followed by a [Read] into [n] zero bytes: the bytes
    in the buffer, the count and the error of the read. *)
Definition seek_then_read (r : objectReader) (offset : Z) (n : nat) (m : ObjectManager state)
  : option (outcome (list byte * Z * option error)) :=
  match Seek r offset 0 m with
  | Some (Return ((_, _, r), m)) =>
      match Read r (replicate n x00) m with
      | Some (Return ((buffer, count, err, _), _)) => Some (Return (buffer, count, err))
      | Some (Panic msg) => Some (Panic msg)
      | None => None
      end
  | Some (Panic msg) => Some (Panic msg)
  | None => None
  end.
End Sample.

(** ** Further vocabulary *)

(** The part of the pack decision that does not depend on the pack
    manager. *)
Definition packable (f : RepositoryObjectFormat) (data : list byte) (disablePacking : bool)
  : bool :=
  negb disablePacking && (0 <? MaxPackedContentLength f)
  && (len data <=? MaxPackedContentLength f).

(** A formatter whose ObjectIDs are plain block names. *)
Definition raw_ids (f : objectFormatter) : Prop :=
  forall data,
    Section_ (ComputeObjectID f data) = None
    /\ Indirect (ComputeObjectID f data) = None
    /\ BinaryContent (ComputeObjectID f data) = None
    /\ TextContent (ComputeObjectID f data) = "".

(** The absolute offset a [Seek] works with once [whence] is resolved. *)
Definition seekTarget (r : objectReader) (offset whence : Z) : Z :=
  if whence =? 1 then int64 (currentPosition r + offset)
  else if whence =? 2 then int64 (totalLength r + offset)
  else offset.

(** ** The object behind a reader

    [contents] lists the bytes of the chunks in the order of the seek
    table. *)

(** The reader agrees with the chunks: it has the seek table, its
    position is an [int64] value, its chunk index is not negative, and a
    chunk it has loaded is the one at its index, with the read position
    inside it. *)
Definition in_step (tbl : list entry) (contents : list (list byte)) (r : objectReader)
  : Prop :=
  seekTable r = tbl
  /\ int64_range (currentPosition r)
  /\ 0 <= currentChunkIndex r
  /\ match currentChunkData r with
     | Some c => contents !! Z.to_nat (currentChunkIndex r) = Some c
                 /\ 0 <= currentChunkPosition r <= len c
     | None => True
     end.

(** The bytes the reader has still to deliver: the rest of the loaded
    chunk and the chunks after it, or the chunks from the index on. *)
Definition pending (contents : list (list byte)) (r : objectReader) : list byte :=
  match currentChunkData r with
  | Some c => drop (Z.to_nat (currentChunkPosition r)) c
              ++ concat (drop (S (Z.to_nat (currentChunkIndex r))) contents)
  | None => concat (drop (Z.to_nat (currentChunkIndex r)) contents)
  end.

(** Slice lengths are values of Go's [int]. *)
Definition fits_int (tbl : list entry) (contents : list (list byte)) : Prop :=
  len tbl < 2 ^ 63 - 1 /\ Forall (fun c => len c < 2 ^ 63) contents.

(** Every chunk has the length its seek-table entry gives. *)
Definition lengths_agree (tbl : list entry) (contents : list (list byte)) : Prop :=
  Forall2 (fun e c => Length e = len c) tbl contents.

Section Chunks.
Context {E : Type}.
Variable X : Collaborators E.
Variable indirectStreamType : string.
Variable sprint_ObjectID : ObjectID -> string.
Variable jsonstream_NewReader : ObjectReader -> string -> M E (error + jsonstreamReader).
Variable newObjectSectionReader : Z -> Z -> ObjectReader -> error + ObjectReader.
Variable io_ReadFull : ObjectReader -> list byte -> M E (list byte * option error).

(** On every manager that satisfies [Inv], opening the chunk at an index
    of the table succeeds, loads the chunk's bytes and leaves a manager
    that satisfies [Inv] again. *)
Definition opens_chunks (tbl : list entry) (contents : list (list byte))
           (Inv : ObjectManager E -> Prop) : Prop :=
  forall (r : objectReader) (m : ObjectManager E) (k : nat) (c : list byte),
    Inv m -> seekTable r = tbl -> currentChunkIndex r = Z.of_nat k ->
    contents !! k = Some c ->
    exists m',
      openCurrentChunk X indirectStreamType sprint_ObjectID jsonstream_NewReader
                       newObjectSectionReader io_ReadFull r m
      = Return ((None, set_currentChunkPosition 0 (set_currentChunkData (Some c) r)), m')
      /\ Inv m'.
End Chunks.

From stdpp Require Import pretty.
Local Open Scope Z_scope.

(** ** Snapshot sources ([snapshot.SourceInfo]) *)

Module SourceInfo.
Record t : Type := mk { Host : string; UserName : string; Path : string }.

(** [SourceInfo{}] *)
Definition zero : t := mk "" "" "".

(** The [String] method. *)
Definition String (ssi : t) : string :=
  if String.eqb (Host ssi) "" && String.eqb (Path ssi) "" && String.eqb (UserName ssi) ""
  then "(global)"
  else if String.eqb (Path ssi) "" then UserName ssi +:+ "@" +:+ Host ssi
  else UserName ssi +:+ "@" +:+ Host ssi +:+ ":" +:+ Path ssi.
End SourceInfo.

(** [len(s)] of a string. *)
Definition slen (s : string) : Z := Z.of_nat (String.length s).

(** [strings.Index(s, sep)]: the index of the first occurrence of [sep]
    in [s], or -1. *)
Fixpoint index_from (s sep : string) (i : Z) : Z :=
  if String.prefix sep s then i
  else match s with
       | EmptyString => -1
       | String _ s' => index_from s' sep (i + 1)
       end.

Definition Index (s sep : string) : Z := index_from s sep 0.

(** [s[lo:hi]] on a string; [None] stands for the run-time panic on slice
    bounds out of range. *)
Definition str_slice (s : string) (lo hi : Z) : option string :=
  if (0 <=? lo) && (lo <=? hi) && (hi <=? slen s)
  then Some (String.substring (Z.to_nat lo) (Z.to_nat (hi - lo)) s)
  else None.

Section ParseSourceInfo.
(** [filepath.Abs], [filepath.Clean] and the [%q] verb of [fmt]. *)
Variable filepath_Abs : string -> string * option error.
Variable filepath_Clean : string -> string.
Variable strconv_Quote : string -> string.

Definition ParseSourceInfo (path hostname username : string)
  : outcome (SourceInfo.t * option error) :=
  if String.eqb path "(global)" then Return (SourceInfo.zero, None)
  else
    let p1 := Index path "@" in
    let p2 := Index path ":" in
    if (p1 >? 0) && (p2 >? 0) && (p1 <? p2) && (p2 <? slen path) then
      match str_slice path 0 p1, str_slice path (p1 + 1) p2,
            str_slice path (p2 + 1) (slen path) with
      | Some user, Some host, Some rest => Return (SourceInfo.mk host user rest, None)
      | _, _, _ => Panic slice_bounds_out_of_range
      end
    else if (p1 >=? 0) && (p2 <? 0) then
      if p1 + 1 <? slen path then
        (* support @host and user@host without path *)
        match str_slice path 0 p1, str_slice path (p1 + 1) (slen path) with
        | Some user, Some host => Return (SourceInfo.mk host user "", None)
        | _, _ => Panic slice_bounds_out_of_range
        end
      else
        Return (SourceInfo.zero,
                Some (Errorf ("invalid hostname in " +:+ strconv_Quote path)))
    else
      let '(absPath, err) := filepath_Abs path in
      match err with
      | Some e =>
          Return (SourceInfo.zero,
                  Some (Errorf ("invalid directory: '" +:+ path +:+ "': " +:+ Error e)))
      | None => Return (SourceInfo.mk hostname username (filepath_Clean absPath), None)
      end.
End ParseSourceInfo.

(** The separator does not occur in the string. *)
Definition lacks (s sep : string) : Prop := Index s sep = -1.

(** Sources whose textual form can be read back: the global source, or a
    user name without [@] and [:], a host without [:], a host that is not
    empty when there is no path, and a user name that is not empty when
    there is one. *)
Definition readable (ssi : SourceInfo.t) : Prop :=
  ssi = SourceInfo.zero
  \/ (lacks (SourceInfo.UserName ssi) "@"
      /\ lacks (SourceInfo.UserName ssi) ":"
      /\ lacks (SourceInfo.Host ssi) ":"
      /\ (SourceInfo.Path ssi = "" -> SourceInfo.Host ssi <> "")
      /\ (SourceInfo.Path ssi <> "" -> SourceInfo.UserName ssi <> "")).

(** ** Filtering snapshots by host and user ([filterHostAndUser]) *)

(** The fields of [snapshot.Manifest] that the command reads; [T] is
    [time.Time]. *)
Record Manifest (T : Type) : Type := mkManifest {
  Source : SourceInfo.t;
  StartTime : T;
  IncompleteReason : string
}.
Arguments mkManifest {T} _ _ _.
Arguments Source {T} _.
Arguments StartTime {T} _.
Arguments IncompleteReason {T} _.

(** [host] and [user] are the values of the flags [--host] and
    [--user]. *)
Definition filterHostAndUser {T} (host user : string) (snapshots : list (Manifest T))
  : list (Manifest T) :=
  if String.eqb host "" && String.eqb user "" then snapshots
  else
    foldl (fun result s =>
             if negb (String.eqb host "")
                && negb (String.eqb host (SourceInfo.Host (Source s)))
             then result
             else if negb (String.eqb user "")
                     && negb (String.eqb user (SourceInfo.UserName (Source s)))
             then result
             else result ++ [s])
          [] snapshots.

(** A snapshot the flags ask for. *)
Definition wanted {T} (host user : string) (s : Manifest T) : bool :=
  (String.eqb host "" || String.eqb host (SourceInfo.Host (Source s)))
  && (String.eqb user "" || String.eqb user (SourceInfo.UserName (Source s))).

(** ** Expiring snapshots ([cli/command_snapshot_expire.go]) *)

#[global] Instance SourceInfo_eq_dec : EqDecision SourceInfo.t.
Proof. solve_decision. Defined.

(** The fields of [snapshot.ExpirationPolicy] and [snapshot.Policy] that
    the command reads; a [*int] is an option. *)
Module ExpirationPolicy.
Record t : Type := mk {
  KeepLatest : option Z;
  KeepHourly : option Z;
  KeepDaily : option Z;
  KeepWeekly : option Z;
  KeepMonthly : option Z;
  KeepAnnual : option Z
}.
End ExpirationPolicy.

Module Policy.
Record t : Type := mk { Source : SourceInfo.t; ExpirationPolicy : ExpirationPolicy.t }.
End Policy.

(** What the command writes: to standard output, to standard error and to
    the log. *)
Inductive output : Type :=
| Stdout (s : string)
| Stderr (s : string)
| Log (s : string).

Definition newline : string := String (Ascii.ascii_of_nat 10) EmptyString.

(** [strings.Join] *)
Fixpoint Join (elems : list string) (sep : string) : string :=
  match elems with
  | [] => ""
  | x :: rest =>
      match rest with
      | [] => x
      | _ => x +:+ sep +:+ Join rest sep
      end
  end.

(** [time.Hour], in nanoseconds. *)
Definition time_Hour : Z := 3600000000000.

(** The maps [ids] and [idCounters] and the slice [keep] that the closure
    [registerSnapshot] updates. *)
Record registry : Type := mkRegistry {
  ids : gmap string bool;
  idCounters : gmap string Z;
  keep : list string
}.

(** [idCounters[k]]: zero for a missing key. *)
Definition counter (m : gmap string Z) (k : string) : Z := default 0 (m !! k).

Definition registerSnapshot (timePeriodID timePeriodType : string) (max : Z) (g : registry)
  : registry :=
  if negb (bool_decide (is_Some (ids g !! timePeriodID)))
     && (counter (idCounters g) timePeriodType <? max)
  then mkRegistry (<[timePeriodID := true]> (ids g))
                  (<[timePeriodType := int64 (counter (idCounters g) timePeriodType + 1)]>
                     (idCounters g))
                  (keep g ++ [timePeriodType])
  else g.

Record cutoffs (T : Type) : Type := mkCutoffs {
  annualCutoffTime : T;
  monthlyCutoffTime : T;
  dailyCutoffTime : T;
  hourlyCutoffTime : T;
  weeklyCutoffTime : T
}.
Arguments mkCutoffs {T} _ _ _ _ _.
Arguments annualCutoffTime {T} _.
Arguments monthlyCutoffTime {T} _.
Arguments dailyCutoffTime {T} _.
Arguments hourlyCutoffTime {T} _.
Arguments weeklyCutoffTime {T} _.

(** The state of the loop of [expireSnapshotsForSingleSource]. *)
Record expiry : Type := mkExpiry {
  seen : gmap string bool;          (* ids *)
  counted : gmap string Z;          (* idCounters *)
  toDelete : list string;
  printed : list output
}.

Section Expire.
(** [T] is [time.Time], [W] the state of what lies outside the command: the
    clock and the snapshot manager. *)
Context {T W : Type}.
Variable zeroTime : T.                             (* var t time.Time *)
Variable time_Now : W -> T * W.
Variable AddDate : T -> Z -> Z -> Z -> T.
Variable Add : T -> Z -> T.
Variable After : T -> T -> bool.
Variable Format : T -> string -> string.
Variable ISOWeek : T -> Z * Z.
Variable Local : T -> T.
Variable Sprintf_week : Z -> Z -> string.          (* fmt.Sprintf("%04v-%02v", yyyy, wk) *)
Variable strconv_Quote : string -> string.         (* the verb %q *)
Variable GetEffectivePolicy : SourceInfo.t -> W -> (Policy.t + error) * W.

(** One of the five statements that set a cutoff time: the clock is read
    only when the policy has the field. *)
Definition cutoffTime (keepN : option Z) (back : T -> Z -> T) (w : W) : T * W :=
  match keepN with
  | Some n => let '(now, w') := time_Now w in (back now n, w')
  | None => (zeroTime, w)
  end.

Definition cutoffTimes (p : ExpirationPolicy.t) (w : W) : cutoffs T * W :=
  let '(annual, w) :=
    cutoffTime (ExpirationPolicy.KeepAnnual p) (fun now n => AddDate now (int64 (- n)) 0 0) w in
  let '(monthly, w) :=
    cutoffTime (ExpirationPolicy.KeepMonthly p) (fun now n => AddDate now 0 (int64 (- n)) 0) w in
  let '(daily, w) :=
    cutoffTime (ExpirationPolicy.KeepDaily p) (fun now n => AddDate now 0 0 (int64 (- n))) w in
  let '(hourly, w) :=
    cutoffTime (ExpirationPolicy.KeepHourly p)
               (fun now n => Add now (int64 (int64 (- n) * time_Hour))) w in
  let '(weekly, w) :=
    cutoffTime (ExpirationPolicy.KeepWeekly p) (fun now n => AddDate now 0 0 (int64 (-7 * n))) w in
  (mkCutoffs annual monthly daily hourly weekly, w).

(** A period of the policy: registered when the snapshot started after
    the cutoff and the policy has the field. *)
Definition period (keepN : option Z) (cutoff : T) (s : Manifest T)
           (timePeriodID timePeriodType : string) (g : registry) : registry :=
  match keepN with
  | Some n =>
      if After (StartTime s) cutoff then registerSnapshot timePeriodID timePeriodType n g
      else g
  | None => g
  end.

(** The calls of [registerSnapshot] for the snapshot [s] at index [i]. *)
Definition periods (p : ExpirationPolicy.t) (c : cutoffs T) (i : Z) (s : Manifest T)
           (g : registry) : registry :=
  let g := match ExpirationPolicy.KeepLatest p with
           | Some n => registerSnapshot (pretty i) "latest" n g
           | None => g
           end in
  let g := period (ExpirationPolicy.KeepAnnual p) (annualCutoffTime c) s
                  (Format (StartTime s) "2006") "annual" g in
  let g := period (ExpirationPolicy.KeepMonthly p) (monthlyCutoffTime c) s
                  (Format (StartTime s) "2006-01") "monthly" g in
  let g := period (ExpirationPolicy.KeepWeekly p) (weeklyCutoffTime c) s
                  (let '(yyyy, wk) := ISOWeek (StartTime s) in Sprintf_week yyyy wk)
                  "weekly" g in
  let g := period (ExpirationPolicy.KeepDaily p) (dailyCutoffTime c) s
                  (Format (StartTime s) "2006-01-02") "daily" g in
  period (ExpirationPolicy.KeepHourly p) (hourlyCutoffTime c) s
         (Format (StartTime s) "2006-01-02 15") "hourly" g.

(** The loop over the snapshots, from index [i] on. *)
Fixpoint expireLoop (p : ExpirationPolicy.t) (c : cutoffs T) (snapshotNames : list string)
         (i : Z) (snapshots : list (Manifest T)) (st : expiry) : outcome expiry :=
  match snapshots with
  | [] => Return st
  | s :: rest =>
      if negb (String.eqb (IncompleteReason s) "")
      then expireLoop p c snapshotNames (i + 1) rest st
      else
        let g := periods p c i s (mkRegistry (seen st) (counted st) []) in
        let tm := Format (Local (StartTime s)) "2006-01-02 15:04:05 MST" in
        if len (keep g) >? 0 then
          expireLoop p c snapshotNames (i + 1) rest
            (mkExpiry (ids g) (idCounters g) (toDelete st)
               (printed st
                ++ [Stdout ("  keeping  " +:+ tm +:+ " " +:+ Join (keep g) "," +:+ newline)]))
        else
          match at_index snapshotNames i with
          | Some name =>
              expireLoop p c snapshotNames (i + 1) rest
                (mkExpiry (ids g) (idCounters g) (toDelete st ++ [name])
                   (printed st ++ [Stdout ("  deleting " +:+ tm +:+ newline)]))
          | None => Panic index_out_of_range
          end
  end.

Definition expireSnapshotsForSingleSource (snapshots : list (Manifest T)) (pol : Policy.t)
           (snapshotNames : list string) (w : W)
  : outcome (list string * list output * W) :=
  let '(c, w) := cutoffTimes (Policy.ExpirationPolicy pol) w in
  let header := Stdout (newline +:+ SourceInfo.String (Policy.Source pol) +:+ newline) in
  match expireLoop (Policy.ExpirationPolicy pol) c snapshotNames 0 snapshots
                   (mkExpiry ∅ ∅ [] [header]) with
  | Return st => Return (toDelete st, printed st, w)
  | Panic msg => Panic msg
  end.

(** The variables of [expireSnapshots] that its closure [flush] and its
    loop share. *)
Record batch : Type := mkBatch {
  lastSource : SourceInfo.t;
  pendingSnapshots : list (Manifest T);
  pendingNames : list string;
  batchToDelete : list string;                     (* toDelete *)
  written : list output;
  outside_ : W
}.

Definition flush (b : batch) : outcome (option error * batch) :=
  match pendingSnapshots b with
  | first :: _ =>
      let src := Source first in
      match GetEffectivePolicy src (outside_ b) with
      | (inr err, w) =>
          Return (Some err,
                  mkBatch (lastSource b) (pendingSnapshots b) (pendingNames b)
                          (batchToDelete b) (written b) w)
      | (inl pol, w) =>
          match expireSnapshotsForSingleSource (pendingSnapshots b) pol (pendingNames b) w with
          | Panic msg => Panic msg
          | Return (td, out, w') =>
              if len td =? 0 then
                Return (None,
                        mkBatch (lastSource b) [] [] (batchToDelete b)
                          (written b ++ out
                           ++ [Stderr ("Nothing to delete for "
                                       +:+ strconv_Quote (SourceInfo.String src)
                                       +:+ "." +:+ newline)])
                          w')
              else
                Return (None,
                        mkBatch (lastSource b) [] [] (batchToDelete b ++ td)
                          (written b ++ out
                           ++ [Log ("would delete " +:+ pretty (len td) +:+ " out of "
                                    +:+ pretty (len (pendingSnapshots b))
                                    +:+ " snapshots for "
                                    +:+ strconv_Quote (SourceInfo.String src))])
                          w')
          end
      end
  | [] =>
      Return (None,
              mkBatch (lastSource b) [] [] (batchToDelete b) (written b) (outside_ b))
  end.

(** The loop of [expireSnapshots], from index [i] on; it ends early with
    the error of [flush]. *)
Fixpoint expireSnapshots_loop (names : list string) (i : Z) (snapshots : list (Manifest T))
         (b : batch) : outcome (option error * batch) :=
  match snapshots with
  | [] => Return (None, b)
  | s :: rest =>
      let flushed :=
        if bool_decide (Source s <> lastSource b)
        then flush (mkBatch (Source s) (pendingSnapshots b) (pendingNames b)
                            (batchToDelete b) (written b) (outside_ b))
        else Return (None, b) in
      match flushed with
      | Panic msg => Panic msg
      | Return (Some err, b') => Return (Some err, b')
      | Return (None, b') =>
          match at_index names i with
          | Some name =>
              expireSnapshots_loop names (i + 1) rest
                (mkBatch (lastSource b') (pendingSnapshots b' ++ [s]) (pendingNames b' ++ [name])
                         (batchToDelete b') (written b') (outside_ b'))
          | None => Panic index_out_of_range
          end
      end
  end.

(** Returns the names to delete and the error, with what was written and
    the state outside. *)
Definition expireSnapshots (snapshots : list (Manifest T)) (names : list string) (w : W)
  : outcome ((list string * option error) * list output * W) :=
  match expireSnapshots_loop names 0 snapshots (mkBatch SourceInfo.zero [] [] [] [] w) with
  | Panic msg => Panic msg
  | Return (Some err, b) => Return (([], Some err), written b, outside_ b)
  | Return (None, b) =>
      match flush b with
      | Panic msg => Panic msg
      | Return (Some err, b') => Return (([], Some err), written b', outside_ b')
      | Return (None, b') => Return ((batchToDelete b', None), written b', outside_ b')
      end
  end.
End Expire.

(** The complete snapshots of a list, each with the name at its position. *)
Definition complete_named {T} (snapshots : list (Manifest T)) (names : list string)
  : list (Manifest T * string) :=
  List.filter (fun sn => String.eqb (IncompleteReason (fst sn)) "") (zip snapshots names).

(** ** More of the sample repository *)

Module Cases.
(** The chunks of the ten-byte object behind [digits]. *)
Definition digits_contents : list (list byte) :=
  [String.list_byte_of_string "0123"; String.list_byte_of_string "456789"].

(** Managers over the store that holds the two chunks, with the plain
    formatter. *)
Definition serves_digits (m : ObjectManager Sample.state) : Prop :=
  world m = Sample.holding_digits /\ formatter m = Sample.plain.

(** Modelled from the spec: the framed record stream of section 6, cut
    down to two documents: [L] is the list of the two chunks of [digits],
    [B] is the same list breaking off with an error after its records. *)
Definition listing_NewReader (rd : ObjectReader) (tag : string)
  : M Sample.state (error + jsonstreamReader) :=
  match rd with
  | readerWithData data _ =>
      if String.eqb (String.string_of_list_byte data) "L"
      then mret (inr (mkJsonstreamReader (seekTable Sample.digits) io_EOF))
      else if String.eqb (String.string_of_list_byte data) "B"
      then mret (inr (mkJsonstreamReader (seekTable Sample.digits) io_ErrUnexpectedEOF))
      else mret (inl (ForeignError "invalid stream"))
  | _ => mret (inl (ForeignError "invalid stream"))
  end.

Definition OpenListing :=
  Open Sample.X Sample.indirectStreamType StorageBlock listing_NewReader
       Sample.newObjectSectionReader.

(** Indirect ObjectIDs whose list chunk is carried inline. *)
Definition listed : ObjectID :=
  mkObjectID "" (Some (mkObjectID "" None "L" None None)) "" None None.
Definition broken : ObjectID :=
  mkObjectID "" (Some (mkObjectID "" None "B" None None)) "" None None.

(** A store in which the block [abc] holds other bytes. *)
Definition tampered : Sample.state := Sample.mkState {[ "abc" := [x61; x62; x78] ]} false [] None.

(** Credentials that cannot give a master key. *)
Definition locked : Credentials :=
  mkCredentials (fun _ => ([], Some (ForeignError "wrong password"))).

(** A metadata manager whose crypto cannot be set up. *)
Definition initCrypto_failing (mm : MetadataManager unit)
  : option error * MetadataManager unit :=
  (Some (ForeignError "unknown algorithm"), mm).

Definition Initialize_failing_crypto :=
  Initialize Sample.st_PutBlock Sample.rand_Read Sample.MetadataBlockPrefix
             Sample.formatBlockID Sample.repositoryConfigBlockID
             "scrypt" "AES256-GCM" "DYNAMIC" "ENCRYPTED_HMAC_SHA512_384_AES256"
             Sample.json_Marshal initCrypto_failing Sample.putJSON.

(** A random source that counts the bytes drawn from it. *)
Definition counting_Read (n : Z) (drawn : Z) : list byte * Z :=
  (replicate (Z.to_nat n) x00, drawn + n).

Definition Initialize_counting :=
  Initialize Sample.st_PutBlock counting_Read Sample.MetadataBlockPrefix
             Sample.formatBlockID Sample.repositoryConfigBlockID
             "scrypt" "AES256-GCM" "DYNAMIC" "ENCRYPTED_HMAC_SHA512_384_AES256"
             Sample.json_Marshal Sample.initCrypto Sample.putJSON.

(** Options that bring their own secrets. *)
Definition with_secrets : NewRepositoryOptions :=
  mkNewRepositoryOptions (Some [x01]) "" "" "" (Some [x02]) (Some [x03]) "" 0 0 0 0 0 false.
(** A source, read from text with a working directory [/cwd]. *)
Definition library : SourceInfo.t := SourceInfo.mk "host" "user" "/data".
Definition nameless : SourceInfo.t := SourceInfo.mk "host" "" "/data".
Definition filepath_Abs (p : string) : string * option error := ("/cwd/" +:+ p, None).
Definition filepath_Clean (p : string) : string := p.
Definition strconv_Quote (s : string) : string := Sample.quote +:+ s +:+ Sample.quote.
Definition ParseSourceInfo : string -> string -> string -> outcome (SourceInfo.t * option error) :=
  ParseSourceInfo filepath_Abs filepath_Clean strconv_Quote.

(** A clock in seconds, with years of 365 and months of 30 days; the
    state outside is the time of day. *)
Definition time_Now (w : Z) : Z * Z := (w, w).
Definition AddDate (t years months days : Z) : Z :=
  t + (years * 365 + months * 30 + days) * 86400.
Definition Add (t d : Z) : Z := t + d / 1000000000.
Definition After (t u : Z) : bool := u <? t.
Definition Format (t : Z) (layout : string) : string :=
  pretty (t / (if String.eqb layout "2006" then 31536000
               else if String.eqb layout "2006-01" then 2592000
               else if String.eqb layout "2006-01-02" then 86400
               else if String.eqb layout "2006-01-02 15" then 3600
               else 1)).
Definition ISOWeek (t : Z) : Z * Z := (t / 31536000, t mod 31536000 / 604800 + 1).
Definition Local (t : Z) : Z := t.
Definition Sprintf_week (yyyy wk : Z) : string := pretty yyyy +:+ "-" +:+ pretty wk.

(** Policies: the two most recent days, and the latest snapshot only. *)
Definition two_days : Policy.t :=
  Policy.mk library (ExpirationPolicy.mk None None (Some 2) None None None).
Definition latest_only : Policy.t :=
  Policy.mk library (ExpirationPolicy.mk (Some 1) None None None None None).
Definition GetEffectivePolicy (src : SourceInfo.t) (w : Z) : (Policy.t + error) * Z :=
  (inl latest_only, w).
Definition GetEffectivePolicy_failing (src : SourceInfo.t) (w : Z)
  : (Policy.t + error) * Z :=
  (inr (ForeignError "no policy"), w).

(** Three snapshots of [library], the second one incomplete, and three
    complete ones of which two started on the same day. *)
Definition shelf : list (Manifest Z) :=
  [mkManifest library 100 ""; mkManifest library 200 "canceled"; mkManifest library 300 ""].
Definition week : list (Manifest Z) :=
  [mkManifest library 734400 ""; mkManifest library 743040 ""; mkManifest library 432000 ""].
Definition shelf_names : list string := ["a"; "b"; "c"].
(** Ten days after the start of the clock. *)
Definition tenth_day : Z := 864000.

Definition expireSnapshotsForSingleSource
  : list (Manifest Z) -> Policy.t -> list string -> Z
    -> outcome (list string * list output * Z) :=
  expireSnapshotsForSingleSource 0 time_Now AddDate Add After Format ISOWeek Local
                                 Sprintf_week.
Definition expireSnapshots_failing
  : list (Manifest Z) -> list string -> Z
    -> outcome ((list string * option error) * list output * Z) :=
  expireSnapshots 0 time_Now AddDate Add After Format ISOWeek Local Sprintf_week
                  strconv_Quote GetEffectivePolicy_failing.
Definition expireSnapshots
  : list (Manifest Z) -> list string -> Z
    -> outcome ((list string * option error) * list output * Z) :=
  expireSnapshots 0 time_Now AddDate Add After Format ISOWeek Local Sprintf_week
                  strconv_Quote GetEffectivePolicy.
End Cases.

(** * Properties *)

(** ** Machine integers and slices *)

Lemma int64_small x : int64_range x -> int64 x = x.
Proof.
  unfold int64_range, int64, wrap. intros H.
  change (2 ^ (64 - 1)) with (2 ^ 63).
  rewrite Z.mod_small; lia.
Qed.

Lemma int64_overflow x : 2 ^ 63 <= x < 2 ^ 64 -> int64 x = x - 2 ^ 64.
Proof.
  unfold int64, wrap. intros H.
  change (2 ^ (64 - 1)) with (2 ^ 63).
  replace (x + 2 ^ 63) with ((x + 2 ^ 63 - 2 ^ 64) + 1 * 2 ^ 64) by lia.
  rewrite Z.mod_add by lia. rewrite Z.mod_small; lia.
Qed.

Lemma int64_in_range x : int64_range (int64 x).
Proof.
  unfold int64_range, int64, wrap. change (2 ^ (64 - 1)) with (2 ^ 63).
  pose proof (Z.mod_pos_bound (x + 2 ^ 63) (2 ^ 64)). lia.
Qed.

Lemma slice_Some {A} (s : list A) lo hi x :
  slice s lo hi = Some x -> 0 <= lo <= hi /\ hi <= len s.
Proof.
  unfold slice.
  destruct (Z.leb_spec 0 lo), (Z.leb_spec lo hi), (Z.leb_spec hi (len s)); simpl;
    intros; simplify_eq; lia.
Qed.

Lemma at_index_Some {A} (s : list A) i x :
  at_index s i = Some x <-> 0 <= i /\ s !! Z.to_nat i = Some x.
Proof.
  unfold at_index. destruct (Z.ltb_spec i 0); split.
  - discriminate.
  - intros [? _]. lia.
  - intros ?. split; [lia | done].
  - by intros [_ ?].
Qed.

Lemma at_index_in_range {A} (s : list A) i :
  0 <= i < len s -> exists x, at_index s i = Some x.
Proof.
  unfold len. intros H.
  destruct (lookup_lt_is_Some_2 s (Z.to_nat i)) as [x Hx]; [lia |].
  exists x. apply at_index_Some. split; [lia | done].
Qed.

Lemma at_index_lt {A} (s : list A) i x : at_index s i = Some x -> 0 <= i < len s.
Proof.
  intros [H0 H]%at_index_Some. apply lookup_lt_Some in H. unfold len. lia.
Qed.

Lemma middle_between left right :
  left <= right -> left <= (left + right) `quot` 2 <= right.
Proof.
  intros H. pose proof (Z.quot_rem' (left + right) 2) as Hq.
  destruct (Z_le_gt_dec 0 (left + right)) as [Hs | Hs].
  - pose proof (Z.rem_bound_pos (left + right) 2 Hs ltac:(lia)). lia.
  - pose proof (Z.rem_bound_abs (left + right) 2 ltac:(lia)).
    pose proof (Z.rem_sign_mul (left + right) 2 ltac:(lia)). nia.
Qed.

(** ** Seek tables *)

Section SeekTable.
Variable tbl : list entry.
Hypothesis Hok : seekTable_ok tbl.

Lemma starts_monotone i j ei ej :
  (i <= j)%nat -> tbl !! i = Some ei -> tbl !! j = Some ej -> Start ei <= Start ej.
Proof.
  intros Hij Hi. revert ej. induction Hij as [| j Hij IH]; intros ej Hj.
  - rewrite Hi in Hj. injection Hj as ->. lia.
  - destruct (lookup_lt_is_Some_2 tbl j) as [e He].
    { apply lookup_lt_Some in Hj. lia. }
    specialize (IH e He).
    pose proof (st_ascending tbl Hok j e ej He Hj). lia.
Qed.

Lemma starts_nonneg i e : tbl !! i = Some e -> 0 <= Start e.
Proof.
  intros Hi.
  destruct (lookup_lt_is_Some_2 tbl 0%nat) as [e0 He0].
  { apply lookup_lt_Some in Hi. lia. }
  pose proof (st_first tbl Hok e0 He0).
  pose proof (starts_monotone 0 i e0 e ltac:(lia) He0 Hi). lia.
Qed.

(** A chunk ends no later than any later chunk starts. *)
Lemma end_before_later_start i j ei ej :
  (i < j)%nat -> tbl !! i = Some ei -> tbl !! j = Some ej ->
  Start ei + Length ei <= Start ej.
Proof.
  intros Hij Hi Hj.
  destruct (lookup_lt_is_Some_2 tbl (S i)) as [e He].
  { apply lookup_lt_Some in Hj. lia. }
  rewrite <- (st_contiguous tbl Hok i ei e Hi He).
  apply (starts_monotone (S i) j); [lia | done | done].
Qed.

Lemma in_range_lookup i e : tbl !! i = Some e -> entry_in_range e.
Proof.
  intros Hi. pose proof (st_in_range tbl Hok) as HF.
  rewrite Forall_lookup in HF. eauto.
Qed.

(** The end offset of a chunk that has a successor is computed exactly. *)
Lemma endOffset_inner i e e' :
  tbl !! i = Some e -> tbl !! S i = Some e' -> endOffset e = Start e'.
Proof.
  intros Hi Hs. unfold endOffset.
  rewrite <- (st_contiguous tbl Hok i e e' Hi Hs).
  apply int64_small. apply (in_range_lookup (S i) e' Hs).
Qed.

(** Whatever the wrap does to a chunk's end, an offset that is not
    negative and lies below the computed end lies below the exact end. *)
Lemma below_endOffset i e offset :
  tbl !! i = Some e -> 0 <= offset -> offset < endOffset e ->
  offset < Start e + Length e.
Proof.
  intros Hi H0 Hlt. unfold endOffset in Hlt.
  pose proof (starts_nonneg i e Hi) as Hs.
  destruct (in_range_lookup i e Hi) as [[_ Hs2] [Hl1 Hl2]].
  destruct (Z_lt_ge_dec (Start e + Length e) (2 ^ 63)) as [Hsmall | Hbig].
  - rewrite int64_small in Hlt; [done | unfold int64_range; lia].
  - rewrite int64_overflow in Hlt; lia.
Qed.

Lemma endOffset_le_exact i e offset :
  tbl !! i = Some e -> 0 <= offset -> Start e + Length e <= offset ->
  int64_range offset -> endOffset e <= offset.
Proof.
  intros Hi H0 Hle Hr. unfold endOffset.
  pose proof (starts_nonneg i e Hi) as Hs.
  destruct (in_range_lookup i e Hi) as [[_ Hs2] [Hl1 Hl2]].
  rewrite int64_small; [done | unfold int64_range in *; lia].
Qed.

(** At most one chunk covers a given offset. *)
Lemma covers_unique i j ei ej offset :
  tbl !! i = Some ei -> tbl !! j = Some ej ->
  covers ei offset -> covers ej offset -> i = j.
Proof.
  unfold covers. intros Hi Hj Ci Cj.
  destruct (Nat.lt_trichotomy i j) as [Hlt | [Heq | Hgt]]; [| done |].
  - pose proof (end_before_later_start i j ei ej Hlt Hi Hj). lia.
  - pose proof (end_before_later_start j i ej ei Hgt Hj Hi). lia.
Qed.
End SeekTable.

(** ** Binary search *)

Section BinarySearch.
Variable tbl : list entry.
Variable offset : Z.

(** Whatever index the search returns passed both tests of the loop. *)
Lemma findChunkIndex_loop_sound fuel left right k :
  findChunkIndex_loop fuel tbl offset left right = Some (Return k) ->
  exists e, at_index tbl k = Some e /\ Start e <= offset /\ offset < endOffset e.
Proof.
  revert left right. induction fuel as [| fuel IH]; intros left right; simpl.
  - destruct (left <=? right); discriminate.
  - destruct (left <=? right); [| discriminate].
    destruct (at_index tbl ((left + right) `quot` 2)) as [e |] eqn:He; [| discriminate].
    destruct (Z.ltb_spec offset (Start e)); [apply IH |].
    destruct (Z.geb_spec offset (endOffset e)); [apply IH |].
    intros [= <-]. exists e. repeat split; [done | lia | lia].
Qed.

(** When no chunk passes both tests the search runs into its panic. *)
Lemma findChunkIndex_loop_miss fuel left right :
  (forall i e, at_index tbl i = Some e -> ~ (Start e <= offset < endOffset e)) ->
  0 <= left -> right < len tbl -> right - left + 1 <= Z.of_nat fuel ->
  findChunkIndex_loop fuel tbl offset left right = Some (Panic "Unreachable code").
Proof.
  intros Hmiss. revert left right.
  induction fuel as [| fuel IH]; intros left right Hl Hr Hfuel; simpl;
    destruct (Z.leb_spec left right) as [Hle | Hgt]; try done; try lia.
  pose proof (middle_between left right Hle) as Hmid.
  destruct (at_index_in_range tbl ((left + right) `quot` 2)) as [e He]; [lia |].
  rewrite He.
  destruct (Z.ltb_spec offset (Start e)); [apply IH; lia |].
  destruct (Z.geb_spec offset (endOffset e)); [apply IH; lia |].
  exfalso. apply (Hmiss _ _ He). lia.
Qed.

Hypothesis Hok : seekTable_ok tbl.
Variable final : entry.
Hypothesis Hfinal : last tbl = Some final.
Hypothesis Hoffset : 0 <= offset < endOffset final.

Lemma final_lookup : tbl !! pred (length tbl) = Some final.
Proof. by rewrite <- last_lookup. Qed.

Lemma offset_in_range : int64_range offset.
Proof.
  unfold int64_range. split; [lia |].
  assert (endOffset final < 2 ^ 63); [| lia].
  unfold endOffset, int64, wrap. change (2 ^ (64 - 1)) with (2 ^ 63).
  pose proof (Z.mod_pos_bound (Start final + Length final + 2 ^ 63) (2 ^ 64)). lia.
Qed.

(** Under the loop invariant the loop cannot run out of candidates:
    every chunk left of [left] ends at or before [offset], every chunk
    right of [right] starts after it. *)
Lemma candidates_remain left right :
  0 <= left -> right < len tbl -> left <= right + 1 ->
  (forall i e, at_index tbl i = Some e -> i < left -> Start e + Length e <= offset) ->
  (forall i e, at_index tbl i = Some e -> right < i -> offset < Start e) ->
  left <= right.
Proof.
  intros Hl Hr Hlr Hleft Hright.
  pose proof final_lookup as Hfl.
  assert (Hne : 0 < len tbl).
  { apply lookup_lt_Some in Hfl. unfold len. lia. }
  destruct (Z_le_gt_dec left right) as [| Hgt]; [done | exfalso].
  assert (left = right + 1) as -> by lia.
  destruct (Z.eq_dec (right + 1) 0) as [Hz | Hnz].
  - destruct (at_index_in_range tbl 0) as [e0 He0]; [lia |].
    pose proof (Hright 0 e0 He0 ltac:(lia)).
    apply at_index_Some in He0 as [_ He0].
    pose proof (st_first tbl Hok e0 He0). lia.
  - destruct (at_index_in_range tbl right) as [e He]; [lia |].
    pose proof (Hleft right e He ltac:(lia)) as Hend.
    destruct (Z.eq_dec (right + 1) (len tbl)) as [Hlast | Hinner].
    + apply at_index_Some in He as [_ He].
      replace (Z.to_nat right) with (pred (length tbl)) in He by (unfold len in *; lia).
      rewrite Hfl in He. injection He as <-.
      pose proof (below_endOffset tbl Hok _ _ offset Hfl ltac:(lia) ltac:(lia)). lia.
    + destruct (at_index_in_range tbl (right + 1)) as [e' He']; [lia |].
      pose proof (Hright (right + 1) e' He' ltac:(lia)).
      apply at_index_Some in He as [_ He]. apply at_index_Some in He' as [_ He'].
      replace (Z.to_nat (right + 1)) with (S (Z.to_nat right)) in He' by lia.
      pose proof (st_contiguous tbl Hok _ _ _ He He'). lia.
Qed.

Lemma findChunkIndex_loop_hit fuel left right :
  0 <= left -> right < len tbl -> left <= right + 1 ->
  right - left + 1 <= Z.of_nat fuel ->
  (forall i e, at_index tbl i = Some e -> i < left -> Start e + Length e <= offset) ->
  (forall i e, at_index tbl i = Some e -> right < i -> offset < Start e) ->
  exists k e, findChunkIndex_loop fuel tbl offset left right = Some (Return k)
              /\ at_index tbl k = Some e /\ covers e offset.
Proof.
  pose proof final_lookup as Hfl.
  revert left right.
  induction fuel as [| fuel IH]; intros left right Hl Hr Hlr Hfuel Hleft Hright;
    pose proof (candidates_remain left right Hl Hr Hlr Hleft Hright) as Hle;
    [lia |].
  simpl. destruct (Z.leb_spec left right) as [_ | Hgt]; [| lia].
  pose proof (middle_between left right Hle) as Hmid.
  set (middle := (left + right) `quot` 2) in *.
  destruct (at_index_in_range tbl middle) as [e He]; [lia |].
  rewrite He. pose proof He as [_ Hen]%at_index_Some.
  destruct (Z.ltb_spec offset (Start e)) as [Hlt | Hge].
  - apply IH; try lia; [done |].
    intros i e' He' Hi. pose proof He' as [Hi0 Hen']%at_index_Some.
    pose proof (starts_monotone tbl Hok (Z.to_nat middle) (Z.to_nat i) e e'
                  ltac:(lia) Hen Hen'). lia.
  - destruct (Z.geb_spec offset (endOffset e)) as [Hpast | Hin].
    + apply IH; try lia; [| intros j ej Hj Hlt; apply (Hright j ej); [done | lia]].
      intros i e' He' Hi. pose proof He' as [Hi0 Hen']%at_index_Some.
      destruct (Z_lt_ge_dec i middle) as [Hbefore | Hat].
      * pose proof (end_before_later_start tbl Hok (Z.to_nat i) (Z.to_nat middle) e' e
                      ltac:(lia) Hen' Hen). lia.
      * assert (i = middle) as -> by lia.
        rewrite He in He'. injection He' as <-.
        destruct (Z.eq_dec (middle + 1) (len tbl)) as [Hlast | Hinner].
        -- replace (Z.to_nat middle) with (pred (length tbl)) in Hen
             by (unfold len in *; lia).
           rewrite Hfl in Hen. injection Hen as <-. lia.
        -- destruct (at_index_in_range tbl (middle + 1)) as [e' [_ He']%at_index_Some];
             [lia |].
           replace (Z.to_nat (middle + 1)) with (S (Z.to_nat middle)) in He' by lia.
           rewrite (endOffset_inner tbl Hok _ _ _ Hen He') in Hpast.
           rewrite (st_contiguous tbl Hok _ _ _ Hen He') in Hpast. lia.
    + exists middle, e. repeat split; [done | lia |].
      apply (below_endOffset tbl Hok _ _ offset Hen); lia.
Qed.
End BinarySearch.

(** ** The indirect reader *)

Section Reader.
Context {E : Type}.
Variable X : Collaborators E.
Variable indirectStreamType : string.
Variable sprint_ObjectID : ObjectID -> string.
Variable jsonstream_NewReader : ObjectReader -> string -> M E (error + jsonstreamReader).
Variable newObjectSectionReader : Z -> Z -> ObjectReader -> error + ObjectReader.
Variable io_ReadFull : ObjectReader -> list byte -> M E (list byte * option error).

Local Abbreviation Open :=
  (Open X indirectStreamType sprint_ObjectID jsonstream_NewReader newObjectSectionReader).
Local Abbreviation openCurrentChunk :=
  (openCurrentChunk X indirectStreamType sprint_ObjectID jsonstream_NewReader
                    newObjectSectionReader io_ReadFull).
Local Abbreviation Seek :=
  (Seek X indirectStreamType sprint_ObjectID jsonstream_NewReader
        newObjectSectionReader io_ReadFull).
Local Abbreviation Read :=
  (Read X indirectStreamType sprint_ObjectID jsonstream_NewReader
        newObjectSectionReader io_ReadFull).

(** *** Termination *)

(** The binary search always comes to an end within its fuel. *)
Lemma findChunkIndex_loop_terminates (tbl : list entry) (offset : Z) fuel left right :
  right - left + 1 <= Z.of_nat fuel ->
  exists o, findChunkIndex_loop fuel tbl offset left right = Some o.
Proof.
  revert left right. induction fuel as [| fuel IH]; intros left right Hfuel; simpl;
    destruct (Z.leb_spec left right) as [Hle | Hgt]; try lia; try by eexists.
  pose proof (middle_between left right Hle).
  destruct (at_index tbl ((left + right) `quot` 2)) as [e |]; [| by eexists].
  destruct (offset <? Start e); [apply IH; lia |].
  destruct (offset >=? endOffset e); [apply IH; lia | by eexists].
Qed.

Lemma findChunkIndexForOffset_terminates (r : objectReader) (offset : Z) :
  exists o, findChunkIndexForOffset r offset = Some o.
Proof. apply findChunkIndex_loop_terminates. unfold len. lia. Qed.

(** [Seek] comes to an end: it returns or panics. *)
Lemma Seek_terminates (r : objectReader) (offset whence : Z) (m : ObjectManager E) :
  exists o, Seek r offset whence m = Some o.
Proof.
  assert (Habs : forall off, exists o,
               Seek_absolute X indirectStreamType sprint_ObjectID jsonstream_NewReader
                             newObjectSectionReader io_ReadFull r off m = Some o).
  { intros off. unfold Seek_absolute.
    destruct (off <? 0); [by eexists |].
    destruct (findChunkIndexForOffset_terminates
                r (if off >? totalLength r then totalLength r else off)) as [[k | msg] ->];
      [| by eexists].
    destruct (at_index (seekTable r) k); [| by eexists].
    match goal with |- context [match ?o with Return _ => _ | Panic _ => _ end] =>
      destruct o as [[? ?] |] end; by eexists. }
  unfold Seek. destruct (whence =? 1); [apply Habs |].
  destruct (whence =? 2); apply Habs.
Qed.

Lemma openCurrentChunk_opened (r r' : objectReader) (m m' : ObjectManager E) :
  openCurrentChunk r m = Return ((None, r'), m') ->
  seekTable r' = seekTable r
  /\ currentChunkIndex r' = currentChunkIndex r
  /\ is_Some (currentChunkData r')
  /\ 0 <= currentChunkIndex r.
Proof.
  unfold openCurrentChunk.
  destruct (at_index (seekTable r) (currentChunkIndex r)) as [st |] eqn:Hst;
    [| discriminate].
  apply at_index_Some in Hst as [Hi _].
  unfold mbind, M_bind.
  destruct (Open (Object st) m) as [[[err | blockData] m1] | msg]; try discriminate.
  destruct (Length st <? 0); [discriminate |].
  destruct (io_ReadFull _ _ m1) as [[[b [err |]] m2] | msg]; try discriminate.
  intros [= <- <-]. simpl. eauto.
Qed.

(** The reading loop comes to an end within its fuel. *)
Lemma Read_loop_terminates fuel buffer readBytes remaining r m :
  0 <= remaining ->
  int64_range (currentChunkIndex r) ->
  remaining + Read_rank r < Z.of_nat fuel ->
  exists o, Read_loop X indirectStreamType sprint_ObjectID jsonstream_NewReader
                      newObjectSectionReader io_ReadFull
                      fuel buffer readBytes remaining r m = Some o.
Proof.
  revert buffer readBytes remaining r m.
  induction fuel as [| fuel IH]; intros buffer readBytes remaining r m Hrem Hidx Hfuel.
  { exfalso. unfold Read_rank in Hfuel.
    destruct (currentChunkData r), (currentChunkIndex r <? 0); unfold len in *; lia. }
  simpl. destruct (Z.gtb_spec remaining 0) as [Hpos | Hzero];
    [| unfold Read_return; destruct (readBytes =? 0); by eexists].
  destruct (currentChunkData r) as [data |] eqn:Hdata.
  - destruct (Z.eqb_spec (int64 (len data - currentChunkPosition r)) 0) as [Hz | Hnz].
    + (* the chunk is exhausted: on to the next index *)
      apply IH; [done | apply int64_in_range |].
      unfold Read_rank in *. simpl. rewrite Hdata in Hfuel.
      destruct Hidx as [Hlo Hhi].
      destruct (Z.eq_dec (currentChunkIndex r) (2 ^ 63 - 1)) as [Hmax | Hnmax].
      * rewrite Hmax in *. change (int64 (2 ^ 63 - 1 + 1)) with (- 2 ^ 63).
        simpl in *. lia.
      * rewrite (int64_small (currentChunkIndex r + 1)) by (unfold int64_range; lia).
        destruct (Z.ltb_spec (currentChunkIndex r) 0),
                 (Z.ltb_spec (currentChunkIndex r + 1) 0); unfold len in *; lia.
    + set (toCopy := if int64 (len data - currentChunkPosition r) >? remaining
                     then remaining
                     else int64 (len data - currentChunkPosition r)).
      destruct (slice data (currentChunkPosition r)
                      (int64 (currentChunkPosition r + toCopy))) as [src |] eqn:Hslice;
        [| by eexists].
      apply slice_Some in Hslice.
      pose proof (int64_in_range (len data - currentChunkPosition r)) as [Hc1 Hc2].
      pose proof (int64_in_range (currentChunkPosition r + toCopy)) as [Hh1 Hh2].
      assert (Hbounds : - 2 ^ 63 <= toCopy <= remaining /\ toCopy <> 0).
      { subst toCopy.
        destruct (Z.gtb_spec (int64 (len data - currentChunkPosition r)) remaining); lia. }
      assert (Hprogress : 1 <= toCopy).
      { destruct (Z_lt_ge_dec toCopy 0) as [Hneg | ?]; [exfalso | lia].
        destruct (Z_lt_ge_dec (currentChunkPosition r) (2 ^ 63)) as [Hsmall | Hbig];
          [| lia].
        rewrite int64_small in Hslice by (unfold int64_range; lia). lia. }
      apply IH; [lia | done |].
      unfold Read_rank in *. simpl. rewrite Hdata in *. lia.
  - destruct (Z.ltb_spec (currentChunkIndex r) (len (seekTable r))) as [Hin | Hout];
      [| unfold Read_return; destruct (readBytes =? 0); by eexists].
    destruct (openCurrentChunk r m) as [[[[err |] r'] m'] | msg] eqn:Hopen;
      try by eexists.
    apply openCurrentChunk_opened in Hopen as (Htbl & Hi & [data' Hdata'] & Hi0).
    apply IH; [done | by rewrite Hi |].
    unfold Read_rank in *. rewrite Htbl, Hi, Hdata'. rewrite Hdata in Hfuel.
    destruct (Z.ltb_spec (currentChunkIndex r) 0); lia.
Qed.

(** [Read] comes to an end: it returns or panics. *)
Lemma Read_terminates (r : objectReader) (buffer : list byte) (m : ObjectManager E) :
  int64_range (currentChunkIndex r) ->
  exists o, Read r buffer m = Some o.
Proof.
  intros Hidx. apply Read_loop_terminates; [unfold len; lia | done |].
  unfold Read_rank, len.
  destruct (currentChunkData r), (Z.ltb_spec (currentChunkIndex r) 0); lia.
Qed.

(** *** The binary search on well-formed tables *)

(** The search started by [findChunkIndexForOffset] on a well-formed
    table, for an offset inside the object. *)
Lemma findChunkIndexForOffset_hit (r : objectReader) (offset : Z) (final : entry) :
  seekTable_ok (seekTable r) ->
  last (seekTable r) = Some final ->
  0 <= offset < endOffset final ->
  exists k e, findChunkIndexForOffset r offset = Some (Return k)
              /\ at_index (seekTable r) k = Some e /\ covers e offset.
Proof.
  intros Hok Hlast Hoff. unfold findChunkIndexForOffset.
  apply (findChunkIndex_loop_hit (seekTable r) offset Hok final Hlast Hoff);
    unfold len; try lia.
  - intros i e [Hi _]%at_index_Some. lia.
  - intros i e Hi%at_index_lt. unfold len in Hi. lia.
Qed.

(** C5: on a seek table whose entries are contiguous and strictly
    ascending from a first start of 0, and for an offset with
    [0 <= offset < total length], [findChunkIndexForOffset] returns the
    one index [i] with [Start <= offset < Start + Length]. *)
Theorem findChunkIndexForOffset_unique_chunk
        (r : objectReader) (offset : Z) (final : entry) :
  seekTable_ok (seekTable r) ->
  last (seekTable r) = Some final ->
  totalLength r = endOffset final ->
  0 <= offset < totalLength r ->
  exists (i : nat) (e : entry),
    findChunkIndexForOffset r offset = Some (Return (Z.of_nat i))
    /\ seekTable r !! i = Some e
    /\ covers e offset
    /\ forall j e', seekTable r !! j = Some e' -> covers e' offset -> j = i.
Proof.
  intros Hok Hlast Htotal Hoff. rewrite Htotal in Hoff.
  destruct (findChunkIndexForOffset_hit r offset final Hok Hlast Hoff)
    as (k & e & Hfind & [Hk He]%at_index_Some & Hcov).
  exists (Z.to_nat k), e. rewrite Z2Nat.id by done.
  repeat split; try done; try apply Hcov.
  intros j e' Hj Hcov'.
  apply (covers_unique (seekTable r) Hok j (Z.to_nat k) e' e offset); done.
Qed.

(** On a well-formed table whose lengths are not negative no chunk
    contains the total length or anything beyond it. *)
Lemma no_chunk_at_end (tbl : list entry) (final : entry) (i : Z) (e : entry) :
  seekTable_ok tbl ->
  Forall (fun e => 0 <= Length e) tbl ->
  last tbl = Some final ->
  at_index tbl i = Some e ->
  ~ (Start e <= endOffset final < endOffset e).
Proof.
  intros Hok Hlen Hlast [Hi He]%at_index_Some Hin.
  rewrite last_lookup in Hlast.
  pose proof (lookup_lt_Some _ _ _ He) as Hlt.
  pose proof (starts_nonneg tbl Hok _ _ Hlast) as Hs0.
  destruct (in_range_lookup tbl Hok _ _ Hlast) as [[_ Hs] [_ Hl]].
  rewrite Forall_lookup in Hlen. pose proof (Hlen _ _ Hlast) as Hl0. simpl in Hl0.
  assert (Hcases : endOffset final = Start final + Length final
                   \/ endOffset final < 0).
  { unfold endOffset.
    destruct (Z_lt_ge_dec (Start final + Length final) (2 ^ 63)).
    - left. apply int64_small. unfold int64_range. lia.
    - right. rewrite int64_overflow; lia. }
  destruct Hcases as [Hexact | Hneg].
  - destruct (Nat.eq_dec (Z.to_nat i) (pred (length tbl))) as [Heq | Hne].
    + rewrite Heq, Hlast in He. injection He as <-. lia.
    + pose proof (end_before_later_start tbl Hok (Z.to_nat i) (pred (length tbl)) e final
                    ltac:(lia) He Hlast) as Hend.
      destruct (lookup_lt_is_Some_2 tbl (S (Z.to_nat i))) as [e' He']; [lia |].
      rewrite (endOffset_inner tbl Hok _ _ _ He He') in Hin.
      rewrite (st_contiguous tbl Hok _ _ _ He He') in Hin. lia.
  - pose proof (starts_nonneg tbl Hok _ _ He). lia.
Qed.

(** C2: a seek from the start to an offset beyond the total length sets
    the offset to the total length and then, on every seek table that
    satisfies the invariants, runs into the panic at the end of the
    binary search instead of returning the total length. *)
Theorem Seek_beyond_end_panics
        (r : objectReader) (offset : Z) (final : entry) (m : ObjectManager E) :
  seekTable_ok (seekTable r) ->
  Forall (fun e => 0 <= Length e) (seekTable r) ->
  last (seekTable r) = Some final ->
  totalLength r = endOffset final ->
  0 <= offset -> totalLength r < offset ->
  Seek r offset 0 m = Some (Panic "Unreachable code").
Proof.
  intros Hok Hlen Hlast Htotal H0 Hbeyond.
  unfold Seek, Seek_absolute. simpl.
  destruct (Z.ltb_spec offset 0); [lia |].
  destruct (Z.gtb_spec offset (totalLength r)); [| lia].
  unfold findChunkIndexForOffset.
  rewrite findChunkIndex_loop_miss; [done | | lia | | unfold len; lia].
  - intros i e He. rewrite Htotal.
    apply (no_chunk_at_end (seekTable r) final i e); done.
  - rewrite last_lookup in Hlast. apply lookup_lt_Some in Hlast.
    unfold len. lia.
Qed.

(** A seek from the start to a negative offset fails. *)
Lemma Seek_negative_fails (r : objectReader) (offset : Z) (m : ObjectManager E) :
  offset < 0 ->
  Seek r offset 0 m = Some (Return ((-1, Some (Errorf "Invalid seek."), r), m)).
Proof.
  intros H. unfold Seek, Seek_absolute. simpl.
  by destruct (Z.ltb_spec offset 0); [| lia].
Qed.

(** C3: when the chunk a seek lands in has to be opened and opening its
    object fails, [Seek] still returns the new position and no error;
    the reader is left without chunk data. *)
Theorem Seek_drops_open_error
        (r : objectReader) (offset : Z) (final : entry) (m m' : ObjectManager E)
        (i : nat) (e : entry) (err : error) :
  seekTable_ok (seekTable r) ->
  last (seekTable r) = Some final ->
  totalLength r = endOffset final ->
  0 <= offset < totalLength r ->
  currentChunkData r = None ->
  seekTable r !! i = Some e -> covers e offset ->
  Open (Object e) m = Return (inl err, m') ->
  exists r',
    Seek r offset 0 m = Some (Return ((offset, None, r'), m'))
    /\ currentChunkData r' = None
    /\ currentPosition r' = offset.
Proof.
  intros Hok Hlast Htotal Hoff Hdata Hi Hcov Hopen.
  unfold Seek, Seek_absolute. simpl.
  destruct (Z.ltb_spec offset 0); [lia |].
  destruct (Z.gtb_spec offset (totalLength r)); [lia |].
  rewrite Htotal in Hoff.
  destruct (findChunkIndexForOffset_hit r offset final Hok Hlast Hoff)
    as (k & ek & -> & Hk & Hcovk).
  rewrite Hk. pose proof Hk as [Hk0 Hkn]%at_index_Some.
  assert (Z.to_nat k = i) as Hki
    by (apply (covers_unique (seekTable r) Hok _ _ ek e offset); done).
  subst i. rewrite Hkn in Hi. injection Hi as ->.
  assert (Hopened : forall r0, seekTable r0 = seekTable r -> currentChunkIndex r0 = k ->
                               openCurrentChunk r0 m = Return ((Some err, r0), m')).
  { intros r0 Hst Hidx. unfold openCurrentChunk.
    rewrite Hst, Hidx, Hk. unfold mbind, M_bind. by rewrite Hopen. }
  case_bool_decide as Hidx.
  - simpl. rewrite Hopened by done. eexists. split; [reflexivity |]. done.
  - rewrite Hdata. rewrite Hopened by (done || (symmetry; by apply dec_stable)).
    eexists. split; [reflexivity |]. simpl. done.
Qed.

(** C4: a [Read] into a buffer of length zero returns 0 and [io.EOF],
    wherever the reader stands, and leaves the reader as it was. *)
Theorem Read_empty_buffer_returns_EOF (r : objectReader) (m : ObjectManager E) :
  Read r [] m = Some (Return (([], 0, Some io_EOF, r), m)).
Proof. reflexivity. Qed.
End Reader.

(** ** The hash-encrypt-write pipeline and the raw reader *)

Section Pipeline.
Context {E : Type}.
Variable X : Collaborators E.
Variable NullObjectID : ObjectID.

Variable r : ObjectManager E.
Variable packGroup prefix : string.
Variable buffer : option (list byte).
Variable disablePacking : bool.

Local Abbreviation data := (bufferBytes buffer).
Local Abbreviation objectID := (prefixedObjectID (formatter r) prefix data).
Local Abbreviation afterCheck := (checked r data (StorageBlock objectID)).

(** The pack branch: what is handed to the pack manager. *)
Lemma hashEncryptAndWrite_packed :
  packs X r data disablePacking = true ->
  hashEncryptAndWrite X NullObjectID packGroup buffer prefix disablePacking r
  = outside (Call_AddToPack packGroup (prefix +:+ StorageBlock objectID) data)
            (packMgr_AddToPack X packGroup (prefix +:+ StorageBlock objectID) data)
            (hashed r data).
Proof.
  unfold packs. intros Hp. unfold prefixedObjectID.
  unfold hashEncryptAndWrite, mbind, M_bind, asks, modify_stats. simpl.
  rewrite Hp. reflexivity.
Qed.

(** The branch of the existence check, up to the point where the size
    lookup has answered. *)
Lemma hashEncryptAndWrite_checked blockSize err e' :
  packs X r data disablePacking = false ->
  blockSizeCache_getSize X (StorageBlock objectID) (world r) = ((blockSize, err), e') ->
  hashEncryptAndWrite X NullObjectID packGroup buffer prefix disablePacking r
  = if bool_decide (err = None) && (blockSize =? len data) then
      Return ((objectID, None),
              mkObjectManager (add_PresentBlocks 1 (stats (afterCheck e')))
                              (format r) (formatter r) e' (calls (afterCheck e')))
    else if bool_decide (err ≠ None) && bool_decide (err ≠ Some blob_ErrBlockNotFound) then
      Return ((NullObjectID, err), afterCheck e')
    else
      let encrypting :=
        mkObjectManager (add_EncryptedBytes (len data) (stats (afterCheck e')))
                        (format r) (formatter r) e'
                        (calls (afterCheck e') ++ [Call_Encrypt data objectID 0]) in
      let '(c, err) := Encrypt (formatter r) data objectID 0 in
      match err with
      | Some e => Return ((NullObjectID, Some e), encrypting)
      | None =>
          let '(err, e'') := storage_PutBlock X (StorageBlock objectID) c e' in
          let stored :=
            mkObjectManager
              (add_WrittenBytes (len c) (add_WrittenBlocks 1 (stats encrypting)))
              (format r) (formatter r) e''
              (calls encrypting ++ [Call_PutBlock (StorageBlock objectID) c]) in
          match err with
          | Some e => Return ((NullObjectID, Some e), stored)
          | None => Return ((objectID, None), stored)
          end
      end.
Proof.
  unfold packs. intros Hp Hsize. unfold checked, prefixedObjectID in *.
  unfold hashEncryptAndWrite, mbind, M_bind, asks, modify_stats, outside, cipher. simpl.
  rewrite Hp. simpl. rewrite Hsize.
  destruct (bool_decide (err = None) && (blockSize =? len data)); [reflexivity |].
  destruct (bool_decide (err ≠ None) && bool_decide (err ≠ Some blob_ErrBlockNotFound));
    [reflexivity |].
  simpl. destruct (Encrypt (formatter r) data _ 0) as [c [e |]]; [reflexivity |].
  simpl. destruct (storage_PutBlock X _ c e') as [[e |] e'']; reflexivity.
Qed.

(** C8: with packing taken, the chunk goes to the pack manager under a
    name in which [prefix] stands twice in front of the hash-derived
    block name (once from the ObjectID, once more at the call), and the
    pack manager's answer is returned as it is. *)
Theorem hashEncryptAndWrite_pack_name_prefixed_twice
        (packOID : ObjectID) (err : option error) (e' : E) :
  packs X r data disablePacking = true ->
  packMgr_AddToPack X packGroup
    (prefix +:+ (prefix +:+ StorageBlock (ComputeObjectID (formatter r) data)))
    data (world r) = ((packOID, err), e') ->
  exists r',
    hashEncryptAndWrite X NullObjectID packGroup buffer prefix disablePacking r
    = Return ((packOID, err), r')
    /\ calls r' = calls r ++ [Call_AddToPack packGroup
                                (prefix +:+ (prefix +:+ StorageBlock
                                               (ComputeObjectID (formatter r) data)))
                                data]
    /\ world r' = e'.
Proof.
  intros Hp Hadd. rewrite hashEncryptAndWrite_packed by done.
  unfold prefixedObjectID, outside.
  destruct (ComputeObjectID (formatter r) data) as [hash ? ? ? ?] eqn:Hid.
  simpl in *. rewrite Hadd. eexists. split; [reflexivity |]. done.
Qed.

(** C7: when the existence check answers with an error other than the
    not-found error, the call returns the null ObjectID with that error;
    the size lookup is the only call it has made, so nothing was
    encrypted and nothing was put. *)
Theorem hashEncryptAndWrite_check_error_aborts (blockSize : Z) (err : error) (e' : E) :
  packs X r data disablePacking = false ->
  blockSizeCache_getSize X (StorageBlock objectID) (world r) = ((blockSize, Some err), e') ->
  err <> blob_ErrBlockNotFound ->
  exists r',
    hashEncryptAndWrite X NullObjectID packGroup buffer prefix disablePacking r
    = Return ((NullObjectID, Some err), r')
    /\ calls r' = calls r ++ [Call_getSize (StorageBlock objectID)]
    /\ world r' = e'
    /\ EncryptedBytes (stats r') = EncryptedBytes (stats r)
    /\ WrittenBlocks (stats r') = WrittenBlocks (stats r)
    /\ WrittenBytes (stats r') = WrittenBytes (stats r).
Proof.
  intros Hp Hsize Hne.
  rewrite (hashEncryptAndWrite_checked blockSize (Some err) e' Hp Hsize).
  assert (bool_decide (Some err = None) = false) as ->
    by (by apply bool_decide_eq_false_2).
  assert (bool_decide (Some err ≠ None) = true) as ->
    by (by apply bool_decide_eq_true_2).
  assert (bool_decide (Some err ≠ Some blob_ErrBlockNotFound) = true) as ->
    by (apply bool_decide_eq_true_2; congruence).
  simpl. eexists. split; [reflexivity |]. done.
Qed.

(** C6: a chunk that reaches the existence check is a dedupe hit (the
    ObjectID is returned, the present-blocks counter goes up by one and
    the size lookup is the only call made) exactly when the cache
    reports the block without error and with the size of the ciphertext
    that would be stored for the chunk. *)
Theorem hashEncryptAndWrite_dedupe_hit_iff
        (blockSize : Z) (err : option error) (e' : E) (c : list byte) :
  length_preserving (formatter r) ->
  packs X r data disablePacking = false ->
  blockSizeCache_getSize X (StorageBlock objectID) (world r) = ((blockSize, err), e') ->
  Encrypt (formatter r) data objectID 0 = (c, None) ->
  (exists r',
      hashEncryptAndWrite X NullObjectID packGroup buffer prefix disablePacking r
      = Return ((objectID, None), r')
      /\ calls r' = calls r ++ [Call_getSize (StorageBlock objectID)]
      /\ PresentBlocks (stats r') = int32 (PresentBlocks (stats r) + 1))
  <-> (err = None /\ blockSize = len c).
Proof.
  intros Hlp Hp Hsize Henc.
  assert (Hlen : len c = len data) by (unfold len; f_equal; eapply Hlp, Henc).
  rewrite (hashEncryptAndWrite_checked blockSize err e' Hp Hsize).
  rewrite Hlen. split.
  - intros (r' & Hres & Hcalls & _).
    destruct (bool_decide (err = None) && (blockSize =? len data)) eqn:Hhit.
    { apply andb_true_iff in Hhit as [Herr%bool_decide_eq_true Hsz%Z.eqb_eq]. done. }
    exfalso.
    destruct (bool_decide (err ≠ None) && bool_decide (err ≠ Some blob_ErrBlockNotFound))
      eqn:Hfatal.
    { apply andb_true_iff in Hfatal as [Herr%bool_decide_eq_true _]. congruence. }
    rewrite Henc in Hres. simpl in Hres.
    destruct (storage_PutBlock X (StorageBlock objectID) c e') as [[e |] e''];
      [discriminate |].
    injection Hres as <-. simpl in Hcalls.
    apply (f_equal length) in Hcalls. rewrite !length_app in Hcalls. simpl in Hcalls. lia.
  - intros [-> ->]. rewrite bool_decide_eq_true_2 by done. rewrite Z.eqb_refl. simpl.
    eexists. split; [reflexivity |]. done.
Qed.
End Pipeline.

Section RawReader.
Context {E : Type}.
Variable X : Collaborators E.
Variable r : ObjectManager E.
Variable objectID : ObjectID.

(** C9: once the blob is fetched and decrypted, a raw read compares the
    block name computed from the plaintext with the requested block
    name.  On a match the valid-blocks counter goes up by one and a
    reader over the plaintext is returned; on a mismatch the
    invalid-blocks counter goes up by one and the read fails with the
    invalid-checksum error. *)
Theorem newRawReader_verifies_checksum
        (p : ObjectIDSection) (ok : bool) (e1 e2 : E) (payload plaintext : list byte) :
  packMgr_blockIDToPackSection X (StorageBlock objectID) (world r) = ((p, ok, None), e1) ->
  (if ok
   then storage_GetBlock X (StorageBlock (OIDSection.Base p))
                         (OIDSection.Start p) (OIDSection.Length p) e1
   else storage_GetBlock X (StorageBlock objectID) 0 (-1) e1) = ((payload, None), e2) ->
  Decrypt (formatter r) payload
          (if ok then OIDSection.Base p else objectID)
          (if ok then OIDSection.Start p else 0) = (plaintext, None) ->
  (checksum_matches (formatter r) plaintext (StorageBlock objectID) ->
   exists r',
     newRawReader X objectID r = Return (inr (newObjectReaderWithData plaintext), r')
     /\ ValidBlocks (stats r') = int32 (ValidBlocks (stats r) + 1)
     /\ InvalidBlocks (stats r') = InvalidBlocks (stats r))
  /\ (~ checksum_matches (formatter r) plaintext (StorageBlock objectID) ->
      exists r',
        newRawReader X objectID r
        = Return (inl (invalidChecksum (formatter r) plaintext (StorageBlock objectID)), r')
        /\ InvalidBlocks (stats r') = int32 (InvalidBlocks (stats r) + 1)
        /\ ValidBlocks (stats r') = ValidBlocks (stats r)).
Proof.
  intros Hpack Hget Hdec. unfold checksum_matches, invalidChecksum.
  unfold newRawReader, verifyChecksum, mbind, M_bind, outside, cipher, modify_stats, asks.
  simpl. rewrite Hpack. simpl.
  destruct ok; simpl; rewrite Hget; simpl; rewrite Hdec; simpl;
    (destruct (HasSuffix (StorageBlock objectID)
                         (StorageBlock (ComputeObjectID (formatter r) plaintext)));
     simpl; split; intros Hm; try done;
     eexists; (split; [reflexivity |]); done).
Qed.
End RawReader.

(** ** Opening an indirect object *)

Section OpenIndirect.
Context {E : Type}.
Variable X : Collaborators E.
Variable indirectStreamType : string.
Variable sprint_ObjectID : ObjectID -> string.
Variable jsonstream_NewReader : ObjectReader -> string -> M E (error + jsonstreamReader).
Variable newObjectSectionReader : Z -> Z -> ObjectReader -> error + ObjectReader.

Local Abbreviation Open :=
  (Open X indirectStreamType sprint_ObjectID jsonstream_NewReader newObjectSectionReader).

(** C10: when the list chunk of an indirect ObjectID opens and parses
    as a stream that ends properly without a single record, [Open]
    panics on the index of the last seek-table entry; no error value
    reaches the caller. *)
Theorem Open_indirect_without_entries_panics
        (objectID target : ObjectID) (rd : ObjectReader) (pr : jsonstreamReader)
        (r r1 r2 : ObjectManager E) :
  Section_ objectID = None ->
  Indirect objectID = Some target ->
  Open target r = Return (inr rd, r1) ->
  jsonstream_NewReader rd indirectStreamType r1 = Return (inr pr, r2) ->
  records pr = [] ->
  ending pr = io_EOF ->
  Open objectID r = Panic index_out_of_range.
Proof.
  intros Hsec Hind Hopen Hparse Hrec Hend.
  destruct objectID as [name ind text bin sec]. simpl in Hsec, Hind. subst sec ind.
  simpl. unfold mbind, M_bind. rewrite Hopen.
  unfold flattenListChunk, mbind, M_bind. rewrite Hparse, Hrec, Hend. reflexivity.
Qed.
End OpenIndirect.

(** ** Initialization *)

Section InitializeProperties.
Context {S R K : Type}.
Variable PutBlock : string -> list byte -> S -> option error * S.
Variable rand_Read : Z -> R -> list byte * R.
Variables MetadataBlockPrefix formatBlockID repositoryConfigBlockID : string.
Variables DefaultKeyDerivationAlgorithm DefaultMetadataEncryptionAlgorithm : string.
Variables DefaultObjectSplitter DefaultObjectFormat : string.
Variable json_Marshal : MetadataFormat -> list byte * option error.
Variable initCrypto : MetadataManager K -> option error * MetadataManager K.
Variable putJSON :
  MetadataManager K -> string -> EncryptedRepositoryConfig -> S -> option error * S.

Local Abbreviation Initialize :=
  (Initialize PutBlock rand_Read MetadataBlockPrefix formatBlockID repositoryConfigBlockID
              DefaultKeyDerivationAlgorithm DefaultMetadataEncryptionAlgorithm
              DefaultObjectSplitter DefaultObjectFormat json_Marshal initCrypto putJSON).
Local Abbreviation metadataFormatFromOptions :=
  (metadataFormatFromOptions rand_Read DefaultKeyDerivationAlgorithm
                             DefaultMetadataEncryptionAlgorithm).
Local Abbreviation repositoryObjectFormatFromOptions :=
  (repositoryObjectFormatFromOptions rand_Read DefaultObjectSplitter DefaultObjectFormat).

End InitializeProperties.

(** ** The properties on the sample repository *)

Lemma oneChunk_ok : seekTable_ok (seekTable Sample.oneChunk).
Proof.
  split.
  - repeat constructor; vm_compute; intuition discriminate.
  - intros e [= <-]. reflexivity.
  - intros [| i] e e' H H'; simpl in *; discriminate.
  - intros [| i] e e' H H'; simpl in *; discriminate.
Qed.

Lemma twoChunks_ok : seekTable_ok (seekTable Sample.twoChunks).
Proof.
  split.
  - repeat constructor; vm_compute; intuition discriminate.
  - intros e [= <-]. reflexivity.
  - intros [| [| i]] e e' H H'; simpl in *; try discriminate.
    injection H as <-. injection H' as <-. reflexivity.
  - intros [| [| i]] e e' H H'; simpl in *; try discriminate.
    injection H as <-. injection H' as <-. simpl. lia.
Qed.

Lemma plain_length_preserving : length_preserving Sample.plain.
Proof. intros data oid skip c [= <-]. reflexivity. Qed.

(** Offset 5 of the two-chunk object lies in the second chunk. *)
Lemma findChunkIndexForOffset_unique_chunk_witness :
  exists (i : nat) (e : entry),
    findChunkIndexForOffset Sample.twoChunks 5 = Some (Return (Z.of_nat i))
    /\ seekTable Sample.twoChunks !! i = Some e
    /\ covers e 5
    /\ forall j e', seekTable Sample.twoChunks !! j = Some e' -> covers e' 5 -> j = i.
Proof.
  apply (findChunkIndexForOffset_unique_chunk
           Sample.twoChunks 5 (indirectObjectEntry.mk 4 6 (Sample.raw "c1"))).
  - exact twoChunks_ok.
  - reflexivity.
  - reflexivity.
  - simpl. lia.
Defined.

Example findChunkIndexForOffset_second_chunk :
  findChunkIndexForOffset Sample.twoChunks 5 = Some (Return 1).
Proof. reflexivity. Qed.

(** Seeking to 11 in an object of 10 bytes panics. *)
Lemma Seek_beyond_end_panics_witness :
  Sample.Seek Sample.oneChunk 11 0 (Sample.manager Sample.empty)
  = Some (Panic "Unreachable code").
Proof.
  apply (Seek_beyond_end_panics Sample.X Sample.indirectStreamType StorageBlock
           Sample.jsonstream_NewReader Sample.newObjectSectionReader Sample.io_ReadFull
           Sample.oneChunk 11 (indirectObjectEntry.mk 0 10 (Sample.raw "c0"))).
  - exact oneChunk_ok.
  - repeat constructor. simpl. lia.
  - reflexivity.
  - reflexivity.
  - lia.
  - simpl. lia.
Defined.

(** Seeking to the very end panics as well. *)
Example Seek_to_end_panics :
  Sample.Seek Sample.oneChunk 10 0 (Sample.manager Sample.empty)
  = Some (Panic "Unreachable code").
Proof. reflexivity. Qed.

(** The chunk [c0] is not in the empty store: opening it fails, the seek
    reports success. *)
Lemma Seek_drops_open_error_witness :
  exists r',
    Sample.Seek Sample.oneChunk 5 0 (Sample.manager Sample.empty)
    = Some (Return ((5, None, r'),
                    mkObjectManager Sample.noStats Sample.format Sample.plain Sample.empty
                                    [Call_blockIDToPackSection "c0";
                                     Call_GetBlock "c0" 0 (-1)]))
    /\ currentChunkData r' = None
    /\ currentPosition r' = 5.
Proof.
  apply (Seek_drops_open_error Sample.X Sample.indirectStreamType StorageBlock
           Sample.jsonstream_NewReader Sample.newObjectSectionReader Sample.io_ReadFull
           Sample.oneChunk 5 (indirectObjectEntry.mk 0 10 (Sample.raw "c0"))
           (Sample.manager Sample.empty) _ 0%nat
           (indirectObjectEntry.mk 0 10 (Sample.raw "c0")) blob_ErrBlockNotFound).
  - exact oneChunk_ok.
  - reflexivity.
  - reflexivity.
  - simpl. lia.
  - reflexivity.
  - reflexivity.
  - unfold covers. simpl. lia.
  - vm_compute. reflexivity.
Defined.

(** A read of the same chunk reports the error the seek dropped. *)
Example Read_reports_open_error :
  Sample.Read Sample.oneChunk [x00] (Sample.manager Sample.empty)
  = Some (Return (([x00], 0, Some blob_ErrBlockNotFound, Sample.oneChunk),
                  mkObjectManager Sample.noStats Sample.format Sample.plain Sample.empty
                                  [Call_blockIDToPackSection "c0";
                                   Call_GetBlock "c0" 0 (-1)])).
Proof. vm_compute. reflexivity. Qed.

(** A reader at position 0 of 10 answers a zero-length read with EOF. *)
Example Read_empty_buffer_at_start :
  currentPosition Sample.oneChunk < totalLength Sample.oneChunk
  /\ Sample.Read Sample.oneChunk [] (Sample.manager Sample.empty)
     = Some (Return (([], 0, Some io_EOF, Sample.oneChunk), Sample.manager Sample.empty)).
Proof. split; [simpl; lia | reflexivity]. Qed.

(** Writing [abc] over a store that holds it is a dedupe hit. *)
Lemma hashEncryptAndWrite_dedupe_hit_iff_witness :
  (exists r',
      Sample.hashEncryptAndWrite "" (Some Sample.abc) "" false
                                 (Sample.manager Sample.holding_abc)
      = Return ((Sample.raw "abc", None), r')
      /\ calls r' = [Call_getSize "abc"]
      /\ PresentBlocks (stats r') = 1)
  <-> (@None error = None /\ 3 = len Sample.abc).
Proof.
  apply (hashEncryptAndWrite_dedupe_hit_iff Sample.X Sample.NullObjectID
           (Sample.manager Sample.holding_abc) "" "" (Some Sample.abc) false
           3 None Sample.holding_abc Sample.abc).
  - exact plain_length_preserving.
  - reflexivity.
  - vm_compute. reflexivity.
  - reflexivity.
Defined.

Example hashEncryptAndWrite_dedupe_hit_run :
  Sample.hashEncryptAndWrite "" (Some Sample.abc) "" false
                             (Sample.manager Sample.holding_abc)
  = Return ((Sample.raw "abc", None),
            mkObjectManager (mkStats 1 3 1 1 0 0 0 0 0 0 0 0) Sample.format Sample.plain
                            Sample.holding_abc [Call_getSize "abc"]).
Proof. vm_compute. reflexivity. Qed.

(** Over an empty store the same chunk is encrypted and put. *)
Example hashEncryptAndWrite_upload_run :
  Sample.hashEncryptAndWrite "" (Some Sample.abc) "" false (Sample.manager Sample.empty)
  = Return ((Sample.raw "abc", None),
            mkObjectManager (mkStats 1 3 1 0 3 1 3 0 0 0 0 0) Sample.format Sample.plain
                            Sample.holding_abc
                            [Call_getSize "abc";
                             Call_Encrypt Sample.abc (Sample.raw "abc") 0;
                             Call_PutBlock "abc" Sample.abc]).
Proof. vm_compute. reflexivity. Qed.

(** A failing size lookup aborts the write. *)
Lemma hashEncryptAndWrite_check_error_aborts_witness :
  exists r',
    Sample.hashEncryptAndWrite "" (Some Sample.abc) "" false
                               (Sample.manager Sample.unreachable_store)
    = Return ((Sample.NullObjectID, Some (ForeignError "storage unavailable")), r')
    /\ calls r' = [Call_getSize "abc"]
    /\ world r' = Sample.unreachable_store
    /\ EncryptedBytes (stats r') = 0
    /\ WrittenBlocks (stats r') = 0
    /\ WrittenBytes (stats r') = 0.
Proof.
  apply (hashEncryptAndWrite_check_error_aborts Sample.X Sample.NullObjectID
           (Sample.manager Sample.unreachable_store) "" "" (Some Sample.abc) false
           0 (ForeignError "storage unavailable") Sample.unreachable_store).
  - reflexivity.
  - reflexivity.
  - discriminate.
Defined.

(** With the prefix [P] the pack manager is handed the name [PPabc]. *)
Lemma hashEncryptAndWrite_pack_name_prefixed_twice_witness :
  exists r',
    Sample.hashEncryptAndWrite "g" (Some Sample.abc) "P" false
                               (Sample.manager Sample.packing_store)
    = Return ((Sample.raw "PPabc", None), r')
    /\ calls r' = [Call_AddToPack "g" "PPabc" Sample.abc]
    /\ world r' = Sample.mkState ∅ true [("g", "PPabc", Sample.abc)] None.
Proof.
  apply (hashEncryptAndWrite_pack_name_prefixed_twice Sample.X Sample.NullObjectID
           (Sample.manager Sample.packing_store) "g" "P" (Some Sample.abc) false
           (Sample.raw "PPabc") None
           (Sample.mkState ∅ true [("g", "PPabc", Sample.abc)] None)).
  - reflexivity.
  - reflexivity.
Defined.

(** Without packing the same chunk is stored under [Pabc]. *)
Example hashEncryptAndWrite_unpacked_name :
  exists r',
    Sample.hashEncryptAndWrite "g" (Some Sample.abc) "P" true
                               (Sample.manager Sample.packing_store)
    = Return ((Sample.raw "Pabc", None), r')
    /\ calls r' = [Call_getSize "Pabc";
                   Call_Encrypt Sample.abc (Sample.raw "Pabc") 0;
                   Call_PutBlock "Pabc" Sample.abc].
Proof. eexists. split; [vm_compute; reflexivity | reflexivity]. Qed.

(** Reading [abc] back from the store that holds it. *)
Lemma newRawReader_verifies_checksum_witness :
  (checksum_matches Sample.plain Sample.abc "abc" ->
   exists r',
     Sample.newRawReader (Sample.raw "abc") (Sample.manager Sample.holding_abc)
     = Return (inr (newObjectReaderWithData Sample.abc), r')
     /\ ValidBlocks (stats r') = 1
     /\ InvalidBlocks (stats r') = 0)
  /\ (~ checksum_matches Sample.plain Sample.abc "abc" ->
      exists r',
        Sample.newRawReader (Sample.raw "abc") (Sample.manager Sample.holding_abc)
        = Return (inl (invalidChecksum Sample.plain Sample.abc "abc"), r')
        /\ InvalidBlocks (stats r') = 1
        /\ ValidBlocks (stats r') = 0).
Proof.
  apply (newRawReader_verifies_checksum Sample.X (Sample.manager Sample.holding_abc)
           (Sample.raw "abc") (mkObjectIDSection 0 0 Sample.NullObjectID) false
           Sample.holding_abc Sample.holding_abc Sample.abc Sample.abc).
  - reflexivity.
  - vm_compute. reflexivity.
  - reflexivity.
Defined.

(** A blob whose content does not hash to its name is rejected. *)
Example newRawReader_tampered_blob :
  Sample.newRawReader (Sample.raw "abc")
                      (Sample.manager (Sample.mkState {[ "abc" := [x61; x62; x78] ]}
                                                      false [] None))
  = Return (inl (Errorf "invalid checksum for blob: 'abc', expected abx"),
            mkObjectManager (mkStats 0 0 0 0 0 0 0 1 3 3 0 1) Sample.format Sample.plain
                            (Sample.mkState {[ "abc" := [x61; x62; x78] ]} false [] None)
                            [Call_blockIDToPackSection "abc"; Call_GetBlock "abc" 0 (-1);
                             Call_Decrypt [x61; x62; x78] (Sample.raw "abc") 0]).
Proof. vm_compute. reflexivity. Qed.

(** Opening an indirect ObjectID over a list without entries. *)
Lemma Open_indirect_without_entries_panics_witness :
  Sample.Open Sample.emptyIndirect (Sample.manager Sample.empty)
  = Panic index_out_of_range.
Proof.
  apply (Open_indirect_without_entries_panics Sample.X Sample.indirectStreamType StorageBlock
           Sample.jsonstream_NewReader Sample.newObjectSectionReader
           Sample.emptyIndirect
           (mkObjectID "" None Sample.emptyIndirectList None None)
           (newObjectReaderWithData (String.list_byte_of_string Sample.emptyIndirectList))
           (mkJsonstreamReader [] io_EOF)
           (Sample.manager Sample.empty) (Sample.manager Sample.empty)
           (Sample.manager Sample.empty)).
  - reflexivity.
  - reflexivity.
  - vm_compute. reflexivity.
  - vm_compute. reflexivity.
  - reflexivity.
  - reflexivity.
Defined.



(** Reading the two-chunk object: four bytes, then across the chunk
    boundary, then to the end. *)
Example Read_first_bytes :
  Sample.result (Sample.Read Sample.digits (replicate 4 x00)
                             (Sample.manager Sample.holding_digits))
  = Some (Return (String.list_byte_of_string "0123", 4, None,
                  mkObjectReader (seekTable Sample.digits) 4 10 0
                                 (Some (String.list_byte_of_string "0123")) 4)).
Proof. vm_compute. reflexivity. Qed.

Example Read_whole_object :
  Sample.result (Sample.Read Sample.digits (replicate 12 x00)
                             (Sample.manager Sample.holding_digits))
  = Some (Return (String.list_byte_of_string "0123456789" ++ [x00; x00], 10, None,
                  mkObjectReader (seekTable Sample.digits) 10 10 2 None 6)).
Proof. vm_compute. reflexivity. Qed.

Example Seek_then_Read_across_chunks :
  Sample.seek_then_read Sample.digits 3 3 (Sample.manager Sample.holding_digits)
  = Some (Return (String.list_byte_of_string "345", 3, None)).
Proof. vm_compute. reflexivity. Qed.

Example Seek_last_byte_then_Read :
  Sample.seek_then_read Sample.digits 9 10 (Sample.manager Sample.holding_digits)
  = Some (Return ([x39] ++ replicate 9 x00, 1, None)).
Proof. vm_compute. reflexivity. Qed.

(** * Further properties *)

(** ** Strings *)

Lemma length_append (p s : string) :
  String.length (p +:+ s) = (String.length p + String.length s)%nat.
Proof. induction p as [| c p IH]; simpl; [done | by rewrite IH]. Qed.

Lemma substring_all (s : string) : String.substring 0 (String.length s) s = s.
Proof. induction s as [| c s IH]; simpl; [done | by rewrite IH]. Qed.

Lemma substring_append_r (p s : string) (n : nat) :
  String.substring (String.length p) n (p +:+ s) = String.substring 0 n s.
Proof. induction p as [| c p IH]; simpl; [done | apply IH]. Qed.

(** A block name with a prefix in front still ends with the name. *)
Lemma HasSuffix_append (p s : string) : HasSuffix (p +:+ s) s = true.
Proof.
  unfold HasSuffix. rewrite length_append.
  replace (String.length p + String.length s - String.length s)%nat
    with (String.length p) by lia.
  rewrite substring_append_r, substring_all, String.eqb_refl.
  apply andb_true_iff. split; [| done]. apply Nat.leb_le. lia.
Qed.

Lemma StorageBlock_set (s : string) (o : ObjectID) :
  StorageBlock (set_StorageBlock s o) = s.
Proof. by destruct o. Qed.

(** ** The hash-encrypt-write pipeline, continued *)

Section PipelineMore.
Context {E : Type}.
Variable X : Collaborators E.
Variable NullObjectID : ObjectID.

Variable r : ObjectManager E.
Variable packGroup prefix : string.
Variable buffer : option (list byte).
Variable disablePacking : bool.

Local Abbreviation data := (bufferBytes buffer).
Local Abbreviation objectID := (prefixedObjectID (formatter r) prefix data).
Local Abbreviation afterCheck := (checked r data (StorageBlock objectID)).

Lemma packs_packable :
  packable (format r) data disablePacking = false -> packs X r data disablePacking = false.
Proof.
  unfold packable, packs.
  destruct disablePacking, (packMgr_enabled X (world r)),
    (0 <? MaxPackedContentLength (format r)),
    (len data <=? MaxPackedContentLength (format r)); done.
Qed.

(** The manager a call leaves after an upload of the ciphertext [c]. *)
Lemma hashEncryptAndWrite_upload_state (blockSize : Z) (err : option error) (e' e'' : E)
      (c : list byte) :
  packs X r data disablePacking = false ->
  blockSizeCache_getSize X (StorageBlock objectID) (world r) = ((blockSize, err), e') ->
  err = Some blob_ErrBlockNotFound \/ (err = None /\ blockSize <> len data) ->
  Encrypt (formatter r) data objectID 0 = (c, None) ->
  storage_PutBlock X (StorageBlock objectID) c e' = (None, e'') ->
  hashEncryptAndWrite X NullObjectID packGroup buffer prefix disablePacking r
  = Return ((objectID, None),
            mkObjectManager
              (add_WrittenBytes (len c)
                 (add_WrittenBlocks 1
                    (add_EncryptedBytes (len data) (stats (afterCheck e')))))
              (format r) (formatter r) e''
              (calls r ++ [Call_getSize (StorageBlock objectID);
                           Call_Encrypt data objectID 0;
                           Call_PutBlock (StorageBlock objectID) c])).
Proof.
  intros Hp Hsize Hmiss Henc Hput.
  rewrite (hashEncryptAndWrite_checked X NullObjectID r packGroup prefix buffer
             disablePacking blockSize err e' Hp Hsize).
  assert (bool_decide (err = None) && (blockSize =? len data) = false) as ->.
  { destruct Hmiss as [-> | [-> Hne]]; [done |].
    apply andb_false_iff. right. by apply Z.eqb_neq. }
  assert (bool_decide (err ≠ None) && bool_decide (err ≠ Some blob_ErrBlockNotFound)
          = false) as ->.
  { destruct Hmiss as [-> | [-> Hne]]; [| done].
    apply andb_false_iff. right. apply bool_decide_eq_false_2. tauto. }
  rewrite Henc. simpl. rewrite Hput. simpl. unfold checked. simpl.
  by rewrite <- !app_assoc.
Qed.

(** X1: a chunk whose block the cache does not know, or knows with
    another size, is encrypted and put under the prefixed block name; when
    the put succeeds the ObjectID is returned, the written counters go up
    by one block and by the ciphertext's length, and the calls made are
    the size lookup, the encryption and the put, in that order. *)
Theorem hashEncryptAndWrite_uploads_missing_block
        (blockSize : Z) (err : option error) (e' e'' : E) (c : list byte) :
  packs X r data disablePacking = false ->
  blockSizeCache_getSize X (StorageBlock objectID) (world r) = ((blockSize, err), e') ->
  err = Some blob_ErrBlockNotFound \/ (err = None /\ blockSize <> len data) ->
  Encrypt (formatter r) data objectID 0 = (c, None) ->
  storage_PutBlock X (StorageBlock objectID) c e' = (None, e'') ->
  exists r',
    hashEncryptAndWrite X NullObjectID packGroup buffer prefix disablePacking r
    = Return ((objectID, None), r')
    /\ StorageBlock objectID = prefix +:+ StorageBlock (ComputeObjectID (formatter r) data)
    /\ calls r' = calls r ++ [Call_getSize (StorageBlock objectID);
                              Call_Encrypt data objectID 0;
                              Call_PutBlock (StorageBlock objectID) c]
    /\ world r' = e''
    /\ WrittenBlocks (stats r') = int32 (WrittenBlocks (stats r) + 1)
    /\ WrittenBytes (stats r') = int64 (WrittenBytes (stats r) + len c)
    /\ EncryptedBytes (stats r') = int64 (EncryptedBytes (stats r) + len data)
    /\ PresentBlocks (stats r') = PresentBlocks (stats r).
Proof.
  intros Hp Hsize Hmiss Henc Hput.
  rewrite (hashEncryptAndWrite_upload_state blockSize err e' e'' c) by done.
  eexists. split; [reflexivity |].
  split; [apply StorageBlock_set | done].
Qed.

(** X2: whatever branch a call takes, it returns (it never panics), it
    counts the chunk as hashed exactly once with its length, and it leaves
    the format, the formatter and the counters of the read path alone. *)
Theorem hashEncryptAndWrite_counts_every_chunk :
  exists res r',
    hashEncryptAndWrite X NullObjectID packGroup buffer prefix disablePacking r
    = Return (res, r')
    /\ HashedBlocks (stats r') = int32 (HashedBlocks (stats r) + 1)
    /\ HashedBytes (stats r') = int64 (HashedBytes (stats r) + len data)
    /\ format r' = format r
    /\ formatter r' = formatter r
    /\ ReadBlocks (stats r') = ReadBlocks (stats r)
    /\ ReadBytes (stats r') = ReadBytes (stats r)
    /\ DecryptedBytes (stats r') = DecryptedBytes (stats r)
    /\ ValidBlocks (stats r') = ValidBlocks (stats r)
    /\ InvalidBlocks (stats r') = InvalidBlocks (stats r).
Proof.
  destruct (packs X r data disablePacking) eqn:Hp.
  - rewrite (hashEncryptAndWrite_packed X NullObjectID r packGroup prefix buffer
               disablePacking Hp).
    unfold outside.
    destruct (packMgr_AddToPack X packGroup _ data (world (hashed r data)))
      as [res e'] eqn:Hadd.
    eexists _, _. split; [reflexivity |]. done.
  - destruct (blockSizeCache_getSize X (StorageBlock objectID) (world r))
      as [[blockSize err] e'] eqn:Hsize.
    rewrite (hashEncryptAndWrite_checked X NullObjectID r packGroup prefix buffer
               disablePacking blockSize err e' Hp Hsize).
    destruct (bool_decide (err = None) && (blockSize =? len data));
      [eexists _, _; split; [reflexivity | done] |].
    destruct (bool_decide (err ≠ None) && bool_decide (err ≠ Some blob_ErrBlockNotFound));
      [eexists _, _; split; [reflexivity | done] |].
    destruct (Encrypt (formatter r) data objectID 0) as [c [e |]];
      [eexists _, _; split; [reflexivity | done] |].
    destruct (storage_PutBlock X (StorageBlock objectID) c e') as [[e |] e''];
      eexists _, _; (split; [reflexivity | done]).
Qed.
End PipelineMore.

Section WriteTwice.
Context {E : Type}.
Variable X : Collaborators E.
Variable NullObjectID : ObjectID.

Variable r : ObjectManager E.
Variable packGroup prefix : string.
Variable buffer : option (list byte).
Variable disablePacking : bool.

Local Abbreviation data := (bufferBytes buffer).
Local Abbreviation objectID := (prefixedObjectID (formatter r) prefix data).

(** X3: writing the same chunk twice.  When the first write uploads the
    chunk and the cache afterwards reports the block with the size of what
    was put, the second write returns the same ObjectID as a dedupe hit:
    its only call is the size lookup, the present-blocks counter goes up
    by one and nothing more is written. *)
Theorem hashEncryptAndWrite_twice_dedupes
        (blockSize : Z) (e1 e2 e3 : E) (c : list byte) :
  length_preserving (formatter r) ->
  packable (format r) data disablePacking = false ->
  blockSizeCache_getSize X (StorageBlock objectID) (world r)
  = ((blockSize, Some blob_ErrBlockNotFound), e1) ->
  Encrypt (formatter r) data objectID 0 = (c, None) ->
  storage_PutBlock X (StorageBlock objectID) c e1 = (None, e2) ->
  blockSizeCache_getSize X (StorageBlock objectID) e2 = ((len c, None), e3) ->
  exists r1 r2,
    hashEncryptAndWrite X NullObjectID packGroup buffer prefix disablePacking r
    = Return ((objectID, None), r1)
    /\ hashEncryptAndWrite X NullObjectID packGroup buffer prefix disablePacking r1
       = Return ((objectID, None), r2)
    /\ calls r2 = calls r1 ++ [Call_getSize (StorageBlock objectID)]
    /\ PresentBlocks (stats r2) = int32 (PresentBlocks (stats r) + 1)
    /\ WrittenBlocks (stats r2) = WrittenBlocks (stats r1)
    /\ WrittenBytes (stats r2) = WrittenBytes (stats r1)
    /\ world r2 = e3.
Proof.
  intros Hlp Hpk Hsize1 Henc Hput Hsize2.
  assert (Hlen : len c = len data) by (unfold len; f_equal; eapply Hlp, Henc).
  pose proof (packs_packable X r buffer disablePacking Hpk) as Hp1.
  rewrite (hashEncryptAndWrite_upload_state X NullObjectID r packGroup prefix buffer
             disablePacking blockSize (Some blob_ErrBlockNotFound) e1 e2 c)
    by (done || by left).
  eexists _, _. split; [reflexivity |].
  match goal with |- hashEncryptAndWrite _ _ _ _ _ _ ?m = _ /\ _ => set (r1 := m) end.
  pose proof (packs_packable X r1 buffer disablePacking Hpk) as Hp2.
  rewrite (hashEncryptAndWrite_checked X NullObjectID r1 packGroup prefix buffer
             disablePacking (len c) None e3 Hp2 Hsize2).
  rewrite bool_decide_eq_true_2 by done. rewrite Hlen, Z.eqb_refl. simpl.
  split; [reflexivity |]. done.
Qed.
End WriteTwice.

(** ** The raw reader, continued *)

Section RawReaderMore.
Context {E : Type}.
Variable X : Collaborators E.
Variable r : ObjectManager E.
Variable objectID : ObjectID.

(** The manager a direct (not packed) raw read leaves when the fetch and
    the decryption succeed and the checksum matches. *)
Lemma newRawReader_direct_state
      (p : ObjectIDSection) (e1 e2 : E) (payload plaintext : list byte) :
  packMgr_blockIDToPackSection X (StorageBlock objectID) (world r) = ((p, false, None), e1) ->
  storage_GetBlock X (StorageBlock objectID) 0 (-1) e1 = ((payload, None), e2) ->
  Decrypt (formatter r) payload objectID 0 = (plaintext, None) ->
  checksum_matches (formatter r) plaintext (StorageBlock objectID) ->
  newRawReader X objectID r
  = Return (inr (newObjectReaderWithData plaintext),
            mkObjectManager
              (add_ValidBlocks 1
                 (add_DecryptedBytes (len plaintext)
                    (add_ReadBytes (len payload) (add_ReadBlocks 1 (stats r)))))
              (format r) (formatter r) e2
              (calls r ++ [Call_blockIDToPackSection (StorageBlock objectID);
                           Call_GetBlock (StorageBlock objectID) 0 (-1);
                           Call_Decrypt payload objectID 0])).
Proof.
  intros Hpack Hget Hdec Hsum. unfold checksum_matches in Hsum.
  unfold newRawReader, verifyChecksum, mbind, M_bind, outside, cipher, modify_stats, asks.
  simpl. rewrite Hpack. simpl. rewrite Hget. simpl. rewrite Hdec. simpl.
  rewrite Hsum. simpl. by rewrite <- !app_assoc.
Qed.

(** A raw read hands out in-memory readers only. *)
Lemma newRawReader_reader_in_memory
      (rd : ObjectReader) (r' : ObjectManager E) :
  newRawReader X objectID r = Return (inr rd, r') ->
  exists plaintext, rd = newObjectReaderWithData plaintext.
Proof.
  unfold newRawReader, verifyChecksum, mbind, M_bind, outside, cipher, modify_stats, asks.
  simpl.
  destruct (packMgr_blockIDToPackSection X (StorageBlock objectID) (world r))
    as [[[p ok] [e |]] e1]; simpl; [discriminate |].
  destruct ok; simpl;
    (destruct (storage_GetBlock X _ _ _ e1) as [[payload [e |]] e2]; simpl;
       [discriminate |]);
    (destruct (Decrypt (formatter r) payload _ _) as [plaintext [e |]]; simpl;
       [discriminate |]);
    (destruct (HasSuffix (StorageBlock objectID)
                         (StorageBlock (ComputeObjectID (formatter r) plaintext)));
       simpl; [| discriminate]);
    intros [= <- <-]; by exists plaintext.
Qed.

(** X4: a raw read hands out a reader only over data that passed the
    checksum test against the requested block name, and it then counts
    exactly one valid block and no invalid one. *)
Theorem newRawReader_returns_only_verified_data (rd : ObjectReader) (r' : ObjectManager E) :
  newRawReader X objectID r = Return (inr rd, r') ->
  exists plaintext,
    rd = newObjectReaderWithData plaintext
    /\ checksum_matches (formatter r) plaintext (StorageBlock objectID)
    /\ ValidBlocks (stats r') = int32 (ValidBlocks (stats r) + 1)
    /\ InvalidBlocks (stats r') = InvalidBlocks (stats r).
Proof.
  unfold checksum_matches.
  unfold newRawReader, verifyChecksum, mbind, M_bind, outside, cipher, modify_stats, asks.
  simpl.
  destruct (packMgr_blockIDToPackSection X (StorageBlock objectID) (world r))
    as [[[p ok] [e |]] e1]; simpl; [discriminate |].
  destruct ok; simpl.
  - destruct (storage_GetBlock X _ _ _ e1) as [[payload [e |]] e2]; simpl; [discriminate |].
    destruct (Decrypt (formatter r) payload _ _) as [plaintext [e |]]; simpl;
      [discriminate |].
    destruct (HasSuffix (StorageBlock objectID)
                        (StorageBlock (ComputeObjectID (formatter r) plaintext))) eqn:Hs;
      simpl; [| discriminate].
    intros [= <- <-]. exists plaintext. done.
  - destruct (storage_GetBlock X _ _ _ e1) as [[payload [e |]] e2]; simpl; [discriminate |].
    destruct (Decrypt (formatter r) payload _ _) as [plaintext [e |]]; simpl;
      [discriminate |].
    destruct (HasSuffix (StorageBlock objectID)
                        (StorageBlock (ComputeObjectID (formatter r) plaintext))) eqn:Hs;
      simpl; [| discriminate].
    intros [= <- <-]. exists plaintext. done.
Qed.

(** X5: a raw read that ends in an error never counts a valid block, and
    it counts an invalid one only when that error is the checksum error of
    data it fetched and decrypted. *)
Theorem newRawReader_failure_counts (err : error) (r' : ObjectManager E) :
  newRawReader X objectID r = Return (inl err, r') ->
  ValidBlocks (stats r') = ValidBlocks (stats r)
  /\ (InvalidBlocks (stats r') = InvalidBlocks (stats r)
      \/ exists plaintext,
          err = invalidChecksum (formatter r) plaintext (StorageBlock objectID)
          /\ ~ checksum_matches (formatter r) plaintext (StorageBlock objectID)
          /\ InvalidBlocks (stats r') = int32 (InvalidBlocks (stats r) + 1)).
Proof.
  unfold checksum_matches, invalidChecksum.
  unfold newRawReader, verifyChecksum, mbind, M_bind, outside, cipher, modify_stats, asks.
  simpl.
  destruct (packMgr_blockIDToPackSection X (StorageBlock objectID) (world r))
    as [[[p ok] [e |]] e1]; simpl; [intros [= <- <-]; by split; [| left] |].
  destruct ok; simpl.
  - destruct (storage_GetBlock X _ _ _ e1) as [[payload [e |]] e2]; simpl;
      [intros [= <- <-]; by split; [| left] |].
    destruct (Decrypt (formatter r) payload _ _) as [plaintext [e |]]; simpl;
      [intros [= <- <-]; by split; [| left] |].
    destruct (HasSuffix (StorageBlock objectID)
                        (StorageBlock (ComputeObjectID (formatter r) plaintext))) eqn:Hs;
      simpl; [discriminate |].
    intros [= <- <-]. split; [done |]. right. exists plaintext. rewrite Hs. done.
  - destruct (storage_GetBlock X _ _ _ e1) as [[payload [e |]] e2]; simpl;
      [intros [= <- <-]; by split; [| left] |].
    destruct (Decrypt (formatter r) payload _ _) as [plaintext [e |]]; simpl;
      [intros [= <- <-]; by split; [| left] |].
    destruct (HasSuffix (StorageBlock objectID)
                        (StorageBlock (ComputeObjectID (formatter r) plaintext))) eqn:Hs;
      simpl; [discriminate |].
    intros [= <- <-]. split; [done |]. right. exists plaintext. rewrite Hs. done.
Qed.

(** X6: when the blob cannot be fetched, a raw read returns the storage's
    error as it is; nothing is decrypted and no read is counted. *)
Theorem newRawReader_fetch_error
        (p : ObjectIDSection) (ok : bool) (e1 e2 : E) (payload : list byte) (err : error) :
  packMgr_blockIDToPackSection X (StorageBlock objectID) (world r) = ((p, ok, None), e1) ->
  (if ok
   then storage_GetBlock X (StorageBlock (OIDSection.Base p))
                         (OIDSection.Start p) (OIDSection.Length p) e1
   else storage_GetBlock X (StorageBlock objectID) 0 (-1) e1) = ((payload, Some err), e2) ->
  exists r',
    newRawReader X objectID r = Return (inl err, r')
    /\ stats r' = stats r
    /\ world r' = e2
    /\ calls r'
       = calls r ++ [Call_blockIDToPackSection (StorageBlock objectID);
                     if ok
                     then Call_GetBlock (StorageBlock (OIDSection.Base p))
                                        (OIDSection.Start p) (OIDSection.Length p)
                     else Call_GetBlock (StorageBlock objectID) 0 (-1)].
Proof.
  intros Hpack Hget.
  unfold newRawReader, mbind, M_bind, outside. simpl. rewrite Hpack. simpl.
  destruct ok; simpl; rewrite Hget; simpl;
    (eexists; split; [reflexivity |]); simpl; rewrite <- app_assoc;
    by destruct (stats r).
Qed.
End RawReaderMore.

(** ** Writing, then opening *)

Section RoundTrip.
Context {E : Type}.
Variable X : Collaborators E.
Variable NullObjectID : ObjectID.
Variable indirectStreamType : string.
Variable sprint_ObjectID : ObjectID -> string.
Variable jsonstream_NewReader : ObjectReader -> string -> M E (error + jsonstreamReader).
Variable newObjectSectionReader : Z -> Z -> ObjectReader -> error + ObjectReader.

Local Abbreviation Open :=
  (Open X indirectStreamType sprint_ObjectID jsonstream_NewReader newObjectSectionReader).

Variable r : ObjectManager E.
Variable packGroup prefix : string.
Variable buffer : option (list byte).
Variable disablePacking : bool.

Local Abbreviation data := (bufferBytes buffer).
Local Abbreviation objectID := (prefixedObjectID (formatter r) prefix data).

(** [Open] of the ObjectID of a stored chunk is a raw read. *)
Lemma Open_prefixedObjectID (m : ObjectManager E) :
  raw_ids (formatter r) -> Open objectID m = newRawReader X objectID m.
Proof.
  intros Hraw. destruct (Hraw data) as (Hs & Hi & Hb & Ht).
  unfold prefixedObjectID.
  destruct (ComputeObjectID (formatter r) data) as [hash ind text bin sec].
  simpl in *. subst. reflexivity.
Qed.

(** X7: a chunk written without packing and opened again.  When the
    upload succeeds, the storage hands back the bytes that were put and
    decryption undoes encryption, [Open] of the returned ObjectID passes
    the checksum test whatever the prefix is, counts one valid block and
    gives a reader over the chunk as it was written. *)
Theorem hashEncryptAndWrite_then_Open
        (blockSize : Z) (err : option error) (e1 e2 e3 e4 : E) (c : list byte)
        (p : ObjectIDSection) :
  raw_ids (formatter r) ->
  packs X r data disablePacking = false ->
  blockSizeCache_getSize X (StorageBlock objectID) (world r) = ((blockSize, err), e1) ->
  err = Some blob_ErrBlockNotFound \/ (err = None /\ blockSize <> len data) ->
  Encrypt (formatter r) data objectID 0 = (c, None) ->
  storage_PutBlock X (StorageBlock objectID) c e1 = (None, e2) ->
  packMgr_blockIDToPackSection X (StorageBlock objectID) e2 = ((p, false, None), e3) ->
  storage_GetBlock X (StorageBlock objectID) 0 (-1) e3 = ((c, None), e4) ->
  Decrypt (formatter r) c objectID 0 = (data, None) ->
  exists r1 r2,
    hashEncryptAndWrite X NullObjectID packGroup buffer prefix disablePacking r
    = Return ((objectID, None), r1)
    /\ Open objectID r1 = Return (inr (newObjectReaderWithData data), r2)
    /\ ValidBlocks (stats r2) = int32 (ValidBlocks (stats r) + 1)
    /\ InvalidBlocks (stats r2) = InvalidBlocks (stats r)
    /\ ReadBytes (stats r2) = int64 (ReadBytes (stats r) + len c).
Proof.
  intros Hraw Hp Hsize Hmiss Henc Hput Hpack Hget Hdec.
  rewrite (hashEncryptAndWrite_upload_state X NullObjectID r packGroup prefix buffer
             disablePacking blockSize err e1 e2 c) by done.
  eexists _, _. split; [reflexivity |].
  rewrite Open_prefixedObjectID by done.
  rewrite (newRawReader_direct_state X _ objectID p e3 e4 c data); try done.
  unfold checksum_matches. simpl. unfold prefixedObjectID.
  rewrite StorageBlock_set. apply HasSuffix_append.
Qed.
End RoundTrip.

(** ** Opening, continued *)

Section OpenMore.
Context {E : Type}.
Variable X : Collaborators E.
Variable indirectStreamType : string.
Variable sprint_ObjectID : ObjectID -> string.
Variable jsonstream_NewReader : ObjectReader -> string -> M E (error + jsonstreamReader).
Variable newObjectSectionReader : Z -> Z -> ObjectReader -> error + ObjectReader.

Local Abbreviation Open :=
  (Open X indirectStreamType sprint_ObjectID jsonstream_NewReader newObjectSectionReader).
Local Abbreviation flattenListChunk :=
  (flattenListChunk indirectStreamType jsonstream_NewReader).

Lemma append_each (l acc : list entry) :
  foldl (fun tbl oe => tbl ++ [oe]) acc l = acc ++ l.
Proof.
  revert acc. induction l as [| x l IH]; intros acc; simpl.
  - by rewrite app_nil_r.
  - rewrite IH. by rewrite <- app_assoc.
Qed.

(** What [flattenListChunk] makes of a stream that could be opened. *)
Lemma flattenListChunk_run (rd : ObjectReader) (pr : jsonstreamReader)
      (m m' : ObjectManager E) :
  jsonstream_NewReader rd indirectStreamType m = Return (inr pr, m') ->
  flattenListChunk rd m
  = Return (if decide (ending pr = io_EOF) then inr (records pr) else inl (ending pr), m').
Proof.
  intros Hnew. unfold flattenListChunk, mbind, M_bind. rewrite Hnew.
  rewrite append_each. simpl. by destruct (decide (ending pr = io_EOF)).
Qed.

(** X8: opening an indirect ObjectID whose list chunk opens and ends
    properly after at least one record gives a reader whose seek table is
    the records in the order of the stream, whose total length is the end
    offset of the last record, and which stands at position 0 with no
    chunk loaded. *)
Theorem Open_indirect_builds_seek_table
        (objectID target : ObjectID) (rd : ObjectReader) (pr : jsonstreamReader)
        (final : entry) (m m1 m2 : ObjectManager E) :
  Section_ objectID = None ->
  Indirect objectID = Some target ->
  Open target m = Return (inr rd, m1) ->
  jsonstream_NewReader rd indirectStreamType m1 = Return (inr pr, m2) ->
  ending pr = io_EOF ->
  last (records pr) = Some final ->
  Open objectID m
  = Return (inr (indirectReader (mkObjectReader (records pr) 0 (endOffset final) 0 None 0)),
            m2).
Proof.
  intros Hsec Hind Hopen Hnew Hend Hlast.
  destruct objectID as [name ind text bin sec]. simpl in Hsec, Hind. subst sec ind.
  simpl. unfold mbind at 1, M_bind at 1. rewrite Hopen.
  unfold mbind at 1, M_bind at 1. rewrite (flattenListChunk_run rd pr m1 m2 Hnew).
  rewrite decide_True by done.
  rewrite last_lookup in Hlast.
  assert (at_index (records pr) (len (records pr) - 1) = Some final) as ->.
  { apply at_index_Some. pose proof (lookup_lt_Some _ _ _ Hlast). unfold len.
    split; [lia |].
    by replace (Z.to_nat (Z.of_nat (length (records pr)) - 1))
         with (pred (length (records pr))) by lia. }
  reflexivity.
Qed.

(** X9: when the stream of the list chunk breaks off with an error other
    than [io.EOF], [Open] returns that error and no reader, however many
    records were read before it. *)
Theorem Open_indirect_broken_list
        (objectID target : ObjectID) (rd : ObjectReader) (pr : jsonstreamReader)
        (m m1 m2 : ObjectManager E) :
  Section_ objectID = None ->
  Indirect objectID = Some target ->
  Open target m = Return (inr rd, m1) ->
  jsonstream_NewReader rd indirectStreamType m1 = Return (inr pr, m2) ->
  ending pr <> io_EOF ->
  Open objectID m = Return (inl (ending pr), m2).
Proof.
  intros Hsec Hind Hopen Hnew Hend.
  destruct objectID as [name ind text bin sec]. simpl in Hsec, Hind. subst sec ind.
  simpl. unfold mbind at 1, M_bind at 1. rewrite Hopen.
  unfold mbind at 1, M_bind at 1. rewrite (flattenListChunk_run rd pr m1 m2 Hnew).
  by rewrite decide_False by done.
Qed.

(** X10: every indirect reader that [Open] makes for an ObjectID without
    a section has a seek table with a last entry whose end offset is the
    reader's total length, and stands at position 0, at chunk index 0,
    with no chunk loaded. *)
Theorem Open_indirect_reader_is_fresh
        (objectID : ObjectID) (r : objectReader) (m m' : ObjectManager E) :
  Section_ objectID = None ->
  Open objectID m = Return (inr (indirectReader r), m') ->
  exists final,
    last (seekTable r) = Some final
    /\ totalLength r = endOffset final
    /\ currentPosition r = 0
    /\ currentChunkIndex r = 0
    /\ currentChunkData r = None
    /\ currentChunkPosition r = 0.
Proof.
  intros Hsec.
  destruct objectID as [name ind text bin sec]. simpl in Hsec. subst sec.
  destruct ind as [target |].
  - simpl. unfold mbind at 1, M_bind at 1.
    destruct (Open target m) as [[[err | rd] m1] | msg]; try discriminate.
    unfold mbind at 1, M_bind at 1.
    destruct (flattenListChunk rd m1) as [[[err | tbl] m2] | msg]; try discriminate.
    destruct (at_index tbl (len tbl - 1)) as [final |] eqn:Hfinal; [| discriminate].
    intros [= <- <-]. exists final. simpl. repeat split; try done.
    apply at_index_Some in Hfinal as [H0 Hfinal]. rewrite last_lookup.
    by replace (pred (length tbl)) with (Z.to_nat (len tbl - 1)) by (unfold len; lia).
  - simpl. destruct bin as [bytes |]; [discriminate |].
    destruct (0 <? Z.of_nat (String.length text)); [discriminate |].
    intros Hraw.
    destruct (newRawReader_reader_in_memory X m
                (mkObjectID name None text None None) _ _ Hraw) as [plaintext Heq].
    discriminate.
Qed.
End OpenMore.

(** ** Initialization, continued *)

Section InitializeMore.
Context {S R K : Type}.
Variable PutBlock : string -> list byte -> S -> option error * S.
Variable rand_Read : Z -> R -> list byte * R.
Variables MetadataBlockPrefix formatBlockID repositoryConfigBlockID : string.
Variables DefaultKeyDerivationAlgorithm DefaultMetadataEncryptionAlgorithm : string.
Variables DefaultObjectSplitter DefaultObjectFormat : string.
Variable json_Marshal : MetadataFormat -> list byte * option error.
Variable initCrypto : MetadataManager K -> option error * MetadataManager K.
Variable putJSON :
  MetadataManager K -> string -> EncryptedRepositoryConfig -> S -> option error * S.

Local Abbreviation Initialize :=
  (Initialize PutBlock rand_Read MetadataBlockPrefix formatBlockID repositoryConfigBlockID
              DefaultKeyDerivationAlgorithm DefaultMetadataEncryptionAlgorithm
              DefaultObjectSplitter DefaultObjectFormat json_Marshal initCrypto putJSON).
Local Abbreviation metadataFormatFromOptions :=
  (metadataFormatFromOptions rand_Read DefaultKeyDerivationAlgorithm
                             DefaultMetadataEncryptionAlgorithm).
Local Abbreviation repositoryObjectFormatFromOptions :=
  (repositoryObjectFormatFromOptions rand_Read DefaultObjectSplitter DefaultObjectFormat).

Lemma options_or_zero (opt : option NewRepositoryOptions) :
  match opt with Some o => o | None => zeroNewRepositoryOptions end
  = default zeroNewRepositoryOptions opt.
Proof. by destruct opt. Qed.

(** X11: when the master key cannot be obtained, or the descriptor cannot
    be marshalled, [Initialize] returns that error as it is and the
    storage is exactly as it was: nothing has been put. *)
Theorem Initialize_fails_before_any_put
        (st : S) (opt : option NewRepositoryOptions) (creds : Credentials) (rng rng1 : R)
        (mformat : MetadataFormat) (masterKey formatBytes : list byte) (e : error) :
  metadataFormatFromOptions (default zeroNewRepositoryOptions opt) rng = (mformat, rng1) ->
  GetMasterKey creds (mf_SecurityOptions mformat) = (masterKey, Some e)
  \/ (GetMasterKey creds (mf_SecurityOptions mformat) = (masterKey, None)
      /\ json_Marshal mformat = (formatBytes, Some e)) ->
  Initialize st opt creds rng = (Some e, st, rng1).
Proof.
  intros Hfmt Hfail. unfold Initialize. rewrite options_or_zero, Hfmt.
  destruct Hfail as [-> | [-> Hjson]]; [done |]. simpl. by rewrite Hjson.
Qed.

(** X12: when [initCrypto] fails, the format blob has already been put
    and stays in the storage; the error comes back wrapped as
    [unable to initialize crypto], and the repository configuration is
    not written. *)
Theorem Initialize_crypto_failure_leaves_format_blob
        (st st1 : S) (opt : option NewRepositoryOptions) (creds : Credentials)
        (rng rng1 : R) (mformat : MetadataFormat) (masterKey formatBytes : list byte)
        (mm : MetadataManager K) (e : error) :
  metadataFormatFromOptions (default zeroNewRepositoryOptions opt) rng = (mformat, rng1) ->
  GetMasterKey creds (mf_SecurityOptions mformat) = (masterKey, None) ->
  json_Marshal mformat = (formatBytes, None) ->
  PutBlock (MetadataBlockPrefix +:+ formatBlockID) formatBytes st = (None, st1) ->
  initCrypto (mkMetadataManager mformat masterKey None) = (Some e, mm) ->
  Initialize st opt creds rng
  = (Some (Errorf ("unable to initialize crypto: " +:+ Error e)), st1, rng1).
Proof.
  intros Hfmt Hkey Hjson Hput Hcrypto. unfold Initialize.
  rewrite options_or_zero, Hfmt, Hkey. simpl. by rewrite Hjson, Hput, Hcrypto.
Qed.


(** X14: whatever the options are, the object format made from them has
    version 1 and no block size, packed-content limit or pack-file limit
    equal to 0 (a 0 in the options is replaced by the default), it always
    carries an encryption key, and its HMAC secret is absent exactly when
    [noHMAC] is set. *)
Theorem repositoryObjectFormatFromOptions_fills_defaults
        (opt : NewRepositoryOptions) (rng : R) :
  let f := (repositoryObjectFormatFromOptions opt rng).1 in
  Version f = 1
  /\ MaxBlockSize f <> 0 /\ MinBlockSize f <> 0 /\ AvgBlockSize f <> 0
  /\ MaxPackedContentLength f <> 0 /\ MaxPackFileLength f <> 0
  /\ is_Some (MasterKey f)
  /\ (HMACSecret f = None <-> opt_noHMAC opt = true).
Proof.
  unfold repositoryObjectFormatFromOptions, applyDefaultInt.
  destruct (applyDefaultRandomBytes rand_Read (opt_ObjectHMACSecret opt) 32 rng)
    as [hmac rng1].
  destruct (applyDefaultRandomBytes rand_Read (opt_ObjectEncryptionKey opt) 32 rng1)
    as [key rng2].
  destruct (opt_noHMAC opt); simpl;
    destruct (Z.eqb_spec (opt_MaxBlockSize opt) 0), (Z.eqb_spec (opt_MinBlockSize opt) 0),
      (Z.eqb_spec (opt_AvgBlockSize opt) 0),
      (Z.eqb_spec (opt_MaxPackedContentLength opt) 0),
      (Z.eqb_spec (opt_MaxPackFileLength opt) 0);
    repeat split; try done; try by eexists.
Qed.
End InitializeMore.

(** ** The indirect reader, continued *)

Lemma int64_add_int64 (a b : Z) : int64 (int64 a + b) = int64 (a + b).
Proof.
  unfold int64, wrap. change (2 ^ (64 - 1)) with (2 ^ 63).
  replace ((a + 2 ^ 63) mod 2 ^ 64 - 2 ^ 63 + b + 2 ^ 63)
    with ((a + 2 ^ 63) mod 2 ^ 64 + b) by lia.
  rewrite Z.add_mod_idemp_l by lia. f_equal. f_equal. lia.
Qed.

Lemma copy_at_length {A} (dst src : list A) (n : Z) :
  0 <= n <= len dst -> length (copy_at dst n src) = length dst.
Proof.
  unfold copy_at, len. intros Hn.
  rewrite !length_app, !length_take, length_drop. lia.
Qed.

(** A copy of [t] bytes that fit behind position [n]. *)
Lemma copy_at_fits {A} (dst src : list A) (n : Z) :
  0 <= n -> n + len src <= len dst ->
  copy_at dst n src
  = take (Z.to_nat n) dst ++ src ++ drop (Z.to_nat n + length src) dst.
Proof.
  unfold copy_at, len. intros Hn Hfit.
  rewrite Nat.min_l by lia. by rewrite firstn_all.
Qed.

Section ReaderMore.
Context {E : Type}.
Variable X : Collaborators E.
Variable indirectStreamType : string.
Variable sprint_ObjectID : ObjectID -> string.
Variable jsonstream_NewReader : ObjectReader -> string -> M E (error + jsonstreamReader).
Variable newObjectSectionReader : Z -> Z -> ObjectReader -> error + ObjectReader.
Variable io_ReadFull : ObjectReader -> list byte -> M E (list byte * option error).

Local Abbreviation Open :=
  (Open X indirectStreamType sprint_ObjectID jsonstream_NewReader newObjectSectionReader).
Local Abbreviation openCurrentChunk :=
  (openCurrentChunk X indirectStreamType sprint_ObjectID jsonstream_NewReader
                    newObjectSectionReader io_ReadFull).
Local Abbreviation Seek :=
  (Seek X indirectStreamType sprint_ObjectID jsonstream_NewReader
        newObjectSectionReader io_ReadFull).
Local Abbreviation Seek_absolute :=
  (Seek_absolute X indirectStreamType sprint_ObjectID jsonstream_NewReader
                 newObjectSectionReader io_ReadFull).
Local Abbreviation Read :=
  (Read X indirectStreamType sprint_ObjectID jsonstream_NewReader
        newObjectSectionReader io_ReadFull).
Local Abbreviation Read_loop :=
  (Read_loop X indirectStreamType sprint_ObjectID jsonstream_NewReader
             newObjectSectionReader io_ReadFull).

Lemma Seek_resolves_whence (r : objectReader) (offset whence : Z) (m : ObjectManager E) :
  Seek r offset whence m = Seek_absolute r (seekTarget r offset whence) m.
Proof.
  unfold Seek, seekTarget. destruct (whence =? 1); [done |]. by destruct (whence =? 2).
Qed.

(** X15: whatever [whence] is, a seek whose resolved offset is negative
    returns -1 with the error [Invalid seek.] and leaves the reader and
    the manager untouched. *)
Theorem Seek_negative_target_fails
        (r : objectReader) (offset whence : Z) (m : ObjectManager E) :
  seekTarget r offset whence < 0 ->
  Seek r offset whence m = Some (Return ((-1, Some (Errorf "Invalid seek."), r), m)).
Proof.
  intros Hneg. rewrite Seek_resolves_whence. unfold Seek_absolute.
  by destruct (Z.ltb_spec (seekTarget r offset whence) 0); [| lia].
Qed.


Lemma openCurrentChunk_keeps_place (r r' : objectReader) (m m' : ObjectManager E)
      (err : option error) :
  openCurrentChunk r m = Return ((err, r'), m') ->
  seekTable r' = seekTable r /\ currentChunkIndex r' = currentChunkIndex r.
Proof.
  unfold openCurrentChunk.
  destruct (at_index (seekTable r) (currentChunkIndex r)) as [st |]; [| discriminate].
  unfold mbind, M_bind.
  destruct (Open (Object st) m) as [[[e | blockData] m1] | msg]; try discriminate.
  { by intros [= <- <- <-]. }
  destruct (Length st <? 0); [discriminate |].
  destruct (io_ReadFull _ _ m1) as [[[b [e |]] m2] | msg]; try discriminate;
    by intros [= <- <- <-].
Qed.

(** X17: whenever a seek from the start to an offset inside the object
    returns, it returns that offset without error and has put the reader
    at the one chunk that holds the offset: the chunk index is that
    chunk's index, the position within the chunk is the offset minus the
    chunk's start, and the overall position is the offset. *)
Theorem Seek_in_range_lands_in_chunk
        (r r' : objectReader) (offset : Z) (final : entry) (m m' : ObjectManager E)
        (pos : Z) (err : option error) :
  seekTable_ok (seekTable r) ->
  last (seekTable r) = Some final ->
  totalLength r = endOffset final ->
  0 <= offset < totalLength r ->
  Seek r offset 0 m = Some (Return ((pos, err, r'), m')) ->
  pos = offset /\ err = None
  /\ seekTable r' = seekTable r
  /\ currentPosition r' = offset
  /\ exists (i : nat) (e : entry),
      seekTable r !! i = Some e /\ covers e offset
      /\ currentChunkIndex r' = Z.of_nat i
      /\ currentChunkPosition r' = offset - Start e.
Proof.
  intros Hok Hlast Htotal Hoff.
  rewrite Seek_resolves_whence. unfold seekTarget. simpl. unfold Seek_absolute.
  destruct (Z.ltb_spec offset 0); [lia |].
  destruct (Z.gtb_spec offset (totalLength r)); [lia |].
  rewrite Htotal in Hoff.
  destruct (findChunkIndexForOffset_hit r offset final Hok Hlast Hoff)
    as (k & e & -> & Hk & Hcov).
  rewrite Hk. pose proof Hk as [Hk0 Hkn]%at_index_Some.
  set (r1 := if bool_decide (k ≠ currentChunkIndex r)
             then set_currentChunkIndex k (closeCurrentChunk r) else r).
  assert (Hr1 : seekTable r1 = seekTable r /\ currentChunkIndex r1 = k).
  { subst r1. case_bool_decide as Hidx; [done |].
    by split. }
  assert (Hin : int64 (offset - Start e) = offset - Start e).
  { apply int64_small. destruct (in_range_lookup _ Hok _ _ Hkn) as [[? ?] _].
    pose proof (offset_in_range offset final Hoff).
    pose proof (starts_nonneg _ Hok _ _ Hkn).
    unfold covers, int64_range in *. lia. }
  destruct (currentChunkData r1) eqn:Hdata.
  - intros [= <- <- <- <-]. simpl. destruct Hr1 as [Ht Hi].
    split; [done |]. split; [done |]. split; [done |]. split; [done |].
    exists (Z.to_nat k), e. rewrite Z2Nat.id by done. by rewrite Hin.
  - destruct (openCurrentChunk r1 m) as [[[oerr r2] m2] | msg] eqn:Hopen; [| discriminate].
    apply openCurrentChunk_keeps_place in Hopen as [Ht2 Hi2].
    intros [= <- <- <- <-]. simpl. destruct Hr1 as [Ht Hi].
    split; [done |]. split; [done |]. split; [congruence |]. split; [done |].
    exists (Z.to_nat k), e. rewrite Z2Nat.id by done. rewrite Hin.
    split; [done |]. split; [done |]. split; [congruence | done].
Qed.

(** In the copying branch of the loop a slice that can be taken has at
    least one byte. *)
Lemma copy_makes_progress (data src : list byte) (pos t : Z) :
  slice data pos (int64 (pos + t)) = Some src ->
  t <> 0 -> - 2 ^ 63 <= t ->
  1 <= t.
Proof.
  intros Hslice Hnz Hlo. apply slice_Some in Hslice.
  pose proof (int64_in_range (pos + t)) as [Hh1 Hh2].
  destruct (Z_lt_ge_dec t 0) as [Hneg | ?]; [exfalso | lia].
  destruct (Z_lt_ge_dec pos (2 ^ 63)) as [Hsmall | Hbig]; [| lia].
  rewrite int64_small in Hslice by (unfold int64_range; lia). lia.
Qed.

Lemma Read_loop_bounds fuel :
  forall buffer readBytes remaining r m buffer' n err r' m',
    0 <= readBytes -> 0 <= remaining -> readBytes + remaining = len buffer ->
    Read_loop fuel buffer readBytes remaining r m
    = Some (Return ((buffer', n, err, r'), m')) ->
    length buffer' = length buffer /\ 0 <= n <= len buffer /\ (err = None <-> 0 < n).
Proof.
  assert (Hret : forall buffer readBytes r (m : ObjectManager E) buffer' n err r' m',
             0 <= readBytes <= len buffer ->
             Read_return buffer readBytes r m = Some (Return ((buffer', n, err, r'), m')) ->
             length buffer' = length buffer /\ 0 <= n <= len buffer
             /\ (err = None <-> 0 < n)).
  { intros buffer readBytes r m buffer' n err r' m' Hrb. unfold Read_return.
    destruct (Z.eqb_spec readBytes 0); intros [= <- <- <- <- <-];
      (split; [done |]); (split; [lia |]); split; (done || lia || intros; lia). }
  induction fuel as [| fuel IH];
    intros buffer readBytes remaining r m buffer' n err r' m' Hrb Hrem Hsum; simpl.
  { destruct (remaining >? 0); [discriminate |]. apply Hret. lia. }
  destruct (Z.gtb_spec remaining 0) as [Hpos | Hzero]; [| apply Hret; lia].
  destruct (currentChunkData r) as [data |].
  - destruct (int64 (len data - currentChunkPosition r) =? 0) eqn:Hz.
    { apply IH; done. }
    apply Z.eqb_neq in Hz.
    set (toCopy := if int64 (len data - currentChunkPosition r) >? remaining
                   then remaining else int64 (len data - currentChunkPosition r)).
    destruct (slice data (currentChunkPosition r)
                    (int64 (currentChunkPosition r + toCopy))) as [src |] eqn:Hslice;
      [| discriminate].
    pose proof (int64_in_range (len data - currentChunkPosition r)) as [Hc1 Hc2].
    assert (Hbounds : - 2 ^ 63 <= toCopy <= remaining /\ toCopy <> 0).
    { subst toCopy.
      destruct (Z.gtb_spec (int64 (len data - currentChunkPosition r)) remaining); lia. }
    pose proof (copy_makes_progress _ _ _ _ Hslice ltac:(lia) ltac:(lia)) as Hprog.
    assert (Hcopy : length (copy_at buffer readBytes src) = length buffer)
      by (apply copy_at_length; lia).
    intros Hres.
    apply IH in Hres; [| lia | lia | unfold len in *; rewrite Hcopy; lia].
    unfold len in *. by rewrite Hcopy in Hres.
  - destruct (currentChunkIndex r <? len (seekTable r)); [| apply Hret; lia].
    destruct (openCurrentChunk r m) as [[[[oerr |] r1] m1] | msg]; try discriminate.
    + intros [= <- <- <- <- <-]. split; [done |]. split; [lia |]. split; [done | lia].
    + apply IH; done.
Qed.

(** X18: whenever a [Read] returns, the buffer has kept its length, the
    count lies between 0 and the buffer's length, and the count is
    positive exactly when no error is returned: an error, [io.EOF]
    included, always comes with the count 0. *)
Theorem Read_count_and_error
        (r r' : objectReader) (buffer buffer' : list byte) (m m' : ObjectManager E)
        (n : Z) (err : option error) :
  Read r buffer m = Some (Return ((buffer', n, err, r'), m')) ->
  length buffer' = length buffer /\ 0 <= n <= len buffer /\ (err = None <-> 0 < n).
Proof.
  unfold Read. apply Read_loop_bounds; unfold len; lia.
Qed.
End ReaderMore.

(** ** What the reader delivers *)

Section Delivery.
Context {E : Type}.
Variable X : Collaborators E.
Variable indirectStreamType : string.
Variable sprint_ObjectID : ObjectID -> string.
Variable jsonstream_NewReader : ObjectReader -> string -> M E (error + jsonstreamReader).
Variable newObjectSectionReader : Z -> Z -> ObjectReader -> error + ObjectReader.
Variable io_ReadFull : ObjectReader -> list byte -> M E (list byte * option error).

Local Abbreviation openCurrentChunk :=
  (openCurrentChunk X indirectStreamType sprint_ObjectID jsonstream_NewReader
                    newObjectSectionReader io_ReadFull).
Local Abbreviation Seek :=
  (Seek X indirectStreamType sprint_ObjectID jsonstream_NewReader
        newObjectSectionReader io_ReadFull).
Local Abbreviation Read :=
  (Read X indirectStreamType sprint_ObjectID jsonstream_NewReader
        newObjectSectionReader io_ReadFull).
Local Abbreviation Read_loop :=
  (Read_loop X indirectStreamType sprint_ObjectID jsonstream_NewReader
             newObjectSectionReader io_ReadFull).
Local Abbreviation opens_chunks :=
  (opens_chunks X indirectStreamType sprint_ObjectID jsonstream_NewReader
                newObjectSectionReader io_ReadFull).

Variable tbl : list entry.
Variable contents : list (list byte).
Variable Inv : ObjectManager E -> Prop.

Hypothesis Hfit : fits_int tbl contents.
Hypothesis Hsame : length contents = length tbl.
Hypothesis Hopen : opens_chunks tbl contents Inv.

Lemma chunk_fits (k : nat) (c : list byte) : contents !! k = Some c -> len c < 2 ^ 63.
Proof.
  intros Hk. destruct Hfit as [_ HF]. rewrite Forall_lookup in HF. by apply (HF k).
Qed.

(** The list algebra of one copying turn followed by the rest of the
    loop. *)
Lemma stitch (buffer pend : list byte) (rb t k1 : nat) :
  (rb + t <= length buffer)%nat -> (t <= length pend)%nat ->
  take (rb + t) (take rb buffer ++ take t pend ++ drop (rb + t) buffer)
  ++ take k1 (drop t pend)
  ++ drop (rb + t + k1) (take rb buffer ++ take t pend ++ drop (rb + t) buffer)
  = take rb buffer ++ take (t + k1) pend ++ drop (rb + (t + k1)) buffer.
Proof.
  intros Hrb Ht.
  assert (Hl : length (take rb buffer ++ take t pend) = (rb + t)%nat)
    by (rewrite length_app, !length_take; lia).
  assert (H1 : take (rb + t) (take rb buffer ++ take t pend ++ drop (rb + t) buffer)
               = take rb buffer ++ take t pend).
  { rewrite app_assoc. by apply take_app_length'. }
  assert (H2 : drop (rb + t + k1) (take rb buffer ++ take t pend ++ drop (rb + t) buffer)
               = drop (rb + (t + k1)) buffer).
  { rewrite app_assoc. rewrite drop_app_add' by done. rewrite drop_drop.
    f_equal. lia. }
  rewrite H1, H2, <- (take_take_drop pend t k1). by rewrite <- !app_assoc.
Qed.

Lemma Read_rank_nonneg (r : objectReader) : 0 <= Read_rank r.
Proof.
  unfold Read_rank, len.
  destruct (currentChunkData r), (currentChunkIndex r <? 0); lia.
Qed.

Lemma pending_past_end (r : objectReader) :
  seekTable r = tbl -> currentChunkData r = None ->
  len (seekTable r) <= currentChunkIndex r ->
  pending contents r = [].
Proof.
  intros Htbl Hd Hge. unfold pending. rewrite Hd.
  rewrite drop_ge; [done |]. rewrite Htbl in Hge. unfold len in Hge. lia.
Qed.

(** The loop left without a further byte. *)
Lemma Read_return_delivers (buffer : list byte) (rb : Z) (r : objectReader)
      (m : ObjectManager E) (pend : list byte) :
  0 <= rb ->
  Read_return buffer rb r m
  = Some (Return ((take (Z.to_nat rb) buffer ++ take (Z.to_nat 0) pend
                   ++ drop (Z.to_nat (rb + 0)) buffer,
                   rb + 0, (if rb + 0 =? 0 then Some io_EOF else None), r), m)).
Proof.
  intros Hrb. unfold Read_return. rewrite Z.add_0_r. simpl. rewrite take_drop.
  by destruct (rb =? 0).
Qed.

Local Abbreviation delivered remaining r := (Z.min remaining (len (pending contents r))).

(** What a run of the loop comes to, from [readBytes] bytes already in
    the buffer and [remaining] bytes of room. *)
Local Abbreviation delivers call buffer readBytes remaining r :=
  (exists r' m',
      call
      = Some (Return
                ((take (Z.to_nat readBytes) buffer
                  ++ take (Z.to_nat (delivered remaining r)) (pending contents r)
                  ++ drop (Z.to_nat (readBytes + delivered remaining r)) buffer,
                  readBytes + delivered remaining r,
                  (if readBytes + delivered remaining r =? 0 then Some io_EOF else None),
                  r'), m'))
      /\ in_step tbl contents r'
      /\ pending contents r' = drop (Z.to_nat (delivered remaining r)) (pending contents r)
      /\ Inv m'
      /\ currentPosition r' = int64 (currentPosition r + delivered remaining r)).

Lemma Read_return_stops (buffer : list byte) (readBytes remaining : Z) (r : objectReader)
      (m : ObjectManager E) :
  Inv m -> in_step tbl contents r -> 0 <= readBytes ->
  delivered remaining r = 0 ->
  delivers (Read_return buffer readBytes r m) buffer readBytes remaining r.
Proof.
  intros HI Hstep Hrb ->. exists r, m.
  rewrite (Read_return_delivers _ _ _ _ (pending contents r)) by done.
  split; [done |]. split; [done |]. split; [done |]. split; [done |].
  rewrite Z.add_0_r. symmetry. apply int64_small. apply Hstep.
Qed.

Lemma Read_loop_delivers fuel :
  forall buffer readBytes remaining r m,
    Inv m -> in_step tbl contents r ->
    0 <= readBytes -> 0 <= remaining -> readBytes + remaining = len buffer ->
    remaining + Read_rank r < Z.of_nat fuel ->
    delivers (Read_loop fuel buffer readBytes remaining r m) buffer readBytes remaining r.
Proof.
  induction fuel as [| fuel IH];
    intros buffer readBytes remaining r m HI Hstep Hrb Hrem Hsum Hfuel.
  { pose proof (Read_rank_nonneg r). lia. }
  simpl. destruct (Z.gtb_spec remaining 0) as [Hpos | Hzero].
  2: { apply Read_return_stops; try done. unfold len. lia. }
  pose proof Hstep as (Htbl & Hposr & Hidx & Hdata).
  destruct (currentChunkData r) as [c |] eqn:Hd.
  - destruct Hdata as [Hc Hcpos].
    pose proof (chunk_fits _ _ Hc) as Hclen.
    pose proof (lookup_lt_Some _ _ _ Hc) as Hk.
    assert (Hlenc : 0 <= len c) by (unfold len; lia).
    rewrite (int64_small (len c - currentChunkPosition r)) by (unfold int64_range; lia).
    destruct (Z.eqb_spec (len c - currentChunkPosition r) 0) as [Hdone | Hmore].
    + (* the chunk is exhausted *)
      destruct Hfit as [Htl _].
      assert (Hnext : int64 (currentChunkIndex r + 1) = currentChunkIndex r + 1).
      { apply int64_small. unfold int64_range, len in *. lia. }
      rewrite Hnext.
      set (r1 := set_currentChunkIndex (currentChunkIndex r + 1) (closeCurrentChunk r)).
      assert (Hpend : pending contents r1 = pending contents r).
      { unfold pending. subst r1. simpl. rewrite Hd.
        replace (Z.to_nat (currentChunkIndex r + 1))
          with (S (Z.to_nat (currentChunkIndex r))) by lia.
        rewrite (drop_ge c) by (unfold len in *; lia). done. }
      destruct (IH buffer readBytes remaining r1 m) as (r' & m' & Heq & Hs & Hp & HI' & Hcp);
        try done.
      { subst r1. unfold int64_range in *. repeat split; simpl; try done; lia. }
      { subst r1. unfold Read_rank in *. simpl. rewrite Hd in Hfuel.
        destruct (Z.ltb_spec (currentChunkIndex r) 0),
                 (Z.ltb_spec (currentChunkIndex r + 1) 0); unfold len in *; lia. }
      rewrite Hpend in Heq, Hp, Hcp. exists r', m'. done.
    + (* bytes are copied *)
      set (toCopy := if len c - currentChunkPosition r >? remaining
                     then remaining else len c - currentChunkPosition r).
      assert (Hto : 1 <= toCopy <= remaining /\ toCopy <= len c - currentChunkPosition r).
      { subst toCopy. destruct (Z.gtb_spec (len c - currentChunkPosition r) remaining); lia. }
      rewrite (int64_small (currentChunkPosition r + toCopy))
        by (unfold int64_range; lia).
      set (cn := Z.to_nat (currentChunkPosition r)).
      set (tn := Z.to_nat toCopy).
      set (rest := concat (drop (S (Z.to_nat (currentChunkIndex r))) contents)).
      assert (Hslice : slice c (currentChunkPosition r) (currentChunkPosition r + toCopy)
                       = Some (take tn (drop cn c))).
      { unfold slice.
        destruct (Z.leb_spec 0 (currentChunkPosition r)); [| lia].
        destruct (Z.leb_spec (currentChunkPosition r) (currentChunkPosition r + toCopy));
          [| lia].
        destruct (Z.leb_spec (currentChunkPosition r + toCopy) (len c)); [| lia].
        simpl. subst tn cn. do 2 f_equal. lia. }
      rewrite Hslice.
      assert (Hpend : pending contents r = drop cn c ++ rest).
      { unfold pending. by rewrite Hd. }
      assert (Htn : (tn <= length (drop cn c))%nat).
      { rewrite length_drop. subst tn cn. unfold len in *. lia. }
      assert (Hsrc : take tn (drop cn c) = take tn (pending contents r)).
      { rewrite Hpend. by rewrite take_app_le. }
      assert (Hsrclen : length (take tn (drop cn c)) = tn) by (rewrite length_take; lia).
      set (buffer1 := copy_at buffer readBytes (take tn (drop cn c))).
      assert (Hb1 : buffer1 = take (Z.to_nat readBytes) buffer ++ take tn (pending contents r)
                              ++ drop (Z.to_nat readBytes + tn) buffer).
      { subst buffer1. rewrite copy_at_fits; [| lia | unfold len in *; subst tn; lia].
        by rewrite Hsrclen, Hsrc. }
      assert (Hb1len : length buffer1 = length buffer).
      { subst buffer1. apply copy_at_length. lia. }
      set (r1 := set_currentPosition (int64 (currentPosition r + toCopy))
                   (set_currentChunkPosition (currentChunkPosition r + toCopy) r)).
      assert (Hpend1 : pending contents r1 = drop tn (pending contents r)).
      { unfold pending at 1. subst r1. simpl. rewrite Hd. fold rest.
        rewrite Hpend. rewrite drop_app_le by done. rewrite drop_drop.
        do 2 f_equal. subst tn cn. lia. }
      assert (Hplen : len (pending contents r1) = len (pending contents r) - toCopy).
      { rewrite Hpend1. unfold len. rewrite length_drop.
        assert (tn <= length (pending contents r))%nat
          by (rewrite Hpend, length_app; lia).
        subst tn. lia. }
      destruct (IH buffer1 (readBytes + toCopy) (remaining - toCopy) r1 m)
        as (r' & m' & Heq & Hs & Hp & HI' & Hcp); try done; try lia.
      { subst r1. split; [done |]. split; [apply int64_in_range |].
        split; [done |]. simpl. rewrite Hd. split; [done | lia]. }
      { unfold len in *. rewrite Hb1len. lia. }
      { subst r1. unfold Read_rank in *. simpl. rewrite Hd in *. lia. }
      assert (Hk1 : delivered remaining r
                    = toCopy + delivered (remaining - toCopy) r1).
      { rewrite Hplen. lia. }
      exists r', m'. rewrite Heq.
      split; [| split; [done |]; split; [| split; [done |]]].
      * rewrite Hk1. rewrite Hb1.
        set (k1 := delivered (remaining - toCopy) r1).
        assert (Hk1pos : 0 <= k1).
        { subst k1. unfold len. lia. }
        replace (Z.to_nat (readBytes + toCopy)) with (Z.to_nat readBytes + tn)%nat
          by (subst tn; lia).
        replace (Z.to_nat (readBytes + toCopy + k1))
          with (Z.to_nat readBytes + tn + Z.to_nat k1)%nat by (subst tn; lia).
        replace (Z.to_nat (toCopy + k1)) with (tn + Z.to_nat k1)%nat by (subst tn; lia).
        replace (Z.to_nat (readBytes + (toCopy + k1)))
          with (Z.to_nat readBytes + (tn + Z.to_nat k1))%nat by (subst tn; lia).
        rewrite Hpend1.
        rewrite stitch.
        -- replace (readBytes + toCopy + k1) with (readBytes + (toCopy + k1)) by lia.
           done.
        -- unfold len in *. subst tn. lia.
        -- rewrite Hpend, length_app. lia.
      * rewrite Hp, Hk1.
        set (k1 := delivered (remaining - toCopy) r1).
        assert (Hk1pos : 0 <= k1) by (subst k1; unfold len; lia).
        rewrite Hpend1, drop_drop. f_equal. subst tn. lia.
      * rewrite Hcp, Hk1. subst r1. simpl. rewrite int64_add_int64. f_equal. lia.
  - destruct (Z.ltb_spec (currentChunkIndex r) (len (seekTable r))) as [Hin | Hout].
    + (* the chunk at the index is opened *)
      destruct (lookup_lt_is_Some_2 contents (Z.to_nat (currentChunkIndex r))) as [c Hc].
      { rewrite Hsame, <- Htbl. unfold len in Hin. lia. }
      destruct (Hopen r m (Z.to_nat (currentChunkIndex r)) c HI Htbl
                      ltac:(by rewrite Z2Nat.id) Hc) as (m1 & Hop & HI1).
      rewrite Hop.
      set (r1 := set_currentChunkPosition 0 (set_currentChunkData (Some c) r)).
      assert (Hpend : pending contents r1 = pending contents r).
      { unfold pending. subst r1. simpl. rewrite Hd.
        by rewrite (drop_S _ _ _ Hc). }
      pose proof (chunk_fits _ _ Hc) as Hclen.
      destruct (IH buffer readBytes remaining r1 m1) as (r' & m' & Heq & Hs & Hp & HI' & Hcp);
        try done.
      { subst r1. unfold int64_range in *. repeat split; simpl; try done; unfold len; lia. }
      { subst r1. unfold Read_rank in *. simpl. rewrite Hd in Hfuel.
        destruct (Z.ltb_spec (currentChunkIndex r) 0); lia. }
      rewrite Hpend in Heq, Hp, Hcp. exists r', m'. done.
    + apply Read_return_stops; try done.
      rewrite (pending_past_end r Htbl Hd Hout). simpl. unfold len. simpl. lia.
Qed.

(** X19: a [Read] on a reader that agrees with the chunks, when every
    chunk can be opened, fills the front of the buffer with the next
    bytes of the object, as many as the buffer holds or the object still
    has, and leaves the rest of the buffer alone.  It returns that count,
    with [io.EOF] exactly when the count is 0, and the reader then
    stands that many bytes further on. *)
Theorem Read_delivers_next_bytes
        (r : objectReader) (buffer : list byte) (m : ObjectManager E) :
  Inv m -> in_step tbl contents r ->
  exists r' m',
    Read r buffer m
    = Some (Return
              ((take (Z.to_nat (delivered (len buffer) r)) (pending contents r)
                ++ drop (Z.to_nat (delivered (len buffer) r)) buffer,
                delivered (len buffer) r,
                (if delivered (len buffer) r =? 0 then Some io_EOF else None),
                r'), m'))
    /\ in_step tbl contents r'
    /\ pending contents r' = drop (Z.to_nat (delivered (len buffer) r)) (pending contents r)
    /\ Inv m'
    /\ currentPosition r' = int64 (currentPosition r + delivered (len buffer) r).
Proof.
  intros HI Hstep. unfold Read.
  destruct (Read_loop_delivers
              (S (length buffer + 2 * length (seekTable r) + 1)) buffer 0 (len buffer) r m)
    as (r' & m' & Heq & Hrest); try done; try (unfold len; lia).
  { unfold Read_rank, len.
    destruct (currentChunkData r), (Z.ltb_spec (currentChunkIndex r) 0); lia. }
  exists r', m'. split; [| done]. rewrite Heq. simpl. done.
Qed.

Hypothesis Hok : seekTable_ok tbl.
Hypothesis Hagree : lengths_agree tbl contents.

(** A chunk starts where the chunks before it end. *)
Lemma start_is_sum (k : nat) (e : entry) :
  tbl !! k = Some e -> Start e = len (concat (take k contents)).
Proof.
  revert e. induction k as [| k IH]; intros e Hk.
  - rewrite (st_first tbl Hok e Hk). done.
  - destruct (lookup_lt_is_Some_2 tbl k) as [e0 He0].
    { apply lookup_lt_Some in Hk. lia. }
    destruct (lookup_lt_is_Some_2 contents k) as [c Hc].
    { rewrite Hsame. apply lookup_lt_Some in He0. lia. }
    rewrite (st_contiguous tbl Hok k e0 e He0 Hk), (IH e0 He0).
    rewrite (take_S_r _ _ _ Hc), concat_app. simpl. rewrite app_nil_r.
    rewrite (Forall2_lookup_lr _ _ _ _ _ _ Hagree He0 Hc).
    unfold len. rewrite length_app. lia.
Qed.

(** The bytes from [offset] on, for an offset inside chunk [k]. *)
Lemma drop_into_chunk (k : nat) (e : entry) (c : list byte) (offset : Z) :
  tbl !! k = Some e -> contents !! k = Some c -> covers e offset ->
  drop (Z.to_nat (offset - Start e)) c ++ concat (drop (S k) contents)
  = drop (Z.to_nat offset) (concat contents).
Proof.
  intros Hk Hc [Hlo Hhi].
  pose proof (start_is_sum k e Hk) as Hstart.
  rewrite <- (take_drop_middle contents k c Hc) at 2.
  rewrite concat_app. simpl.
  replace (Z.to_nat offset)
    with (length (concat (take k contents)) + Z.to_nat (offset - Start e))%nat
    by (unfold len in Hstart; lia).
  rewrite drop_app_add. rewrite drop_app_le; [done |].
  pose proof (Forall2_lookup_lr _ _ _ _ _ _ Hagree Hk Hc) as Hl.
  simpl in Hl. unfold len in Hl. lia.
Qed.

(** A seek to an offset inside the object, on a reader that agrees with
    the chunks. *)
Lemma Seek_positions_reader
      (r : objectReader) (offset : Z) (final : entry) (m : ObjectManager E) :
  Inv m -> in_step tbl contents r ->
  last tbl = Some final -> totalLength r = endOffset final ->
  0 <= offset < totalLength r ->
  exists r' m',
    Seek r offset 0 m = Some (Return ((offset, None, r'), m'))
    /\ in_step tbl contents r'
    /\ pending contents r' = drop (Z.to_nat offset) (concat contents)
    /\ Inv m'.
Proof.
  intros HI Hstep Hlast Htotal Hoff.
  pose proof Hstep as (Htbl & Hposr & Hidx & Hdata).
  unfold Seek. simpl. unfold Seek_absolute.
  destruct (Z.ltb_spec offset 0); [lia |].
  destruct (Z.gtb_spec offset (totalLength r)); [lia |].
  rewrite Htotal in Hoff.
  assert (Hokr : seekTable_ok (seekTable r)) by (by rewrite Htbl).
  assert (Hlastr : last (seekTable r) = Some final) by (by rewrite Htbl).
  destruct (findChunkIndexForOffset_hit r offset final Hokr Hlastr Hoff)
    as (k & e & -> & Hk & Hcov).
  rewrite Hk. pose proof Hk as [Hk0 Hkn]%at_index_Some.
  pose proof (offset_in_range offset final Hoff) as Hor.
  rewrite Htbl in Hkn.
  destruct (lookup_lt_is_Some_2 contents (Z.to_nat k)) as [c Hc].
  { rewrite Hsame. by apply lookup_lt_Some in Hkn. }
  assert (Hcl : Length e = len c).
  { apply (Forall2_lookup_lr _ _ _ _ _ _ Hagree Hkn Hc). }
  assert (Hin : int64 (offset - Start e) = offset - Start e).
  { apply int64_small. destruct (in_range_lookup _ Hok _ _ Hkn) as [[? ?] _].
    pose proof (starts_nonneg _ Hok _ _ Hkn).
    unfold covers, int64_range in *. lia. }
  rewrite Hin.
  assert (Hland : forall r2 : objectReader,
             seekTable r2 = tbl -> currentChunkIndex r2 = k ->
             currentChunkData r2 = Some c ->
             let r3 := set_currentPosition offset
                         (set_currentChunkPosition (offset - Start e) r2) in
             in_step tbl contents r3
             /\ pending contents r3 = drop (Z.to_nat offset) (concat contents)).
  { intros r2 Ht2 Hi2 Hd2 r3. subst r3. split.
    - split; [done |]. split; [done |]. split; [simpl; lia |]. simpl. rewrite Hd2, Hi2.
      split; [done |]. unfold covers in Hcov. lia.
    - unfold pending. simpl. rewrite Hd2, Hi2.
      by apply (drop_into_chunk (Z.to_nat k) e c offset). }
  set (r1 := if bool_decide (k ≠ currentChunkIndex r)
             then set_currentChunkIndex k (closeCurrentChunk r) else r).
  assert (Hr1 : seekTable r1 = tbl /\ currentChunkIndex r1 = k).
  { subst r1. case_bool_decide as Hi; [done |]. by split. }
  destruct Hr1 as [Ht1 Hi1].
  destruct (currentChunkData r1) as [c1 |] eqn:Hd1.
  - (* the chunk is already loaded *)
    assert (r1 = r /\ c1 = c) as [Hr1 ->].
    { subst r1. case_bool_decide as Hi; [simpl in Hd1; discriminate |].
      split; [done |]. rewrite Hd1 in Hdata. destruct Hdata as [Hc1 _].
      rewrite <- Hi in Hc1. congruence. }
    destruct (Hland r1 Ht1 Hi1 Hd1) as [Hs Hp].
    eexists _, m. split; [reflexivity |]. done.
  - destruct (Hopen r1 m (Z.to_nat k) c HI Ht1 ltac:(by rewrite Z2Nat.id) Hc)
      as (m1 & Hop & HI1).
    rewrite Hop.
    destruct (Hland (set_currentChunkPosition 0 (set_currentChunkData (Some c) r1)))
      as [Hs Hp]; try done.
    eexists _, m1. split; [reflexivity |]. done.
Qed.

End Delivery.
(** ** Snapshot sources *)

Lemma slen_nonneg (s : string) : 0 <= slen s.
Proof. unfold slen. lia. Qed.

Lemma slen_append (p s : string) : slen (p +:+ s) = slen p + slen s.
Proof. unfold slen. rewrite length_append. lia. Qed.

Lemma slen_String (a : Ascii.ascii) (s : string) : slen (String a s) = 1 + slen s.
Proof. unfold slen. simpl. lia. Qed.

Lemma slen_positive (s : string) : s <> "" -> 0 < slen s.
Proof. destruct s; [done | rewrite slen_String; pose proof (slen_nonneg s); lia]. Qed.

Lemma substring_append_l (s t : string) : String.substring 0 (String.length s) (s +:+ t) = s.
Proof. induction s as [| c s IH]; simpl; [by destruct t | by rewrite IH]. Qed.

(** [s[len(a) : len(a)+len(b)]] of [s = a + b + d] is [b]. *)
Lemma str_slice_middle (a b d : string) :
  str_slice (a +:+ b +:+ d) (slen a) (slen a + slen b) = Some b.
Proof.
  unfold str_slice.
  pose proof (slen_nonneg a). pose proof (slen_nonneg b). pose proof (slen_nonneg d).
  rewrite !slen_append.
  assert ((0 <=? slen a) && (slen a <=? slen a + slen b)
          && (slen a + slen b <=? slen a + (slen b + slen d)) = true) as ->.
  { rewrite !andb_true_iff, !Z.leb_le. lia. }
  f_equal. unfold slen.
  replace (Z.to_nat (Z.of_nat (String.length a))) with (String.length a) by lia.
  replace (Z.to_nat (Z.of_nat (String.length a) + Z.of_nat (String.length b)
                     - Z.of_nat (String.length a)))
    with (String.length b) by lia.
  by rewrite substring_append_r, substring_append_l.
Qed.

Lemma append_assoc (a b c : string) : (a +:+ b) +:+ c = a +:+ b +:+ c.
Proof.
  induction a as [| x a IH]; [done |].
  change (String x ((a +:+ b) +:+ c) = String x (a +:+ b +:+ c)). by rewrite IH.
Qed.

Lemma append_empty_r (a : string) : a +:+ "" = a.
Proof.
  induction a as [| x a IH]; [done |].
  change (String x (a +:+ "") = String x a). by rewrite IH.
Qed.

(** The part [b] of a text [a + b + d], cut out by its offsets. *)
Lemma str_slice_part (path a b d : string) (lo hi : Z) :
  path = a +:+ b +:+ d -> lo = slen a -> hi = lo + slen b ->
  str_slice path lo hi = Some b.
Proof. intros -> -> ->. apply str_slice_middle. Qed.

Lemma index_from_cons (a c : Ascii.ascii) (s : string) (i : Z) :
  index_from (String a s) (String c "") i
  = if Ascii.eqb c a then i else index_from s (String c "") (i + 1).
Proof.
  simpl. destruct (Ascii.ascii_dec c a) as [-> | Hne].
  - rewrite Ascii.eqb_refl. by destruct s.
  - by apply Ascii.eqb_neq in Hne as ->.
Qed.

Lemma index_from_here (c : Ascii.ascii) (s : string) (i : Z) :
  index_from (String c "" +:+ s) (String c "") i = i.
Proof.
  change (String c "" +:+ s) with (String c s).
  by rewrite index_from_cons, Ascii.eqb_refl.
Qed.

Lemma index_from_skip (a c : Ascii.ascii) (s : string) (i : Z) :
  Ascii.eqb c a = false ->
  index_from (String a "" +:+ s) (String c "") i = index_from s (String c "") (i + 1).
Proof.
  intros Hne. change (String a "" +:+ s) with (String a s).
  by rewrite index_from_cons, Hne.
Qed.

(** Where the search starts counting does not decide whether it finds. *)
Lemma index_from_miss (s sep : string) (i j : Z) :
  0 <= i -> index_from s sep i = -1 -> index_from s sep j = -1.
Proof.
  revert i j. induction s as [| a s IH]; intros i j Hi.
  - destruct sep; simpl; [lia | done].
  - change (index_from (String a s) sep i)
      with (if String.prefix sep (String a s) then i else index_from s sep (i + 1)).
    change (index_from (String a s) sep j)
      with (if String.prefix sep (String a s) then j else index_from s sep (j + 1)).
    destruct (String.prefix sep (String a s)); [lia |].
    apply IH. lia.
Qed.

Lemma lacks_cons (a c : Ascii.ascii) (s : string) :
  lacks (String a s) (String c "") -> Ascii.eqb c a = false /\ lacks s (String c "").
Proof.
  unfold lacks, Index. rewrite index_from_cons.
  destruct (Ascii.eqb c a); [done |].
  intros H. split; [done |]. by apply (index_from_miss _ _ (0 + 1)).
Qed.

(** The search for a byte passes over a prefix that lacks it. *)
Lemma index_from_append (u v : string) (c : Ascii.ascii) (i : Z) :
  lacks u (String c "") ->
  index_from (u +:+ v) (String c "") i = index_from v (String c "") (i + slen u).
Proof.
  revert i. induction u as [| a u IH]; intros i Hu.
  - simpl. f_equal. unfold slen. simpl. lia.
  - apply lacks_cons in Hu as [Hne Hu].
    change (String a u +:+ v) with (String a (u +:+ v)).
    rewrite index_from_cons, Hne, (IH _ Hu), slen_String. f_equal. lia.
Qed.

(** A byte that occurs in a text is found. *)
Lemma index_from_present (u v : string) (c : Ascii.ascii) (i : Z) :
  i <= index_from (u +:+ String c "" +:+ v) (String c "") i.
Proof.
  revert i. induction u as [| a u IH]; intros i.
  - change ("" +:+ String c "" +:+ v) with (String c "" +:+ v).
    rewrite index_from_here. lia.
  - change (String a u +:+ String c "" +:+ v) with (String a (u +:+ String c "" +:+ v)).
    rewrite index_from_cons. destruct (Ascii.eqb c a); [lia |].
    specialize (IH (i + 1)). lia.
Qed.

Section SourceNames.
Variable filepath_Abs : string -> string * option error.
Variable filepath_Clean : string -> string.
Variable strconv_Quote : string -> string.

Local Abbreviation ParseSourceInfo :=
  (ParseSourceInfo filepath_Abs filepath_Clean strconv_Quote).

(** A text with an [@] in it is not the name of the global source. *)
Lemma not_global (s : string) : 0 <= Index s "@" -> String.eqb s "(global)" = false.
Proof.
  intros H. apply String.eqb_neq. intros ->. vm_compute in H. by apply H.
Qed.

(** X21: the round trip of source names.  Reading back the text that [String]
    gives for a readable source returns that source and no error, whatever
    the host and user name of the caller are. *)
Theorem ParseSourceInfo_String (ssi : SourceInfo.t) (hostname username : string) :
  readable ssi ->
  ParseSourceInfo (SourceInfo.String ssi) hostname username = Return (ssi, None).
Proof.
  intros [-> | (Hat & Hcolon & Hhost & Hnopath & Hpath)]; [done |].
  destruct ssi as [H U P]; simpl in *.
  pose proof (slen_nonneg U) as HU. pose proof (slen_nonneg H) as HH.
  pose proof (slen_nonneg P) as HP.
  unfold SourceInfo.String; simpl.
  destruct (String.eqb_spec P "") as [-> | HPne].
  - (* user@host *)
    specialize (Hnopath eq_refl). apply slen_positive in Hnopath as Hlen.
    apply String.eqb_neq in Hnopath as ->. simpl.
    assert (Index (U +:+ "@" +:+ H) "@" = slen U) as H1.
    { unfold Index. rewrite (index_from_append _ _ _ _ Hat), index_from_here. lia. }
    assert (Index (U +:+ "@" +:+ H) ":" = -1) as H2.
    { unfold Index. rewrite (index_from_append _ _ _ _ Hcolon), index_from_skip by done.
      by apply (index_from_miss _ _ 0). }
    unfold ParseSourceInfo.
    rewrite not_global by (rewrite H1; lia).
    cbv zeta. rewrite H1, H2.
    assert ((slen U >? 0) && (-1 >? 0) && (slen U <? -1)
            && (-1 <? slen (U +:+ "@" +:+ H)) = false) as ->.
    { by destruct (slen U >? 0). }
    assert ((slen U >=? 0) && (-1 <? 0) = true) as ->.
    { rewrite andb_true_r. lia. }
    assert (slen (U +:+ "@" +:+ H) = slen U + (1 + slen H)) as Hall.
    { by rewrite !slen_append. }
    assert ((slen U + 1 <? slen (U +:+ "@" +:+ H)) = true) as -> by lia.
    rewrite (str_slice_part _ "" U ("@" +:+ H)) by done.
    rewrite (str_slice_part _ (U +:+ "@") H "").
    + done.
    + by rewrite append_assoc, append_empty_r.
    + rewrite slen_append. by change (slen "@") with 1.
    + rewrite Hall. lia.
  - (* user@host:path *)
    specialize (Hpath HPne). apply slen_positive in Hpath as Hlen.
    assert (String.eqb H "" && false && String.eqb U "" = false) as ->.
    { by rewrite andb_false_r. }
    cbv iota.
    assert (Index (U +:+ "@" +:+ H +:+ ":" +:+ P) "@" = slen U) as H1.
    { unfold Index. rewrite (index_from_append _ _ _ _ Hat), index_from_here. lia. }
    assert (Index (U +:+ "@" +:+ H +:+ ":" +:+ P) ":" = slen U + 1 + slen H) as H2.
    { unfold Index. rewrite (index_from_append _ _ _ _ Hcolon), index_from_skip by done.
      rewrite (index_from_append _ _ _ _ Hhost), index_from_here. lia. }
    assert (slen (U +:+ "@" +:+ H +:+ ":" +:+ P) = slen U + (1 + (slen H + (1 + slen P))))
      as Hall.
    { by rewrite !slen_append. }
    unfold ParseSourceInfo.
    rewrite not_global by (rewrite H1; lia).
    cbv zeta. rewrite H1, H2, Hall.
    assert ((slen U >? 0) && (slen U + 1 + slen H >? 0) && (slen U <? slen U + 1 + slen H)
            && (slen U + 1 + slen H <? slen U + (1 + (slen H + (1 + slen P)))) = true) as ->.
    { rewrite !andb_true_iff. lia. }
    rewrite (str_slice_part _ "" U ("@" +:+ H +:+ ":" +:+ P)) by done.
    rewrite (str_slice_part _ (U +:+ "@") H (":" +:+ P)).
    + rewrite (str_slice_part _ (U +:+ "@" +:+ H +:+ ":") P ""); [done | | |].
      * by rewrite !append_assoc, append_empty_r.
      * rewrite !slen_append. change (slen "@") with 1. change (slen ":") with 1. lia.
      * lia.
    + by rewrite append_assoc.
    + rewrite slen_append. by change (slen "@") with 1.
    + lia.
Qed.

(** X22: a source without user name is not read back.  The text of a
    source that has a path but an empty user name starts with [@]; it is
    read as a directory of the caller, so the result carries the caller's
    host and user name and the cleaned absolute form of the whole text. *)
Theorem ParseSourceInfo_String_without_user (ssi : SourceInfo.t)
        (hostname username absPath : string) :
  SourceInfo.UserName ssi = "" -> SourceInfo.Path ssi <> "" ->
  filepath_Abs (SourceInfo.String ssi) = (absPath, None) ->
  ParseSourceInfo (SourceInfo.String ssi) hostname username
  = Return (SourceInfo.mk hostname username (filepath_Clean absPath), None).
Proof.
  destruct ssi as [H U P]; simpl. intros -> HP.
  unfold SourceInfo.String; simpl.
  apply String.eqb_neq in HP as ->. rewrite andb_false_r. cbn [andb].
  change ("" +:+ "@" +:+ H +:+ ":" +:+ P) with ("@" +:+ H +:+ ":" +:+ P).
  intros Habs.
  assert (Index ("@" +:+ H +:+ ":" +:+ P) "@" = 0) as H1.
  { unfold Index. apply index_from_here. }
  assert (0 <= Index ("@" +:+ H +:+ ":" +:+ P) ":") as H2.
  { unfold Index. rewrite <- append_assoc. apply index_from_present. }
  unfold ParseSourceInfo.
  rewrite not_global by (rewrite H1; lia).
  cbv zeta. rewrite H1, Habs.
  assert ((Index ("@" +:+ H +:+ ":" +:+ P) ":" <? 0) = false) as -> by lia.
  done.
Qed.

(** X23: no panic on any text.  [ParseSourceInfo] slices its argument only
    within bounds: on every text it returns, with a source or an error. *)
Theorem ParseSourceInfo_returns (path hostname username : string) :
  exists result, ParseSourceInfo path hostname username = Return result.
Proof.
  unfold ParseSourceInfo, str_slice.
  destruct (String.eqb path "(global)"); [by eexists |].
  cbv zeta. set (p1 := Index path "@"). set (p2 := Index path ":").
  destruct ((p1 >? 0) && (p2 >? 0) && (p1 <? p2) && (p2 <? slen path)) eqn:Hfull.
  - rewrite !andb_true_iff in Hfull. destruct Hfull as [[[H1 H2] H3] H4].
    assert ((0 <=? 0) && (0 <=? p1) && (p1 <=? slen path) = true) as ->.
    { rewrite !andb_true_iff. lia. }
    assert ((0 <=? p1 + 1) && (p1 + 1 <=? p2) && (p2 <=? slen path) = true) as ->.
    { rewrite !andb_true_iff. lia. }
    assert ((0 <=? p2 + 1) && (p2 + 1 <=? slen path) && (slen path <=? slen path) = true)
      as ->.
    { rewrite !andb_true_iff. lia. }
    by eexists.
  - destruct ((p1 >=? 0) && (p2 <? 0)) eqn:Hhost.
    + rewrite andb_true_iff in Hhost. destruct Hhost as [H1 H2].
      destruct (p1 + 1 <? slen path) eqn:Hlen; [| by eexists].
      assert ((0 <=? 0) && (0 <=? p1) && (p1 <=? slen path) = true) as ->.
      { rewrite !andb_true_iff. lia. }
      assert ((0 <=? p1 + 1) && (p1 + 1 <=? slen path) && (slen path <=? slen path) = true)
        as ->.
      { rewrite !andb_true_iff. lia. }
      by eexists.
    + destruct (filepath_Abs path) as [absPath [e |]]; by eexists.
Qed.
End SourceNames.

(** ** Filtering by host and user *)

(** X24: the filter keeps what the flags ask for.  [filterHostAndUser]
    returns, in their order, exactly the snapshots whose source has the
    given host and user name, where an empty flag accepts every value. *)
Theorem filterHostAndUser_keeps_wanted {T} (host user : string) (snapshots : list (Manifest T)) :
  filterHostAndUser host user snapshots = List.filter (wanted host user) snapshots.
Proof.
  unfold filterHostAndUser.
  destruct (String.eqb host "" && String.eqb user "") eqn:Hall.
  - apply andb_true_iff in Hall as [Hh Hu].
    induction snapshots as [| s l IH]; [done |].
    simpl. unfold wanted at 1. rewrite Hh, Hu. simpl. by rewrite <- IH.
  - clear Hall.
    enough (forall acc : list (Manifest T),
               foldl (fun result s =>
                        if negb (String.eqb host "")
                           && negb (String.eqb host (SourceInfo.Host (Source s)))
                        then result
                        else if negb (String.eqb user "")
                                && negb (String.eqb user (SourceInfo.UserName (Source s)))
                        then result
                        else result ++ [s]) acc snapshots
               = acc ++ List.filter (wanted host user) snapshots) as Hloop.
    { apply (Hloop []). }
    induction snapshots as [| s l IH]; intros acc; simpl.
    + by rewrite app_nil_r.
    + rewrite IH. unfold wanted at 2.
      destruct (String.eqb host ""), (String.eqb host (SourceInfo.Host (Source s))),
        (String.eqb user ""), (String.eqb user (SourceInfo.UserName (Source s)));
        simpl; by rewrite <- ?app_assoc.
Qed.
(** ** Expiring snapshots *)

Lemma at_index_drop {A} (l : list A) (i : Z) (x : A) :
  0 <= i -> at_index l i = Some x ->
  drop (Z.to_nat i) l = x :: drop (Z.to_nat (i + 1)) l.
Proof.
  intros Hi. unfold at_index.
  assert ((i <? 0) = false) as -> by lia.
  intros Hx. replace (Z.to_nat (i + 1)) with (S (Z.to_nat i)) by lia.
  by apply drop_S.
Qed.

Lemma drop_next {A} (l : list A) (i : Z) :
  0 <= i -> drop (Z.to_nat (i + 1)) l = drop 1 (drop (Z.to_nat i) l).
Proof. intros Hi. rewrite drop_drop. f_equal. lia. Qed.

Lemma at_index_within {A} (l : list A) (i : Z) :
  0 <= i < len l -> exists x, at_index l i = Some x.
Proof.
  intros Hi. unfold at_index, len in *.
  assert ((i <? 0) = false) as -> by lia.
  destruct (lookup_lt_is_Some_2 l (Z.to_nat i)) as [x Hx]; [lia | by exists x].
Qed.

Lemma complete_named_app {T} (a b : list (Manifest T)) (na nb : list string) :
  length a = length na ->
  complete_named (a ++ b) (na ++ nb) = complete_named a na ++ complete_named b nb.
Proof.
  intros Hlen. unfold complete_named.
  by rewrite (zip_with_app _ _ _ _ _ Hlen), List.filter_app.
Qed.

Lemma complete_named_take {T} (a : list (Manifest T)) (names : list string) :
  complete_named a (take (length a) names) = complete_named a names.
Proof. unfold complete_named. by rewrite zip_with_take_r. Qed.

Section ExpireMore.
Context {T W : Type}.
Variable zeroTime : T.
Variable time_Now : W -> T * W.
Variable AddDate : T -> Z -> Z -> Z -> T.
Variable Add : T -> Z -> T.
Variable After : T -> T -> bool.
Variable Format : T -> string -> string.
Variable ISOWeek : T -> Z * Z.
Variable Local : T -> T.
Variable Sprintf_week : Z -> Z -> string.
Variable strconv_Quote : string -> string.
Variable GetEffectivePolicy : SourceInfo.t -> W -> (Policy.t + error) * W.

Local Abbreviation periods := (periods After Format ISOWeek Sprintf_week).
Local Abbreviation expireLoop := (expireLoop After Format ISOWeek Local Sprintf_week).
Local Abbreviation expireSnapshotsForSingleSource :=
  (expireSnapshotsForSingleSource zeroTime time_Now AddDate Add After Format ISOWeek Local
                                  Sprintf_week).
Local Abbreviation flush :=
  (flush zeroTime time_Now AddDate Add After Format ISOWeek Local Sprintf_week strconv_Quote
         GetEffectivePolicy).
Local Abbreviation expireSnapshots_loop :=
  (expireSnapshots_loop zeroTime time_Now AddDate Add After Format ISOWeek Local Sprintf_week
                        strconv_Quote GetEffectivePolicy).
Local Abbreviation expireSnapshots :=
  (expireSnapshots zeroTime time_Now AddDate Add After Format ISOWeek Local Sprintf_week
                   strconv_Quote GetEffectivePolicy).

(** The names the loop adds are names of complete snapshots, taken at the
    positions of these snapshots, in their order. *)
Lemma expireLoop_by_position (p : ExpirationPolicy.t) (c : cutoffs T) (names : list string)
      (snapshots : list (Manifest T)) (i : Z) (st st' : expiry) :
  0 <= i ->
  expireLoop p c names i snapshots st = Return st' ->
  exists added,
    toDelete st' = toDelete st ++ added
    /\ added `sublist_of` (complete_named snapshots (drop (Z.to_nat i) names)).*2.
Proof.
  revert i st. induction snapshots as [| s rest IH]; intros i st Hi; simpl.
  - intros [= <-]. exists []. by rewrite app_nil_r.
  - unfold complete_named.
    destruct (String.eqb (IncompleteReason s) "") eqn:Hdone; simpl.
    + set (g := periods p c i s _).
      destruct (len (keep g) >? 0).
      * intros Hrun. apply IH in Hrun as (added & Hadd & Hsub); [| lia].
        exists added. split; [done |].
        destruct (drop (Z.to_nat i) names) as [| n ns] eqn:Hnames.
        { rewrite (drop_next _ _ Hi), Hnames in Hsub. simpl in Hsub.
          unfold complete_named in Hsub. by destruct rest. }
        rewrite (drop_next _ _ Hi), Hnames in Hsub. simpl in Hsub.
        simpl. rewrite Hdone. simpl. by apply sublist_cons.
      * destruct (at_index names i) as [name |] eqn:Hname; [| done].
        intros Hrun. apply IH in Hrun as (added & Hadd & Hsub); [| lia].
        simpl in Hadd. exists (name :: added). split.
        { by rewrite Hadd, <- app_assoc. }
        rewrite (at_index_drop _ _ _ Hi Hname). simpl. rewrite Hdone. simpl.
        by apply sublist_skip.
    + intros Hrun. apply IH in Hrun as (added & Hadd & Hsub); [| lia].
      exists added. split; [done |].
      rewrite (drop_next _ _ Hi) in Hsub.
      destruct (drop (Z.to_nat i) names) as [| n ns] eqn:Hnames; simpl in *.
      * unfold complete_named in Hsub. by destruct rest.
      * rewrite Hdone. done.
Qed.

(** X25: deleted names come by position.  Whatever the policy and the
    clock, the names that [expireSnapshotsForSingleSource] returns are names
    of complete snapshots, each taken from [snapshotNames] at the position
    of its snapshot, in the order of the snapshots: an incomplete snapshot
    is never named. *)
Theorem expireSnapshotsForSingleSource_names_by_position
        (snapshots : list (Manifest T)) (pol : Policy.t) (snapshotNames : list string)
        (w w' : W) (td : list string) (out : list output) :
  expireSnapshotsForSingleSource snapshots pol snapshotNames w = Return (td, out, w') ->
  td `sublist_of` (complete_named snapshots snapshotNames).*2.
Proof.
  unfold expireSnapshotsForSingleSource.
  destruct (cutoffTimes _ _ _ _ _ _) as [c w1].
  destruct (expireLoop _ _ _ _ _ _) as [st |] eqn:Hrun; [| done].
  intros [= <- _ _].
  apply expireLoop_by_position in Hrun as (added & Hadd & Hsub); [| lia].
  simpl in Hadd. by rewrite Hadd.
Qed.

Lemma periods_latest (latest : option Z) (c : cutoffs T) (i : Z) (s : Manifest T)
      (g : registry) :
  periods (ExpirationPolicy.mk latest None None None None None) c i s g
  = match latest with
    | Some n => registerSnapshot (pretty i) "latest" n g
    | None => g
    end.
Proof. done. Qed.

(** The first time an index is registered while the allowance lasts. *)
Lemma registerSnapshot_latest (i n k : Z) (st : expiry) :
  int64_range n -> 0 <= k ->
  counter (counted st) "latest" = k ->
  (forall key, is_Some (seen st !! key) -> exists j, 0 <= j < i /\ key = pretty j) ->
  registerSnapshot (pretty i) "latest" n (mkRegistry (seen st) (counted st) [])
  = if k <? n
    then mkRegistry (<[pretty i := true]> (seen st)) (<["latest" := k + 1]> (counted st))
                    ["latest"]
    else mkRegistry (seen st) (counted st) [].
Proof.
  intros Hn Hk0 Hk Hseen. unfold registerSnapshot. cbn [ids idCounters keep].
  assert (bool_decide (is_Some (seen st !! pretty i)) = false) as ->.
  { apply bool_decide_eq_false. intros Hin.
    apply Hseen in Hin as (j & Hj & Heq). apply (inj pretty) in Heq. lia. }
  rewrite Hk. cbn [negb andb].
  destruct (k <? n) eqn:Hroom; [| done].
  apply Z.ltb_lt in Hroom.
  rewrite (int64_small (k + 1)) by (unfold int64_range in *; lia).
  done.
Qed.

(** The loop under a policy that has at most the field [KeepLatest]: of
    the complete snapshots still to come, what is left of the allowance is
    kept and the others are deleted. *)
Lemma expireLoop_latest (latest : option Z) (c : cutoffs T) (names : list string)
      (snapshots : list (Manifest T)) (i k : Z) (st : expiry) :
  int64_range (default 0 latest) ->
  0 <= i -> i + len snapshots <= len names ->
  counter (counted st) "latest" = k -> 0 <= k ->
  (forall key, is_Some (seen st !! key) -> exists j, 0 <= j < i /\ key = pretty j) ->
  exists st',
    expireLoop (ExpirationPolicy.mk latest None None None None None) c names i snapshots st
    = Return st'
    /\ toDelete st'
       = toDelete st
         ++ (drop (Z.to_nat (default 0 latest - k))
                  (complete_named snapshots (drop (Z.to_nat i) names))).*2.
Proof.
  intros Hn. revert i k st.
  induction snapshots as [| s rest IH]; intros i k st Hi Hlen Hk Hk0 Hseen.
  - exists st. split; [done |]. unfold complete_named. simpl.
    by rewrite drop_nil, app_nil_r.
  - assert (len (s :: rest) = 1 + len rest) as Hcons by (unfold len; simpl; lia).
    rewrite Hcons in Hlen.
    destruct (at_index_within names i) as [name Hname]; [unfold len in *; lia |].
    rewrite (at_index_drop _ _ _ Hi Hname).
    unfold complete_named. simpl.
    destruct (String.eqb (IncompleteReason s) "") eqn:Hdone; simpl.
    + (* a complete snapshot *)
      rewrite periods_latest.
      destruct latest as [n |]; simpl in Hn |- *.
      * rewrite (registerSnapshot_latest i n k st Hn Hk0 Hk Hseen).
        destruct (k <? n) eqn:Hroom; simpl.
        -- (* kept *)
           apply Z.ltb_lt in Hroom.
           destruct (IH (i + 1) (k + 1)
                        (mkExpiry (<[pretty i := true]> (seen st))
                                  (<["latest" := k + 1]> (counted st)) (toDelete st)
                                  (printed st
                                   ++ [Stdout ("  keeping  "
                                               +:+ Format (Local (StartTime s))
                                                     "2006-01-02 15:04:05 MST"
                                               +:+ " " +:+ "latest" +:+ newline)])))
             as (st' & Hrun & Hdel); [lia | lia | | lia | |].
           { simpl. unfold counter. by rewrite lookup_insert_eq. }
           { simpl. intros key Hin.
             destruct (decide (pretty i = key)) as [<- | Hne].
             - exists i. split; [lia | done].
             - rewrite lookup_insert_ne in Hin by done.
               apply Hseen in Hin as (j & Hj & Heq). exists j. split; [lia | done]. }
           exists st'. split; [exact Hrun |].
           rewrite Hdel. simpl. f_equal. f_equal.
           replace (Z.to_nat (n - k)) with (S (Z.to_nat (n - (k + 1)))) by lia.
           done.
        -- (* deleted *)
           apply Z.ltb_ge in Hroom. rewrite Hname.
           destruct (IH (i + 1) k
                        (mkExpiry (seen st) (counted st) (toDelete st ++ [name])
                                  (printed st
                                   ++ [Stdout ("  deleting "
                                               +:+ Format (Local (StartTime s))
                                                     "2006-01-02 15:04:05 MST"
                                               +:+ newline)])))
             as (st' & Hrun & Hdel); [lia | lia | done | lia | |].
           { simpl. intros key Hin. apply Hseen in Hin as (j & Hj & Heq).
             exists j. split; [lia | done]. }
           exists st'. split; [exact Hrun |].
           rewrite Hdel. simpl. rewrite <- app_assoc. simpl.
           replace (Z.to_nat (n - k)) with 0%nat by lia. simpl. f_equal.
      * rewrite Hname.
        destruct (IH (i + 1) k
                     (mkExpiry (seen st) (counted st) (toDelete st ++ [name])
                               (printed st
                                ++ [Stdout ("  deleting "
                                            +:+ Format (Local (StartTime s))
                                                  "2006-01-02 15:04:05 MST"
                                            +:+ newline)])))
          as (st' & Hrun & Hdel); [lia | lia | done | lia | |].
        { simpl. intros key Hin. apply Hseen in Hin as (j & Hj & Heq).
          exists j. split; [lia | done]. }
        exists st'. split; [exact Hrun |].
        rewrite Hdel. simpl. rewrite <- app_assoc. simpl.
        replace (Z.to_nat (0 - k)) with 0%nat by lia. simpl. f_equal.
    + (* an incomplete snapshot *)
      destruct (IH (i + 1) k st) as (st' & Hrun & Hdel); [lia | lia | done | lia | |].
      { intros key Hin. apply Hseen in Hin as (j & Hj & Heq).
        exists j. split; [lia | done]. }
      exists st'. split; [exact Hrun | exact Hdel].
Qed.

(** X26: a policy of [KeepLatest] alone.  Under a policy that has no
    field but possibly [KeepLatest], and with a name for every snapshot,
    [expireSnapshotsForSingleSource] keeps the first [KeepLatest] complete
    snapshots of the list and returns the names of all other complete
    ones; without [KeepLatest] it returns the names of all complete
    snapshots.  The clock is not read. *)
Theorem expireSnapshotsForSingleSource_keep_latest
        (snapshots : list (Manifest T)) (src : SourceInfo.t) (latest : option Z)
        (snapshotNames : list string) (w : W) :
  let pol := Policy.mk src (ExpirationPolicy.mk latest None None None None None) in
  int64_range (default 0 latest) ->
  len snapshots <= len snapshotNames ->
  exists out,
    expireSnapshotsForSingleSource snapshots pol snapshotNames w
    = Return ((drop (Z.to_nat (default 0 latest))
                    (complete_named snapshots snapshotNames)).*2, out, w).
Proof.
  intros pol Hn Hlen. unfold expireSnapshotsForSingleSource. simpl.
  destruct (expireLoop_latest latest
              (mkCutoffs zeroTime zeroTime zeroTime zeroTime zeroTime) snapshotNames
              snapshots 0 0
              (mkExpiry ∅ ∅ []
                 [Stdout (newline +:+ SourceInfo.String src +:+ newline)]))
    as (st' & Hrun & Hdel); [done | lia | lia | done | lia | |].
  { simpl. intros key [v Hv]. by rewrite lookup_empty in Hv. }
  exists (printed st').
  unfold cutoffTimes, cutoffTime. simpl.
  rewrite Hrun, Hdel. simpl. by rewrite Z.sub_0_r.
Qed.

(** While the source stays the same the loop of [expireSnapshots] only
    collects snapshots and names. *)
Lemma expireSnapshots_loop_same_source (names : list string) (rest : list (Manifest T))
      (i : Z) (b : batch) :
  0 <= i -> i + len rest <= len names ->
  Forall (fun s => Source s = lastSource b) rest ->
  expireSnapshots_loop names i rest b
  = Return (None,
            mkBatch (lastSource b) (pendingSnapshots b ++ rest)
                    (pendingNames b ++ take (length rest) (drop (Z.to_nat i) names))
                    (batchToDelete b) (written b) (outside_ b)).
Proof.
  revert i b. induction rest as [| s rest IH]; intros i b Hi Hlen Hsame.
  - simpl. rewrite !app_nil_r. by destruct b.
  - assert (len (s :: rest) = 1 + len rest) as Hcons by (unfold len; simpl; lia).
    rewrite Hcons in Hlen.
    destruct (at_index_within names i) as [name Hname]; [unfold len in *; lia |].
    apply Forall_cons in Hsame as [Hs Hsame].
    simpl. rewrite bool_decide_eq_false_2 by (intros Hne; by apply Hne).
    rewrite Hname, IH; [| lia | simpl; lia | done]. simpl.
    rewrite (at_index_drop _ _ _ Hi Hname). simpl.
    by rewrite <- !app_assoc.
Qed.

(** The state of the loop after a list of snapshots of one source. *)
Lemma expireSnapshots_loop_single_source (names : list string)
      (snapshots : list (Manifest T)) (src : SourceInfo.t) (w : W) :
  len snapshots <= len names ->
  Forall (fun s => Source s = src) snapshots ->
  snapshots <> [] ->
  expireSnapshots_loop names 0 snapshots (mkBatch SourceInfo.zero [] [] [] [] w)
  = Return (None, mkBatch src snapshots (take (length snapshots) names) [] [] w).
Proof.
  intros Hlen Hsame Hsome. destruct snapshots as [| s rest]; [done |].
  assert (len (s :: rest) = 1 + len rest) as Hcons by (unfold len; simpl; lia).
  rewrite Hcons in Hlen.
  destruct (at_index_within names 0) as [name Hname]; [unfold len in *; lia |].
  apply Forall_cons in Hsame as [Hs Hsame].
  pose proof (at_index_drop names 0 name ltac:(lia) Hname) as Hdrop.
  change (names = name :: drop 1 names) in Hdrop.
  assert (take (length (s :: rest)) names = name :: take (length rest) (drop 1 names))
    as Htake.
  { rewrite Hdrop at 1. done. }
  rewrite Htake.
  assert (Z.to_nat (0 + 1) = 1%nat) as Hone by lia.
  simpl. case_bool_decide as Hz; simpl; rewrite Hname.
  - rewrite expireSnapshots_loop_same_source; [| lia | simpl; lia | simpl; by rewrite Hs].
    simpl. by rewrite Hone, <- Hs.
  - rewrite expireSnapshots_loop_same_source; [| lia | simpl; lia | simpl; by rewrite <- Hz, Hs].
    simpl. by rewrite Hone, <- Hs, Hz.
Qed.

(** X27: snapshots of one source are expired as a whole.  For a list of
    snapshots that all have the same source, [expireSnapshots] looks the
    policy of that source up once and returns what
    [expireSnapshotsForSingleSource] returns for the whole list with the
    names at its positions, after one more note on standard error or in
    the log. *)
Theorem expireSnapshots_single_source
        (snapshots : list (Manifest T)) (names : list string) (src : SourceInfo.t)
        (pol : Policy.t) (w w1 w2 : W) (td : list string) (out : list output) :
  snapshots <> [] ->
  Forall (fun s => Source s = src) snapshots ->
  len snapshots <= len names ->
  GetEffectivePolicy src w = (inl pol, w1) ->
  expireSnapshotsForSingleSource snapshots pol (take (length snapshots) names) w1
  = Return (td, out, w2) ->
  exists note,
    expireSnapshots snapshots names w = Return ((td, None), out ++ [note], w2).
Proof.
  intros Hsome Hsame Hlen Hpol Hsingle. unfold expireSnapshots.
  rewrite (expireSnapshots_loop_single_source names snapshots src w Hlen Hsame Hsome).
  unfold flush. cbn [pendingSnapshots pendingNames outside_ lastSource batchToDelete written].
  destruct snapshots as [| s rest]; [done |].
  apply Forall_cons in Hsame as [Hs _]. rewrite Hs, Hpol, Hsingle.
  destruct td as [| name td']; simpl; by eexists.
Qed.

(** X28: a failing policy lookup.  When the policy of the source cannot
    be looked up, [expireSnapshots] returns that error and no names, and
    nothing has been written. *)
Theorem expireSnapshots_policy_error
        (snapshots : list (Manifest T)) (names : list string) (src : SourceInfo.t)
        (err : error) (w w1 : W) :
  snapshots <> [] ->
  Forall (fun s => Source s = src) snapshots ->
  len snapshots <= len names ->
  GetEffectivePolicy src w = (inr err, w1) ->
  expireSnapshots snapshots names w = Return (([], Some err), [], w1).
Proof.
  intros Hsome Hsame Hlen Hpol. unfold expireSnapshots.
  rewrite (expireSnapshots_loop_single_source names snapshots src w Hlen Hsame Hsome).
  unfold flush. cbn [pendingSnapshots pendingNames outside_ lastSource batchToDelete written].
  destruct snapshots as [| s rest]; [done |].
  apply Forall_cons in Hsame as [Hs _]. by rewrite Hs, Hpol.
Qed.

(** What [flush] adds are names of complete pending snapshots, by
    position. *)
Lemma flush_by_position (b b' : batch) (doneS : list (Manifest T)) (doneN : list string) :
  length doneS = length doneN ->
  batchToDelete b `sublist_of` (complete_named doneS doneN).*2 ->
  flush b = Return (None, b') ->
  pendingSnapshots b' = [] /\ pendingNames b' = [] /\ lastSource b' = lastSource b
  /\ batchToDelete b'
     `sublist_of` (complete_named (doneS ++ pendingSnapshots b) (doneN ++ pendingNames b)).*2.
Proof.
  intros Hlen Hsub. rewrite (complete_named_app _ _ _ _ Hlen), fmap_app.
  unfold flush. destruct (pendingSnapshots b) as [| first rest] eqn:Hpending.
  - intros [= <-]. simpl. repeat (split; [done |]). by apply sublist_inserts_r.
  - destruct (GetEffectivePolicy (Source first) (outside_ b)) as [[pol | err] w1]; [| done].
    destruct (expireSnapshotsForSingleSource _ _ _ _) as [[[td out] w2] |] eqn:Hsingle;
      [| done].
    assert (td `sublist_of` (complete_named (first :: rest) (pendingNames b)).*2) as Htd.
    { revert Hsingle. unfold expireSnapshotsForSingleSource.
      destruct (cutoffTimes _ _ _ _ _ _) as [c w3].
      destruct (expireLoop _ _ _ _ _ _) as [st |] eqn:Hrun; [| done].
      intros [= <- _ _].
      apply expireLoop_by_position in Hrun as (added & Hadd & Hadded); [| lia].
      simpl in Hadd. by rewrite Hadd. }
    destruct (len td =? 0); intros [= <-]; simpl; repeat (split; [done |]).
    + by apply sublist_inserts_r.
    + by apply sublist_app.
Qed.

Lemma expireSnapshots_loop_by_position (names : list string) (rest : list (Manifest T))
      (i : Z) (b b' : batch) (doneS : list (Manifest T)) (doneN : list string) :
  0 <= i ->
  length doneS = length doneN ->
  length (pendingSnapshots b) = length (pendingNames b) ->
  doneN ++ pendingNames b = take (Z.to_nat i) names ->
  batchToDelete b `sublist_of` (complete_named doneS doneN).*2 ->
  expireSnapshots_loop names i rest b = Return (None, b') ->
  exists doneS' doneN',
    length doneS' = length doneN'
    /\ doneS' ++ pendingSnapshots b' = doneS ++ pendingSnapshots b ++ rest
    /\ doneN' ++ pendingNames b' = take (Z.to_nat i + length rest) names
    /\ batchToDelete b' `sublist_of` (complete_named doneS' doneN').*2.
Proof.
  revert i b doneS doneN.
  induction rest as [| s rest IH]; intros i b doneS doneN Hi Hdone Hpend Hnames Hsub.
  - intros [= <-]. exists doneS, doneN.
    rewrite app_nil_r, Nat.add_0_r. done.
  - simpl.
    destruct (if bool_decide (Source s <> lastSource b) then _ else _)
      as [[[err |] b1] |] eqn:Hflush; [done | | done].
    assert (exists doneS1 doneN1,
               length doneS1 = length doneN1
               /\ length (pendingSnapshots b1) = length (pendingNames b1)
               /\ doneS1 ++ pendingSnapshots b1 = doneS ++ pendingSnapshots b
               /\ doneN1 ++ pendingNames b1 = doneN ++ pendingNames b
               /\ batchToDelete b1 `sublist_of` (complete_named doneS1 doneN1).*2)
      as (doneS1 & doneN1 & Hdone1 & Hpend1 & HS1 & HN1 & Hsub1).
    { case_bool_decide as Hchange.
      - pose proof (flush_by_position
                      (mkBatch (Source s) (pendingSnapshots b) (pendingNames b)
                               (batchToDelete b) (written b) (outside_ b))
                      b1 doneS doneN Hdone Hsub Hflush) as (HpS & HpN & _ & Hsub1).
        simpl in Hsub1.
        exists (doneS ++ pendingSnapshots b), (doneN ++ pendingNames b).
        rewrite HpS, HpN, !app_nil_r, !length_app. by rewrite Hdone, Hpend.
      - injection Hflush as <-. by exists doneS, doneN. }
    destruct (at_index names i) as [name |] eqn:Hname; [| done].
    intros Hrun.
    assert (names !! Z.to_nat i = Some name) as Hlook.
    { unfold at_index in Hname. by destruct (i <? 0). }
    apply (IH (i + 1) _ doneS1 doneN1) in Hrun
      as (doneS' & doneN' & Hdone' & HS' & HN' & Hsub'); simpl.
    + exists doneS', doneN'. split; [done |]. split.
      { rewrite HS'. simpl.
        rewrite <- (app_assoc (pendingSnapshots b1)), (app_assoc doneS1), HS1, <- app_assoc.
        done. }
      split; [| done].
      rewrite HN'. f_equal. simpl. lia.
    + lia.
    + done.
    + by rewrite !length_app, Hpend1.
    + replace (Z.to_nat (i + 1)) with (S (Z.to_nat i)) by lia.
      rewrite (take_S_r _ _ _ Hlook), <- Hnames, <- HN1, <- app_assoc. done.
    + done.
Qed.

(** X29: names come by position, for every list.  Whatever the sources,
    the policies and the clock, the names that [expireSnapshots] returns
    are names of complete snapshots, each taken from [names] at the
    position of its snapshot in the list it is given, in the order of the
    snapshots. *)
Theorem expireSnapshots_names_by_position
        (snapshots : list (Manifest T)) (names : list string) (w w' : W)
        (td : list string) (err : option error) (out : list output) :
  expireSnapshots snapshots names w = Return ((td, err), out, w') ->
  td `sublist_of` (complete_named snapshots names).*2.
Proof.
  unfold expireSnapshots.
  destruct (expireSnapshots_loop _ _ _ _) as [[[e |] b] |] eqn:Hloop; [| | done].
  { intros [= <- _ _ _]. apply sublist_nil_l. }
  apply (expireSnapshots_loop_by_position _ _ _ _ _ [] []) in Hloop
    as (doneS & doneN & Hdone & HS & HN & Hsub); [| lia | done | done | done | done].
  simpl in HS, HN.
  destruct (flush b) as [[[e |] b'] |] eqn:Hflush; [| | done].
  { intros [= <- _ _ _]. apply sublist_nil_l. }
  intros [= <- _ _ _].
  apply (flush_by_position _ _ doneS doneN Hdone Hsub) in Hflush as (_ & _ & _ & Hsub').
  by rewrite HS, HN, complete_named_take in Hsub'.
Qed.
End ExpireMore.

(** ** The further properties on the sample repository *)

Lemma digits_ok : seekTable_ok (seekTable Sample.digits).
Proof.
  split.
  - repeat constructor; vm_compute; intuition discriminate.
  - intros e [= <-]. reflexivity.
  - intros [| [| i]] e e' H H'; simpl in *; try discriminate.
    injection H as <-. injection H' as <-. reflexivity.
  - intros [| [| i]] e e' H H'; simpl in *; try discriminate.
    injection H as <-. injection H' as <-. simpl. lia.
Qed.

Lemma plain_raw_ids : raw_ids Sample.plain.
Proof. intros data. by repeat split. Qed.

Lemma digits_fit : fits_int (seekTable Sample.digits) Cases.digits_contents.
Proof. split; [by vm_compute | repeat constructor]. Qed.

Lemma digits_lengths : lengths_agree (seekTable Sample.digits) Cases.digits_contents.
Proof. repeat constructor. Qed.

Lemma digits_open :
  opens_chunks Sample.X Sample.indirectStreamType StorageBlock Sample.jsonstream_NewReader
               Sample.newObjectSectionReader Sample.io_ReadFull
               (seekTable Sample.digits) Cases.digits_contents Cases.serves_digits.
Proof.
  intros r m k c [Hw Hf] Htbl Hidx Hc.
  unfold openCurrentChunk. rewrite Htbl, Hidx.
  destruct k as [| [| k]]; simpl in Hc; try discriminate; injection Hc as <-.
  - change (at_index (seekTable Sample.digits) (Z.of_nat 0))
      with (Some (indirectObjectEntry.mk 0 4 (Sample.raw "0123"))).
    cbv beta iota. unfold mbind, M_bind.
    change (Open Sample.X Sample.indirectStreamType StorageBlock Sample.jsonstream_NewReader
                 Sample.newObjectSectionReader
                 (Object (indirectObjectEntry.mk 0 4 (Sample.raw "0123"))) m)
      with (newRawReader Sample.X (Sample.raw "0123") m).
    rewrite (newRawReader_direct_state Sample.X m (Sample.raw "0123")
               (mkObjectIDSection 0 0 Sample.NullObjectID)
               Sample.holding_digits Sample.holding_digits
               (String.list_byte_of_string "0123") (String.list_byte_of_string "0123")).
    + eexists. split; [reflexivity |]. by split.
    + rewrite Hw. reflexivity.
    + vm_compute. reflexivity.
    + rewrite Hf. reflexivity.
    + rewrite Hf. vm_compute. reflexivity.
  - change (at_index (seekTable Sample.digits) (Z.of_nat 1))
      with (Some (indirectObjectEntry.mk 4 6 (Sample.raw "456789"))).
    cbv beta iota. unfold mbind, M_bind.
    change (Open Sample.X Sample.indirectStreamType StorageBlock Sample.jsonstream_NewReader
                 Sample.newObjectSectionReader
                 (Object (indirectObjectEntry.mk 4 6 (Sample.raw "456789"))) m)
      with (newRawReader Sample.X (Sample.raw "456789") m).
    rewrite (newRawReader_direct_state Sample.X m (Sample.raw "456789")
               (mkObjectIDSection 0 0 Sample.NullObjectID)
               Sample.holding_digits Sample.holding_digits
               (String.list_byte_of_string "456789") (String.list_byte_of_string "456789")).
    + eexists. split; [reflexivity |]. by split.
    + rewrite Hw. reflexivity.
    + vm_compute. reflexivity.
    + rewrite Hf. reflexivity.
    + rewrite Hf. vm_compute. reflexivity.
Qed.

Lemma digits_in_step :
  in_step (seekTable Sample.digits) Cases.digits_contents Sample.digits.
Proof. repeat split; simpl; lia. Qed.

Lemma digits_served : Cases.serves_digits (Sample.manager Sample.holding_digits).
Proof. by split. Qed.

(** Writing [abc] with the prefix [P] to the empty store. *)
Lemma hashEncryptAndWrite_uploads_missing_block_witness :
  exists r',
    Sample.hashEncryptAndWrite "g" (Some Sample.abc) "P" false (Sample.manager Sample.empty)
    = Return ((Sample.raw "Pabc", None), r')
    /\ StorageBlock (Sample.raw "Pabc") = "Pabc"
    /\ calls r' = [Call_getSize "Pabc"; Call_Encrypt Sample.abc (Sample.raw "Pabc") 0;
                   Call_PutBlock "Pabc" Sample.abc]
    /\ world r' = Sample.mkState {[ "Pabc" := Sample.abc ]} false [] None
    /\ WrittenBlocks (stats r') = 1
    /\ WrittenBytes (stats r') = 3
    /\ EncryptedBytes (stats r') = 3
    /\ PresentBlocks (stats r') = 0.
Proof.
  apply (hashEncryptAndWrite_uploads_missing_block Sample.X Sample.NullObjectID
           (Sample.manager Sample.empty) "g" "P" (Some Sample.abc) false
           0 (Some blob_ErrBlockNotFound) Sample.empty
           (Sample.mkState {[ "Pabc" := Sample.abc ]} false [] None) Sample.abc).
  - reflexivity.
  - vm_compute. reflexivity.
  - by left.
  - reflexivity.
  - vm_compute. reflexivity.
Defined.

(** Writing [abc] twice to the empty store, packing disabled. *)
Lemma hashEncryptAndWrite_twice_dedupes_witness :
  exists r1 r2,
    Sample.hashEncryptAndWrite "g" (Some Sample.abc) "" true (Sample.manager Sample.empty)
    = Return ((Sample.raw "abc", None), r1)
    /\ Sample.hashEncryptAndWrite "g" (Some Sample.abc) "" true r1
       = Return ((Sample.raw "abc", None), r2)
    /\ calls r2 = calls r1 ++ [Call_getSize "abc"]
    /\ PresentBlocks (stats r2) = 1
    /\ WrittenBlocks (stats r2) = WrittenBlocks (stats r1)
    /\ WrittenBytes (stats r2) = WrittenBytes (stats r1)
    /\ world r2 = Sample.holding_abc.
Proof.
  apply (hashEncryptAndWrite_twice_dedupes Sample.X Sample.NullObjectID
           (Sample.manager Sample.empty) "g" "" (Some Sample.abc) true
           0 Sample.empty Sample.holding_abc Sample.holding_abc Sample.abc).
  - exact plain_length_preserving.
  - reflexivity.
  - vm_compute. reflexivity.
  - reflexivity.
  - vm_compute. reflexivity.
  - vm_compute. reflexivity.
Defined.

(** Reading [abc] back from the store that holds it. *)
Lemma newRawReader_returns_only_verified_data_witness :
  exists plaintext,
    newObjectReaderWithData Sample.abc = newObjectReaderWithData plaintext
    /\ checksum_matches Sample.plain plaintext "abc"
    /\ ValidBlocks
         (stats (mkObjectManager (mkStats 0 0 0 0 0 0 0 1 3 3 1 0) Sample.format Sample.plain
                                 Sample.holding_abc
                                 [Call_blockIDToPackSection "abc"; Call_GetBlock "abc" 0 (-1);
                                  Call_Decrypt Sample.abc (Sample.raw "abc") 0]))
       = 1
    /\ InvalidBlocks
         (stats (mkObjectManager (mkStats 0 0 0 0 0 0 0 1 3 3 1 0) Sample.format Sample.plain
                                 Sample.holding_abc
                                 [Call_blockIDToPackSection "abc"; Call_GetBlock "abc" 0 (-1);
                                  Call_Decrypt Sample.abc (Sample.raw "abc") 0]))
       = 0.
Proof.
  apply (newRawReader_returns_only_verified_data Sample.X
           (Sample.manager Sample.holding_abc) (Sample.raw "abc")).
  vm_compute. reflexivity.
Defined.

(** Reading the block [abc] from the store in which it holds other
    bytes. *)
Lemma newRawReader_failure_counts_witness :
  ValidBlocks
    (stats (mkObjectManager (mkStats 0 0 0 0 0 0 0 1 3 3 0 1) Sample.format Sample.plain
                            Cases.tampered
                            [Call_blockIDToPackSection "abc"; Call_GetBlock "abc" 0 (-1);
                             Call_Decrypt [x61; x62; x78] (Sample.raw "abc") 0]))
  = 0
  /\ (InvalidBlocks
        (stats (mkObjectManager (mkStats 0 0 0 0 0 0 0 1 3 3 0 1) Sample.format Sample.plain
                                Cases.tampered
                                [Call_blockIDToPackSection "abc"; Call_GetBlock "abc" 0 (-1);
                                 Call_Decrypt [x61; x62; x78] (Sample.raw "abc") 0]))
      = 0
      \/ exists plaintext,
          Errorf "invalid checksum for blob: 'abc', expected abx"
          = invalidChecksum Sample.plain plaintext "abc"
          /\ ~ checksum_matches Sample.plain plaintext "abc"
          /\ InvalidBlocks
               (stats (mkObjectManager (mkStats 0 0 0 0 0 0 0 1 3 3 0 1) Sample.format
                                       Sample.plain Cases.tampered
                                       [Call_blockIDToPackSection "abc";
                                        Call_GetBlock "abc" 0 (-1);
                                        Call_Decrypt [x61; x62; x78] (Sample.raw "abc") 0]))
             = 1).
Proof.
  apply (newRawReader_failure_counts Sample.X (Sample.manager Cases.tampered)
           (Sample.raw "abc")).
  vm_compute. reflexivity.
Defined.

(** Reading a block the empty store does not hold. *)
Lemma newRawReader_fetch_error_witness :
  exists r',
    Sample.newRawReader (Sample.raw "abc") (Sample.manager Sample.empty)
    = Return (inl blob_ErrBlockNotFound, r')
    /\ stats r' = Sample.noStats
    /\ world r' = Sample.empty
    /\ calls r' = [Call_blockIDToPackSection "abc"; Call_GetBlock "abc" 0 (-1)].
Proof.
  apply (newRawReader_fetch_error Sample.X (Sample.manager Sample.empty) (Sample.raw "abc")
           (mkObjectIDSection 0 0 Sample.NullObjectID) false Sample.empty Sample.empty []
           blob_ErrBlockNotFound).
  - reflexivity.
  - reflexivity.
Defined.

(** Writing [abc] with the prefix [P] and opening what was written. *)
Lemma hashEncryptAndWrite_then_Open_witness :
  exists r1 r2,
    Sample.hashEncryptAndWrite "g" (Some Sample.abc) "P" false (Sample.manager Sample.empty)
    = Return ((Sample.raw "Pabc", None), r1)
    /\ Sample.Open (Sample.raw "Pabc") r1
       = Return (inr (newObjectReaderWithData Sample.abc), r2)
    /\ ValidBlocks (stats r2) = 1
    /\ InvalidBlocks (stats r2) = 0
    /\ ReadBytes (stats r2) = 3.
Proof.
  apply (hashEncryptAndWrite_then_Open Sample.X Sample.NullObjectID
           Sample.indirectStreamType StorageBlock Sample.jsonstream_NewReader
           Sample.newObjectSectionReader
           (Sample.manager Sample.empty) "g" "P" (Some Sample.abc) false
           0 (Some blob_ErrBlockNotFound) Sample.empty
           (Sample.mkState {[ "Pabc" := Sample.abc ]} false [] None)
           (Sample.mkState {[ "Pabc" := Sample.abc ]} false [] None)
           (Sample.mkState {[ "Pabc" := Sample.abc ]} false [] None)
           Sample.abc (mkObjectIDSection 0 0 Sample.NullObjectID)).
  - exact plain_raw_ids.
  - reflexivity.
  - vm_compute. reflexivity.
  - by left.
  - reflexivity.
  - vm_compute. reflexivity.
  - reflexivity.
  - vm_compute. reflexivity.
  - reflexivity.
Defined.

(** Opening the indirect ObjectID over the list of the two chunks. *)
Lemma Open_indirect_builds_seek_table_witness :
  Cases.OpenListing Cases.listed (Sample.manager Sample.empty)
  = Return (inr (indirectReader Sample.digits), Sample.manager Sample.empty).
Proof.
  apply (Open_indirect_builds_seek_table Sample.X Sample.indirectStreamType StorageBlock
           Cases.listing_NewReader Sample.newObjectSectionReader
           Cases.listed (mkObjectID "" None "L" None None)
           (newObjectReaderWithData (String.list_byte_of_string "L"))
           (mkJsonstreamReader (seekTable Sample.digits) io_EOF)
           (indirectObjectEntry.mk 4 6 (Sample.raw "456789"))
           (Sample.manager Sample.empty) (Sample.manager Sample.empty)
           (Sample.manager Sample.empty)).
  - reflexivity.
  - reflexivity.
  - reflexivity.
  - reflexivity.
  - reflexivity.
  - reflexivity.
Defined.

(** Opening the indirect ObjectID over the list that breaks off. *)
Lemma Open_indirect_broken_list_witness :
  Cases.OpenListing Cases.broken (Sample.manager Sample.empty)
  = Return (inl io_ErrUnexpectedEOF, Sample.manager Sample.empty).
Proof.
  apply (Open_indirect_broken_list Sample.X Sample.indirectStreamType StorageBlock
           Cases.listing_NewReader Sample.newObjectSectionReader
           Cases.broken (mkObjectID "" None "B" None None)
           (newObjectReaderWithData (String.list_byte_of_string "B"))
           (mkJsonstreamReader (seekTable Sample.digits) io_ErrUnexpectedEOF)
           (Sample.manager Sample.empty) (Sample.manager Sample.empty)
           (Sample.manager Sample.empty)).
  - reflexivity.
  - reflexivity.
  - reflexivity.
  - reflexivity.
  - discriminate.
Defined.

(** The reader opened over the list of the two chunks is fresh. *)
Lemma Open_indirect_reader_is_fresh_witness :
  exists final,
    last (seekTable Sample.digits) = Some final
    /\ totalLength Sample.digits = endOffset final
    /\ currentPosition Sample.digits = 0
    /\ currentChunkIndex Sample.digits = 0
    /\ currentChunkData Sample.digits = None
    /\ currentChunkPosition Sample.digits = 0.
Proof.
  apply (Open_indirect_reader_is_fresh Sample.X Sample.indirectStreamType StorageBlock
           Cases.listing_NewReader Sample.newObjectSectionReader
           Cases.listed Sample.digits (Sample.manager Sample.empty)
           (Sample.manager Sample.empty)).
  - reflexivity.
  - reflexivity.
Defined.

(** Initializing with credentials that give no master key. *)
Lemma Initialize_fails_before_any_put_witness :
  Sample.Initialize Sample.populated None Cases.locked tt
  = (Some (ForeignError "wrong password"), Sample.populated, tt).
Proof.
  apply (Initialize_fails_before_any_put
           Sample.st_PutBlock Sample.rand_Read Sample.MetadataBlockPrefix Sample.formatBlockID
           Sample.repositoryConfigBlockID "scrypt" "AES256-GCM" "DYNAMIC"
           "ENCRYPTED_HMAC_SHA512_384_AES256" Sample.json_Marshal Sample.initCrypto
           Sample.putJSON
           Sample.populated None Cases.locked tt tt
           (mkMetadataFormat (mkSecurityOptions "scrypt" (replicate 32 x00)) "1" "AES256-GCM")
           [] [] (ForeignError "wrong password")).
  - reflexivity.
  - by left.
Defined.

(** Initializing an empty store when the crypto cannot be set up. *)
Lemma Initialize_crypto_failure_leaves_format_blob_witness :
  Cases.Initialize_failing_crypto ∅ None Sample.creds tt
  = (Some (Errorf "unable to initialize crypto: unknown algorithm"),
     {[ "VLTformat" := String.list_byte_of_string "scrypt" ++ replicate 32 x00 ]},
     tt).
Proof.
  apply (Initialize_crypto_failure_leaves_format_blob
           Sample.st_PutBlock Sample.rand_Read Sample.MetadataBlockPrefix Sample.formatBlockID
           Sample.repositoryConfigBlockID "scrypt" "AES256-GCM" "DYNAMIC"
           "ENCRYPTED_HMAC_SHA512_384_AES256" Sample.json_Marshal Cases.initCrypto_failing
           Sample.putJSON
           ∅ _ None Sample.creds tt tt
           (mkMetadataFormat (mkSecurityOptions "scrypt" (replicate 32 x00)) "1" "AES256-GCM")
           (replicate 32 x01)
           (String.list_byte_of_string "scrypt" ++ replicate 32 x00)
           (mkMetadataManager
              (mkMetadataFormat (mkSecurityOptions "scrypt" (replicate 32 x00)) "1"
                                "AES256-GCM")
              (replicate 32 x01) None)
           (ForeignError "unknown algorithm")).
  - reflexivity.
  - reflexivity.
  - reflexivity.
  - reflexivity.
  - reflexivity.
Defined.


(** With default options the same call draws 96 bytes. *)
Example Initialize_default_options_draw_randomness :
  (Cases.Initialize_counting ∅ None Sample.creds 0).2 = 96.
Proof. vm_compute. reflexivity. Qed.

(** Seeking five bytes back from position 0 is refused. *)
Lemma Seek_negative_target_fails_witness :
  Sample.Seek Sample.digits (-5) 1 (Sample.manager Sample.holding_digits)
  = Some (Return ((-1, Some (Errorf "Invalid seek."), Sample.digits),
                  Sample.manager Sample.holding_digits)).
Proof.
  apply (Seek_negative_target_fails Sample.X Sample.indirectStreamType StorageBlock
           Sample.jsonstream_NewReader Sample.newObjectSectionReader Sample.io_ReadFull
           Sample.digits (-5) 1 (Sample.manager Sample.holding_digits)).
  vm_compute. reflexivity.
Defined.


(** Seeking to offset 7 lands at byte 3 of the second chunk. *)
Lemma Seek_in_range_lands_in_chunk_witness :
  7 = 7 /\ @None error = None
  /\ seekTable (mkObjectReader (seekTable Sample.digits) 7 10 1
                               (Some (String.list_byte_of_string "456789")) 3)
     = seekTable Sample.digits
  /\ currentPosition (mkObjectReader (seekTable Sample.digits) 7 10 1
                                     (Some (String.list_byte_of_string "456789")) 3) = 7
  /\ exists (i : nat) (e : entry),
      seekTable Sample.digits !! i = Some e /\ covers e 7
      /\ currentChunkIndex (mkObjectReader (seekTable Sample.digits) 7 10 1
                                           (Some (String.list_byte_of_string "456789")) 3)
         = Z.of_nat i
      /\ currentChunkPosition (mkObjectReader (seekTable Sample.digits) 7 10 1
                                              (Some (String.list_byte_of_string "456789")) 3)
         = 7 - Start e.
Proof.
  apply (Seek_in_range_lands_in_chunk Sample.X Sample.indirectStreamType StorageBlock
           Sample.jsonstream_NewReader Sample.newObjectSectionReader Sample.io_ReadFull
           Sample.digits _ 7 (indirectObjectEntry.mk 4 6 (Sample.raw "456789"))
           (Sample.manager Sample.holding_digits)
           (mkObjectManager (mkStats 0 0 0 0 0 0 0 1 6 6 1 0) Sample.format Sample.plain
                            Sample.holding_digits
                            [Call_blockIDToPackSection "456789";
                             Call_GetBlock "456789" 0 (-1);
                             Call_Decrypt (String.list_byte_of_string "456789")
                                          (Sample.raw "456789") 0])).
  - exact digits_ok.
  - reflexivity.
  - reflexivity.
  - simpl. lia.
  - vm_compute. reflexivity.
Defined.

(** A read of four bytes from the start of the two-chunk object. *)
Lemma Read_count_and_error_witness :
  length (String.list_byte_of_string "0123") = length (replicate 4 x00)
  /\ 0 <= 4 <= len (replicate 4 x00)
  /\ (@None error = None <-> 0 < 4).
Proof.
  apply (Read_count_and_error Sample.X Sample.indirectStreamType StorageBlock
           Sample.jsonstream_NewReader Sample.newObjectSectionReader Sample.io_ReadFull
           Sample.digits
           (mkObjectReader (seekTable Sample.digits) 4 10 0
                           (Some (String.list_byte_of_string "0123")) 4)
           (replicate 4 x00) (String.list_byte_of_string "0123")
           (Sample.manager Sample.holding_digits)
           (mkObjectManager (mkStats 0 0 0 0 0 0 0 1 4 4 1 0) Sample.format Sample.plain
                            Sample.holding_digits
                            [Call_blockIDToPackSection "0123";
                             Call_GetBlock "0123" 0 (-1);
                             Call_Decrypt (String.list_byte_of_string "0123")
                                          (Sample.raw "0123") 0])).
  vm_compute. reflexivity.
Defined.

(** A read of twelve bytes from the start delivers the ten bytes of the
    object. *)
Lemma Read_delivers_next_bytes_witness :
  exists r' m',
    Sample.Read Sample.digits (replicate 12 x00) (Sample.manager Sample.holding_digits)
    = Some (Return ((String.list_byte_of_string "0123456789" ++ [x00; x00], 10, None, r'),
                    m'))
    /\ in_step (seekTable Sample.digits) Cases.digits_contents r'
    /\ pending Cases.digits_contents r' = []
    /\ Cases.serves_digits m'
    /\ currentPosition r' = 10.
Proof.
  apply (Read_delivers_next_bytes Sample.X Sample.indirectStreamType StorageBlock
           Sample.jsonstream_NewReader Sample.newObjectSectionReader Sample.io_ReadFull
           (seekTable Sample.digits) Cases.digits_contents Cases.serves_digits
           digits_fit eq_refl digits_open
           Sample.digits (replicate 12 x00) (Sample.manager Sample.holding_digits)).
  - exact digits_served.
  - exact digits_in_step.
Defined.



(** ** The snapshot commands on samples *)

(** The text of a source with user, host and path is read back. *)
Lemma ParseSourceInfo_String_witness :
  Cases.ParseSourceInfo (SourceInfo.String Cases.library) "h" "u"
  = Return (Cases.library, None).
Proof.
  apply (ParseSourceInfo_String Cases.filepath_Abs Cases.filepath_Clean Cases.strconv_Quote
           Cases.library "h" "u").
  right. repeat split; done.
Defined.

(** Without a user name the text is taken for a directory below [/cwd]. *)
Lemma ParseSourceInfo_String_without_user_witness :
  Cases.ParseSourceInfo (SourceInfo.String Cases.nameless) "h" "u"
  = Return (SourceInfo.mk "h" "u" "/cwd/@host:/data", None).
Proof.
  apply (ParseSourceInfo_String_without_user
           Cases.filepath_Abs Cases.filepath_Clean Cases.strconv_Quote
           Cases.nameless "h" "u" "/cwd/@host:/data"); done.
Defined.

(** Two days are kept: the second snapshot of the ninth day and the one of
    the sixth day go. *)
Lemma expireSnapshotsForSingleSource_names_by_position_witness :
  ["b"; "c"] `sublist_of` (complete_named Cases.week Cases.shelf_names).*2.
Proof.
  eapply (expireSnapshotsForSingleSource_names_by_position
            0 Cases.time_Now Cases.AddDate Cases.Add Cases.After Cases.Format Cases.ISOWeek
            Cases.Local Cases.Sprintf_week
            Cases.week Cases.two_days Cases.shelf_names Cases.tenth_day).
  vm_compute. reflexivity.
Defined.

(** Only the latest is kept: of the two complete snapshots the second
    goes, the incomplete one is passed over. *)
Lemma expireSnapshotsForSingleSource_keep_latest_witness :
  exists out,
    Cases.expireSnapshotsForSingleSource Cases.shelf Cases.latest_only Cases.shelf_names 0
    = Return (["c"], out, 0).
Proof.
  apply (expireSnapshotsForSingleSource_keep_latest
           0 Cases.time_Now Cases.AddDate Cases.Add Cases.After Cases.Format Cases.ISOWeek
           Cases.Local Cases.Sprintf_week
           Cases.shelf Cases.library (Some 1) Cases.shelf_names 0).
  - unfold int64_range. simpl. lia.
  - unfold len. simpl. lia.
Defined.

Lemma expireSnapshots_single_source_witness :
  exists out note,
    Cases.expireSnapshots Cases.shelf Cases.shelf_names 0
    = Return ((["c"], None), out ++ [note], 0).
Proof.
  eexists.
  eapply (expireSnapshots_single_source
            0 Cases.time_Now Cases.AddDate Cases.Add Cases.After Cases.Format Cases.ISOWeek
            Cases.Local Cases.Sprintf_week Cases.strconv_Quote Cases.GetEffectivePolicy
            Cases.shelf Cases.shelf_names Cases.library Cases.latest_only 0 0 0).
  - done.
  - repeat constructor.
  - unfold len. simpl. lia.
  - reflexivity.
  - vm_compute. reflexivity.
Defined.

Lemma expireSnapshots_policy_error_witness :
  Cases.expireSnapshots_failing Cases.shelf Cases.shelf_names 0
  = Return (([], Some (ForeignError "no policy")), [], 0).
Proof.
  apply (expireSnapshots_policy_error
           0 Cases.time_Now Cases.AddDate Cases.Add Cases.After Cases.Format Cases.ISOWeek
           Cases.Local Cases.Sprintf_week Cases.strconv_Quote Cases.GetEffectivePolicy_failing
           Cases.shelf Cases.shelf_names Cases.library (ForeignError "no policy") 0 0).
  - done.
  - repeat constructor.
  - unfold len. simpl. lia.
  - reflexivity.
Defined.

Lemma expireSnapshots_names_by_position_witness :
  ["c"] `sublist_of` (complete_named Cases.shelf Cases.shelf_names).*2.
Proof.
  eapply (expireSnapshots_names_by_position
            0 Cases.time_Now Cases.AddDate Cases.Add Cases.After Cases.Format Cases.ISOWeek
            Cases.Local Cases.Sprintf_week Cases.strconv_Quote Cases.GetEffectivePolicy
            Cases.shelf Cases.shelf_names 0).
  vm_compute. reflexivity.
Defined.
